(** * QActor: a qualitative-reasoning control actor

    Shallow embedding of [qactor.py] and [qmodel.py].

    Numbers.  The Python code computes with [float].  The development has
    two layers.  In the first one, which follows, every float is a real
    number (Stdlib's [R]): rounding, infinities, NaN and the [OverflowError]
    of [**] are outside it.  What Python raises on real-valued grounds is
    kept: [/] raises [ZeroDivisionError] on a zero divisor and [math.sqrt]
    raises [ValueError] on a negative argument.  This layer carries the
    properties that are about which entries the code reads and writes, which
    terms it sums and which branch it takes, and the identities of real
    arithmetic that the specification states.  The second layer, the module
    [Binary64] below, is the same program on binary64 floats with the
    exceptions of CPython; it carries the properties that NaN, infinities,
    overflow and underflow decide: the selection by [sorted], the depth and
    the error paths of [_time_to_goal], and the bounds on the learned
    extrema.  Qualitative directions are Python [int]s and are modelled by
    [Z] in both layers.

    Dictionaries.  The estimator's seven dictionaries are only looked up and
    assigned by key: they are [gmap string R].  A dictionary the code iterates
    over ([numerical_state], [target], an action) is an insertion-ordered
    association list, and the loop reads the value stored with each key.

    Effects.  [observe] mutates the actor and may raise half-way through its
    loop; it is a computation [QActor -> QActor * option exn], so that the
    mutations made before an exception stay visible.  [_eta] and [act] only
    read the actor: they are functions into [result].  The model is a pair
    of pure functions stored in the actor.

    Recursion.  [_time_to_goal] calls itself when the speed points away from
    the goal; it is defined by well-founded recursion on that condition.  In
    [Binary64], [_time_to_goal_depth] is the same body with a bound on the
    number of nested activations, used to measure the depth of the
    recursion. *)

From Stdlib Require Import Reals Lra Lia ZArith List Permutation.
From Stdlib Require Floats.
From Equations Require Import Equations.
From stdpp Require Import base option list strings gmap fin_maps.

Local Open Scope R_scope.

(** ** Python exceptions and the error monad *)

(** [OverflowError] is raised by [**] on floats, in [Binary64] only. *)
Inductive exn : Type :=
| ZeroDivisionError
| ValueError
| KeyError (key : string)
| IndexError
| OverflowError.

Inductive result (A : Type) : Type :=
| Ok (a : A)
| Raise (e : exn).
Arguments Ok {A} a.
Arguments Raise {A} e.

Definition bind {A B : Type} (m : result A) (k : A -> result B) : result B :=
  match m with
  | Ok a => k a
  | Raise e => Raise e
  end.

Notation "'let!' x ':=' m 'in' k" := (bind m (fun x => k))
  (at level 10, x name, m at level 100, k at level 200).

(** Equality of floats is decided ([==]). *)
#[global] Instance R_eq_dec : EqDecision R := Req_dec_T.

(** [d[key]] on a dictionary that is only looked up. *)
Definition getitem {V : Type} (d : gmap string V) (key : string) : result V :=
  match d !! key with
  | Some v => Ok v
  | None => Raise (KeyError key)
  end.

(** [d[key] if key in d else default]. *)
Definition get_or {V : Type} (d : gmap string V) (key : string) (default : V) : V :=
  match d !! key with
  | Some v => v
  | None => default
  end.

(** [x / y] on floats. *)
Definition truediv (x y : R) : result R :=
  if Req_dec_T y 0 then Raise ZeroDivisionError else Ok (x / y).

(** [math.sqrt x]. *)
Definition math_sqrt (x : R) : result R :=
  if Rlt_dec x 0 then Raise ValueError else Ok (sqrt x).

(** ** Qualitative model *)

(** A qualitative action [{'m1': 1, 'm2': 0, ...}], iterated by [act]. *)
Abbreviation action := (list (string * Z)).

(** The interface of [QModel]: [actions] and [effect], both reading the
    numerical state. *)
Record QModel : Type := mkQModel {
  actions : gmap string R -> list action;
  effect : action -> gmap string R -> gmap string Z
}.

(** The base class returns no action and an empty effect. *)
Definition QModel_base : QModel := mkQModel (fun _ => []) (fun _ _ => ∅).

(** ** The actor's state *)

Record QActor : Type := mkQActor {
  _model : QModel;
  _current_x : gmap string R;
  _current_v : gmap string R;
  _current_a : gmap string R;
  _max_v_pos : gmap string R;
  _max_v_neg : gmap string R;
  _max_a_pos : gmap string R;
  _max_a_neg : gmap string R
}.

(** [reset]: clear the current state and the learned parameters. *)
Definition reset (self : QActor) : QActor :=
  mkQActor (_model self) ∅ ∅ ∅ ∅ ∅ ∅ ∅.

(** [__init__]: store the model and [reset]. *)
Definition __init__ (model : QModel) : QActor :=
  reset (mkQActor model ∅ ∅ ∅ ∅ ∅ ∅ ∅).

(** [restart]: clear the current state, keep the learned parameters. *)
Definition restart (self : QActor) : QActor :=
  mkQActor (_model self) ∅ ∅ ∅
    (_max_v_pos self) (_max_v_neg self) (_max_a_pos self) (_max_a_neg self).

(** ** State estimator *)

(** Lines 55-59 and 68-72: [max_d] is the dictionary chosen by the sign of
    [v]; the magnitude is stored when the key is new or the magnitude is
    larger than the stored one.  (On real numbers; what a NaN does here is
    in [Binary64.update_max].) *)
Definition update_max (max_d : gmap string R) (variable : string) (v : R)
  : gmap string R :=
  match max_d !! variable with
  | Some m => if Rgt_dec (Rabs v) m then <[variable := Rabs v]> max_d else max_d
  | None => <[variable := Rabs v]> max_d
  end.

Definition set_current_x (self : QActor) (d : gmap string R) : QActor :=
  mkQActor (_model self) d (_current_v self) (_current_a self)
    (_max_v_pos self) (_max_v_neg self) (_max_a_pos self) (_max_a_neg self).

Definition set_current_v (self : QActor) (d : gmap string R) : QActor :=
  mkQActor (_model self) (_current_x self) d (_current_a self)
    (_max_v_pos self) (_max_v_neg self) (_max_a_pos self) (_max_a_neg self).

Definition set_current_a (self : QActor) (d : gmap string R) : QActor :=
  mkQActor (_model self) (_current_x self) (_current_v self) d
    (_max_v_pos self) (_max_v_neg self) (_max_a_pos self) (_max_a_neg self).

Definition set_max_v_pos (self : QActor) (d : gmap string R) : QActor :=
  mkQActor (_model self) (_current_x self) (_current_v self) (_current_a self)
    d (_max_v_neg self) (_max_a_pos self) (_max_a_neg self).

Definition set_max_v_neg (self : QActor) (d : gmap string R) : QActor :=
  mkQActor (_model self) (_current_x self) (_current_v self) (_current_a self)
    (_max_v_pos self) d (_max_a_pos self) (_max_a_neg self).

Definition set_max_a_pos (self : QActor) (d : gmap string R) : QActor :=
  mkQActor (_model self) (_current_x self) (_current_v self) (_current_a self)
    (_max_v_pos self) (_max_v_neg self) d (_max_a_neg self).

Definition set_max_a_neg (self : QActor) (d : gmap string R) : QActor :=
  mkQActor (_model self) (_current_x self) (_current_v self) (_current_a self)
    (_max_v_pos self) (_max_v_neg self) (_max_a_pos self) d.

(** Lines 53-59: the velocity extremum. *)
Definition learn_velocity (self : QActor) (variable : string) (v : R) : QActor :=
  if Req_dec_T v 0 then self
  else if Rgt_dec v 0
       then set_max_v_pos self (update_max (_max_v_pos self) variable v)
       else set_max_v_neg self (update_max (_max_v_neg self) variable v).

(** Lines 66-72: the acceleration extremum. *)
Definition learn_acceleration (self : QActor) (variable : string) (a : R) : QActor :=
  if Req_dec_T a 0 then self
  else if Rgt_dec a 0
       then set_max_a_pos self (update_max (_max_a_pos self) variable a)
       else set_max_a_neg self (update_max (_max_a_neg self) variable a).

(** [(x - x0) / dt] when the dictionary has a previous value, [None]
    otherwise (lines 40-42 and 47-49). *)
Definition difference_quotient (d : gmap string R) (variable : string)
    (x dt : R) : result (option R) :=
  match d !! variable with
  | Some x0 => let! q := truediv (x - x0) dt in Ok (Some q)
  | None => Ok None
  end.

(** The body of the loop of [observe] for one [variable] with value [x]:
    the actor after the body, and the exception that left it, if any. *)
Definition observe_variable (dt : R) (self : QActor) (variable : string) (x : R)
  : QActor * option exn :=
  match difference_quotient (_current_x self) variable x dt with
  | Raise e => (self, Some e)
  | Ok v =>
    let self := set_current_x self (<[variable := x]> (_current_x self)) in
    match v with
    | None => (self, None)
    | Some v =>
      match difference_quotient (_current_v self) variable v dt with
      | Raise e => (self, Some e)
      | Ok a =>
        let self := set_current_v self (<[variable := v]> (_current_v self)) in
        let self := learn_velocity self variable v in
        match a with
        | None => (self, None)
        | Some a =>
          let self := set_current_a self (<[variable := a]> (_current_a self)) in
          let self := learn_acceleration self variable a in
          (self, None)
        end
      end
    end
  end.

(** [observe]: the loop over the items of [numerical_state], left at the
    first exception. *)
Fixpoint observe (self : QActor) (numerical_state : list (string * R)) (dt : R)
  : QActor * option exn :=
  match numerical_state with
  | [] => (self, None)
  | (variable, x) :: rest =>
    match observe_variable dt self variable x with
    | (self', None) => observe self' rest dt
    | (self', Some e) => (self', Some e)
    end
  end.

(** ** ETA calculator *)

(** Line 149: the goal is reached while still accelerating, at speed [vx]. *)
Definition arrive_accelerating (t v0 acc vx : R) : result R :=
  let! t1 := truediv (vx - v0) acc in
  Ok (t + t1).

(** Lines 151-153: the maximum speed [v1] is reached first, and the rest of
    the distance is made at that speed. *)
Definition arrive_cruising (t dist v0 v1 acc : R) : result R :=
  let! t1 := truediv (v1 - v0) acc in
  let t := t + t1 in
  let! s := truediv (v1 ^ 2 - v0 ^ 2) (2 * acc) in
  let! t2 := truediv (dist - s) v1 in
  Ok (t + t2).

(** The branch [v0 >= 0] of [_time_to_goal] (lines 147-154); [t] is 0 there. *)
Definition toward_goal (dist v0 v1 acc : R) : result R :=
  let t := 0 in
  let! vx := math_sqrt (v0 ^ 2 + 2 * acc * dist) in
  if Rle_dec vx v1 then arrive_accelerating t v0 acc vx
  else arrive_cruising t dist v0 v1 acc.

(** 1 when the speed points away from the goal: the measure of the recursion. *)
Definition away (v0 : R) : nat := if Rge_dec v0 0 then 0%nat else 1%nat.

(** [_time_to_goal] (lines 134-161): towards the goal the closed form;
    away from it, the time to stop and the time from the stopping point.
    (On real numbers, where a square neither overflows nor underflows; the
    error paths of [**] are in [Binary64._time_to_goal].) *)
Equations _time_to_goal (dist v0 v1 acc dcc : R) : result R by wf (away v0) lt :=
_time_to_goal dist v0 v1 acc dcc with Rge_dec v0 0 := {
  | left _ => toward_goal dist v0 v1 acc
  | right Hneg =>
      let t := 0 in
      let! s := truediv (v0 ^ 2) (2 * acc) in
      let! t1 := truediv (- v0) acc in
      let t := t + t1 in
      let! t2 := _time_to_goal (dist + s) 0 v1 acc dcc in
      Ok (t + t2) }.
Next Obligation.
  intros. unfold away.
  destruct (Rge_dec 0 0) as [_|H0]; [|exfalso; apply H0; lra].
  destruct (Rge_dec v0 0); [contradiction | lia].
Qed.

(** The arguments [_eta] hands to [_time_to_goal], or [None] when it returns
    0 without calling it (lines 113-132). *)
Definition _eta_call (self : QActor) (variable : string) (x1 : R)
  : result (option (R * R * R * R * R)) :=
  let! x := getitem (_current_x self) variable in
  let v0 := get_or (_current_v self) variable 0 in
  let v1_pos := get_or (_max_v_pos self) variable 1 in
  let v1_neg := get_or (_max_v_neg self) variable 1 in
  let acc := get_or (_max_a_pos self) variable 1 in
  let dcc := get_or (_max_a_neg self) variable 1 in
  let dist := x1 - x in
  if Rgt_dec dist 0 then Ok (Some (dist, v0, v1_pos, acc, dcc))
  else if Rlt_dec dist 0 then Ok (Some (- dist, - v0, v1_neg, dcc, acc))
  else Ok None.

(** [_eta] (lines 111-132): the estimated time of arrival of [variable]
    at [x1]. *)
Definition _eta (self : QActor) (variable : string) (x1 : R) : result R :=
  let! x := getitem (_current_x self) variable in
  let v0 := get_or (_current_v self) variable 0 in
  let v1_pos := get_or (_max_v_pos self) variable 1 in
  let v1_neg := get_or (_max_v_neg self) variable 1 in
  let acc := get_or (_max_a_pos self) variable 1 in
  let dcc := get_or (_max_a_neg self) variable 1 in
  let dist := x1 - x in
  if Rgt_dec dist 0 then _time_to_goal dist v0 v1_pos acc dcc
  else if Rlt_dec dist 0 then _time_to_goal (- dist) (- v0) v1_neg dcc acc
  else Ok 0.

(** ** Action selector *)

(** [math.copysign(1, d)] for a difference [d] of two floats: -1 below zero
    and 1 above.  At a zero difference Python follows the sign bit of the
    zero, which a real number does not have; the model takes the positive
    zero that [x - x] gives.  The selection does not depend on this choice,
    which is why the selector below is written for any sign function. *)
Definition copysign_1 (d : R) : R := if Rlt_dec d 0 then -1 else 1.

(** A [for] loop over a list with an accumulator, left at the first
    exception. *)
Fixpoint for_each {A S : Type} (items : list A) (body : S -> A -> result S)
    (s : S) : result S :=
  match items with
  | [] => Ok s
  | item :: rest => let! s' := body s item in for_each rest body s'
  end.

(** Lines 98-100. *)
Definition action_rank (a : action) : Z :=
  fold_left (fun rank item => (rank + (if Z.eq_dec (Z.abs (snd item)) 1 then 1 else 0))%Z)
            a 0%Z.

(** A vote, as stored at line 103. *)
Definition vote : Type := action * R * Z.

Definition vote_key (x : vote) : R * Z := (snd (fst x), snd x).

(** Python's order on the tuples [(float, int)]. *)
Definition key_lt (k1 k2 : R * Z) : Prop :=
  fst k1 < fst k2 \/ (fst k1 = fst k2 /\ (snd k1 < snd k2)%Z).

Definition key_le (k1 k2 : R * Z) : Prop := key_lt k1 k2 \/ k1 = k2.

Definition key_ltb (k1 k2 : R * Z) : bool :=
  if Rlt_dec (fst k1) (fst k2) then true
  else if Req_dec_T (fst k1) (fst k2) then bool_decide (snd k1 < snd k2)%Z
  else false.

(** [sorted(votes, key=..., reverse=True)]: the stable sort by descending
    key.  An element goes behind the ones with a strictly greater key and in
    front of the later ones with an equal key.  (Real votes are totally
    ordered; the sort with a NaN vote is in [Binary64.sorted_reverse].) *)
Fixpoint insert_reverse (x : vote) (l : list vote) : list vote :=
  match l with
  | [] => [x]
  | y :: l' =>
    if key_ltb (vote_key x) (vote_key y) then y :: insert_reverse x l' else x :: l
  end.

Fixpoint sorted_reverse (l : list vote) : list vote :=
  match l with
  | [] => []
  | x :: l' => insert_reverse x (sorted_reverse l')
  end.

Section Selector.
(** The sign given to [target_value - current_value]; the code uses
    [math.copysign(1, _)]. *)
Variable direction : R -> R.

(** Lines 88-95: one target variable votes. *)
Definition vote_step (self : QActor) (action_effect : gmap string Z)
    (action_vote : R) (item : string * R) : result R :=
  let variable := fst item in
  let! current_value := getitem (_current_x self) variable in
  let target_value := snd item in
  let desired_direction := direction (target_value - current_value) in
  let! e := getitem action_effect variable in
  let action_direction := if Z_le_dec (Z.abs e) 1 then e else 0%Z in
  let! eta := _eta self variable target_value in
  Ok (action_vote + (desired_direction * IZR action_direction) * eta).

(** Lines 86-95. *)
Definition action_vote (self : QActor) (action_effect : gmap string Z)
    (target : list (string * R)) : result R :=
  for_each target (vote_step self action_effect) 0.

(** Lines 83-103: the body of the loop over the actions. *)
Definition evaluate (self : QActor) (target : list (string * R))
    (votes : list vote) (a : action) : result (list vote) :=
  let action_effect := effect (_model self) a (_current_x self) in
  let! v := action_vote self action_effect target in
  let rank := action_rank a in
  Ok (votes ++ [(a, v, rank)]).

(** Lines 79-103. *)
Definition collect_votes (self : QActor) (target : list (string * R))
  : result (list vote) :=
  for_each (actions (_model self) (_current_x self)) (evaluate self target) [].

Definition act_with (self : QActor) (target : list (string * R)) : result action :=
  let! votes := collect_votes self target in
  match sorted_reverse votes with
  | [] => Raise IndexError
  | x :: _ => Ok (fst (fst x))
  end.
End Selector.

(** [act]: decide which qualitative action to take to reach [target]. *)
Definition act (self : QActor) (target : list (string * R)) : result action :=
  act_with copysign_1 self target.


(** ** Histories of an actor *)

(** A call of one of the three state-changing methods. *)
Inductive call : Type :=
| Reset
| Restart
| Observe (numerical_state : list (string * R)) (dt : R).

(** The actor after a call; an exception raised by [observe] leaves the
    mutations made before it. *)
Definition run_call (self : QActor) (c : call) : QActor :=
  match c with
  | Reset => reset self
  | Restart => restart self
  | Observe numerical_state dt => fst (observe self numerical_state dt)
  end.

Definition run (self : QActor) (calls : list call) : QActor :=
  fold_left run_call calls self.


(** The states of an actor: the constructed one and those calls lead to. *)
Definition reachable (self : QActor) : Prop :=
  exists (model : QModel) (calls : list call), self = run (__init__ model) calls.

(** ** Invariants of the estimator *)



(** The stored values of [m] are magnitudes of non-zero samples. *)
Definition magnitudes (m : gmap string R) : Prop :=
  forall (variable : string) (value : R), m !! variable = Some value -> 0 < value.


(** The last velocity is within the learned extremum of its sign. *)
Definition velocity_bounded (self : QActor) : Prop :=
  forall (variable : string) (v : R),
    _current_v self !! variable = Some v ->
    (v > 0 -> exists m : R, _max_v_pos self !! variable = Some m /\ v <= m) /\
    (v < 0 -> exists m : R, _max_v_neg self !! variable = Some m /\ Rabs v <= m).



(** The key under which [act] sorts the tuple of an action (lines 83-106). *)
Definition candidate_key (self : QActor) (target : list (string * R)) (a : action)
  : result (R * Z) :=
  let! v := action_vote copysign_1 self
              (effect (_model self) a (_current_x self)) target in
  Ok (v, action_rank a).

(** [x] is the first element of [l] with the greatest key. *)
Definition first_greatest (l : list vote) (i : nat) (x : vote) : Prop :=
  l !! i = Some x /\
  (forall (j : nat) (y : vote), l !! j = Some y -> key_le (vote_key y) (vote_key x)) /\
  (forall (j : nat) (y : vote),
      (j < i)%nat -> l !! j = Some y -> key_lt (vote_key y) (vote_key x)).

(** A function applied along a list, left at the first exception. *)
Fixpoint collect {A B : Type} (f : A -> result B) (l : list A) : result (list B) :=
  match l with
  | [] => Ok []
  | a :: l' => let! b := f a in let! bs := collect f l' in Ok (b :: bs)
  end.

(** ** The vote and the rank in the words of the specification *)

(** The sign of a distance; exactly at the target it is 0. *)
Definition sign (d : R) : R :=
  if Rgt_dec d 0 then 1 else if Rlt_dec d 0 then -1 else 0.

(** The effect [e] as a direction: [e] if [|e| <= 1], else 0. *)
Definition abstaining (e : Z) : Z := if Z_le_dec (Z.abs e) 1 then e else 0%Z.




(** The term one target variable adds to the vote (lines 88-95), for a sign
    function [direction]. *)
Definition vote_term (direction : R -> R) (self : QActor) (E : gmap string Z)
    (item : string * R) : result R :=
  let! current_value := getitem (_current_x self) (fst item) in
  let! e := getitem E (fst item) in
  let! eta := _eta self (fst item) (snd item) in
  Ok ((direction (snd item - current_value) * IZR (abstaining e)) * eta).

(** ** The cart of [example_cart.py] *)

(** Three actions on the force [F]; the effect on [x] and [v] is the
    direction of [F] (every action of the model has the key [F]). *)
Definition CartModel : QModel :=
  mkQModel
    (fun _ => [[("F"%string, (-1)%Z)]; [("F"%string, 0%Z)]; [("F"%string, 1%Z)]])
    (fun qualitative_action _ =>
       match (list_to_map qualitative_action : gmap string Z) !! "F"%string with
       | Some f => {[ "x"%string := f; "v"%string := f ]}
       | None => ∅
       end).

(** The actor of the example after the first observation of an episode. *)
Definition cart_start : QActor :=
  run (__init__ CartModel) [Observe [("x"%string, -10); ("v"%string, 0)] (1 / 100)].

(** An actor on the cart whose seven entries for [x] are all different. *)
Definition cart_learned : QActor :=
  mkQActor CartModel
    {[ "x"%string := 2 ]} {[ "x"%string := -1 ]} {[ "x"%string := -4 ]}
    {[ "x"%string := 2 ]} {[ "x"%string := 5 ]}
    {[ "x"%string := 7 ]} {[ "x"%string := 3 ]}.

(** The same actor one step later, the cart having moved by 1/100. *)
Definition cart_moving : QActor :=
  run cart_start [Observe [("x"%string, -10 + 1 / 100); ("v"%string, 1)] (1 / 100)].

(** ** Further notions on the estimator *)

(** The variables an observation lists. *)
Definition listed (numerical_state : list (string * R)) : list string :=
  map fst numerical_state.

(** Position recorded before velocity, velocity before acceleration. *)
Definition samples_nested (self : QActor) : Prop :=
  forall variable : string,
    (is_Some (_current_v self !! variable) -> is_Some (_current_x self !! variable)) /\
    (is_Some (_current_a self !! variable) -> is_Some (_current_v self !! variable)).

(** The actor seen in a mirror: positions, velocities and accelerations
    change sign, and the extrema of the two signs change places. *)
Definition mirror (self : QActor) : QActor :=
  mkQActor (_model self)
    (Ropp <$> _current_x self) (Ropp <$> _current_v self) (Ropp <$> _current_a self)
    (_max_v_neg self) (_max_v_pos self) (_max_a_neg self) (_max_a_pos self).


(** Two actors hold the same seven entries for [variable]. *)
Definition same_at (variable : string) (s1 s2 : QActor) : Prop :=
  _current_x s1 !! variable = _current_x s2 !! variable /\
  _current_v s1 !! variable = _current_v s2 !! variable /\
  _current_a s1 !! variable = _current_a s2 !! variable /\
  _max_v_pos s1 !! variable = _max_v_pos s2 !! variable /\
  _max_v_neg s1 !! variable = _max_v_neg s2 !! variable /\
  _max_a_pos s1 !! variable = _max_a_pos s2 !! variable /\
  _max_a_neg s1 !! variable = _max_a_neg s2 !! variable.

(** The extremum after a sample [v]: the larger of the stored magnitude and
    the magnitude of [v]. *)
Definition running_max (old : option R) (v : R) : option R :=
  Some (match old with
        | Some m => Rmax m (Rabs v)
        | None => Rabs v
        end).

(** ** [example_lander.py] *)

(** Lines 34-45: [ax = M-,+(m1, m3)]; -2 is the non-deterministic effect. *)
Definition resolve_ax (m1 m3 : Z) : Z :=
  (if (m1 =? 0) && (m3 =? 0) then 0
   else if m1 =? 0 then m3
   else if m3 =? 0 then - m1
   else if (m1 <? 0) && (m3 >? 0) then 1
   else if (m1 >? 0) && (m3 <? 0) then -1
   else -2)%Z.

(** Lines 48-59: [ar = M+,-(m1, m3)]. *)
Definition resolve_ar (m1 m3 : Z) : Z :=
  (if (m1 =? 0) && (m3 =? 0) then 0
   else if m1 =? 0 then - m3
   else if m3 =? 0 then m1
   else if (m1 <? 0) && (m3 >? 0) then -1
   else if (m1 >? 0) && (m3 <? 0) then 1
   else -2)%Z.

(** [LanderModel.effect]: the three entries of the action are read first. *)
Definition LanderModel_effect (qualitative_action : action) : result (gmap string Z) :=
  let d : gmap string Z := list_to_map qualitative_action in
  let! m1 := getitem d "m1"%string in
  let! m2 := getitem d "m2"%string in
  let! m3 := getitem d "m3"%string in
  let ax := resolve_ax m1 m3 in
  let ar := resolve_ar m1 m3 in
  let ay := m2 in
  Ok {[ "x"%string := ax; "vx"%string := ax; "y"%string := ay; "vy"%string := ay;
        "r"%string := ar; "vr"%string := ar ]}.

(** * The program on binary64 floats *)

(** The same functions of [qactor.py] with Python's [float] as the binary64
    numbers of [PrimFloat]: sums, products and quotients round, an overflow
    gives an infinity, [0 * inf] and [inf - inf] give NaN, and a comparison
    with NaN is false.  The exceptions of float arithmetic are those of
    CPython: [/] raises [ZeroDivisionError] on a divisor equal to zero,
    [math.sqrt] raises [ValueError], [**] raises [OverflowError].

    The values the caller supplies (the numerical state, the target, [dt])
    are floats, as the annotations of the methods say.  The [int] literals of
    the code ([0], [1], [2]) meet floats in every operation that uses them
    and are converted there, so they are written as the floats they convert
    to; the one place where an [int] behaves otherwise is the negation of
    the default velocity at line 129, see [_eta]. *)

Module Binary64.

Import Floats.
Local Open Scope float_scope.

(** ** Operations of [float] *)

(** [x / y] ([float_div]): a divisor equal to zero, of either sign, raises. *)
Definition truediv (x y : float) : result float :=
  if y =? 0 then Raise ZeroDivisionError else Ok (x / y).

(** [math.sqrt x]: C's [sqrt], which rounds correctly; the wrapper of the
    [math] module raises when the result is a NaN and the argument is not,
    that is for an argument below zero. *)
Definition math_sqrt (x : float) : result float :=
  let r := PrimFloat.sqrt x in
  if is_nan r && negb (is_nan x) then Raise ValueError else Ok r.

(** [math.copysign(1, d)]: 1 with the sign bit of [d].  A NaN has a sign bit
    too, which [float] does not keep; it is taken as clear.  [act] applies
    this to a distance, and at a NaN distance [_eta] is 0: the choice decides
    the sign of a zero term of the vote and nothing else. *)
Definition copysign_1 (d : float) : float :=
  match classify d with
  | NInf | NNormal | NSubn | NZero => -1
  | _ => 1
  end.

(** The conversion of an [int] that meets a float: the nearest float. *)
Definition float_of_int (z : Z) : float :=
  SF2Prim (binary_normalize prec emax z 0 false).

(** ** Qualitative model *)

Record QModel : Type := mkQModel {
  actions : gmap string float -> list action;
  effect : action -> gmap string float -> gmap string Z
}.

(** ** The actor's state *)

Record QActor : Type := mkQActor {
  _model : QModel;
  _current_x : gmap string float;
  _current_v : gmap string float;
  _current_a : gmap string float;
  _max_v_pos : gmap string float;
  _max_v_neg : gmap string float;
  _max_a_pos : gmap string float;
  _max_a_neg : gmap string float
}.

Definition reset (self : QActor) : QActor :=
  mkQActor (_model self) ∅ ∅ ∅ ∅ ∅ ∅ ∅.

Definition __init__ (model : QModel) : QActor :=
  reset (mkQActor model ∅ ∅ ∅ ∅ ∅ ∅ ∅).

Definition restart (self : QActor) : QActor :=
  mkQActor (_model self) ∅ ∅ ∅
    (_max_v_pos self) (_max_v_neg self) (_max_a_pos self) (_max_a_neg self).

(** ** State estimator *)

(** Lines 55-59 and 68-72.  [abs(v) > max_d[variable]] is false when either
    side is NaN: a stored NaN is never replaced. *)
Definition update_max (max_d : gmap string float) (variable : string) (v : float)
  : gmap string float :=
  match max_d !! variable with
  | Some m => if m <? abs v then <[variable := abs v]> max_d else max_d
  | None => <[variable := abs v]> max_d
  end.

Definition set_current_x (self : QActor) (d : gmap string float) : QActor :=
  mkQActor (_model self) d (_current_v self) (_current_a self)
    (_max_v_pos self) (_max_v_neg self) (_max_a_pos self) (_max_a_neg self).

Definition set_current_v (self : QActor) (d : gmap string float) : QActor :=
  mkQActor (_model self) (_current_x self) d (_current_a self)
    (_max_v_pos self) (_max_v_neg self) (_max_a_pos self) (_max_a_neg self).

Definition set_current_a (self : QActor) (d : gmap string float) : QActor :=
  mkQActor (_model self) (_current_x self) (_current_v self) d
    (_max_v_pos self) (_max_v_neg self) (_max_a_pos self) (_max_a_neg self).

Definition set_max_v_pos (self : QActor) (d : gmap string float) : QActor :=
  mkQActor (_model self) (_current_x self) (_current_v self) (_current_a self)
    d (_max_v_neg self) (_max_a_pos self) (_max_a_neg self).

Definition set_max_v_neg (self : QActor) (d : gmap string float) : QActor :=
  mkQActor (_model self) (_current_x self) (_current_v self) (_current_a self)
    (_max_v_pos self) d (_max_a_pos self) (_max_a_neg self).

Definition set_max_a_pos (self : QActor) (d : gmap string float) : QActor :=
  mkQActor (_model self) (_current_x self) (_current_v self) (_current_a self)
    (_max_v_pos self) (_max_v_neg self) d (_max_a_neg self).

Definition set_max_a_neg (self : QActor) (d : gmap string float) : QActor :=
  mkQActor (_model self) (_current_x self) (_current_v self) (_current_a self)
    (_max_v_pos self) (_max_v_neg self) (_max_a_pos self) d.

(** Lines 53-59.  [v != 0] is true of a NaN and [v > 0] is false of it: a
    NaN velocity is filed with the negative ones. *)
Definition learn_velocity (self : QActor) (variable : string) (v : float) : QActor :=
  if v =? 0 then self
  else if 0 <? v
       then set_max_v_pos self (update_max (_max_v_pos self) variable v)
       else set_max_v_neg self (update_max (_max_v_neg self) variable v).

(** Lines 66-72. *)
Definition learn_acceleration (self : QActor) (variable : string) (a : float) : QActor :=
  if a =? 0 then self
  else if 0 <? a
       then set_max_a_pos self (update_max (_max_a_pos self) variable a)
       else set_max_a_neg self (update_max (_max_a_neg self) variable a).

(** Lines 40-42 and 47-49. *)
Definition difference_quotient (d : gmap string float) (variable : string)
    (x dt : float) : result (option float) :=
  match d !! variable with
  | Some x0 => let! q := truediv (x - x0) dt in Ok (Some q)
  | None => Ok None
  end.

(** The body of the loop of [observe]. *)
Definition observe_variable (dt : float) (self : QActor) (variable : string)
    (x : float) : QActor * option exn :=
  match difference_quotient (_current_x self) variable x dt with
  | Raise e => (self, Some e)
  | Ok v =>
    let self := set_current_x self (<[variable := x]> (_current_x self)) in
    match v with
    | None => (self, None)
    | Some v =>
      match difference_quotient (_current_v self) variable v dt with
      | Raise e => (self, Some e)
      | Ok a =>
        let self := set_current_v self (<[variable := v]> (_current_v self)) in
        let self := learn_velocity self variable v in
        match a with
        | None => (self, None)
        | Some a =>
          let self := set_current_a self (<[variable := a]> (_current_a self)) in
          let self := learn_acceleration self variable a in
          (self, None)
        end
      end
    end
  end.

Fixpoint observe (self : QActor) (numerical_state : list (string * float))
    (dt : float) : QActor * option exn :=
  match numerical_state with
  | [] => (self, None)
  | (variable, x) :: rest =>
    match observe_variable dt self variable x with
    | (self', None) => observe self' rest dt
    | (self', Some e) => (self', Some e)
    end
  end.

(** ** ETA calculator *)

Section Libm.
(** C's [pow(x, 2.0)], for a finite [x] above zero other than 1: the library
    function [float_pow] leaves these arguments to. *)
Variable pow_2 : float -> float.

(** [iv ** 2] ([float_pow] with the exponent 2): a NaN is returned as it is,
    an infinity gives [fabs(iv)], a zero gives 0, a negative [iv] is replaced
    by [-iv], 1 gives 1, and the rest is [pow]'s, where an infinite result
    raises [OverflowError]; a result that underflows is returned. *)
Definition float_pow_2 (iv : float) : result float :=
  if is_nan iv then Ok iv
  else if is_infinity iv then Ok (abs iv)
  else if iv =? 0 then Ok 0
  else
    let iv := if iv <? 0 then - iv else iv in
    if iv =? 1 then Ok 1
    else
      let ix := pow_2 iv in
      if is_infinity ix then Raise OverflowError else Ok ix.

(** Line 149. *)
Definition arrive_accelerating (t v0 acc vx : float) : result float :=
  let! t1 := truediv (vx - v0) acc in
  Ok (t + t1).

(** Lines 151-153. *)
Definition arrive_cruising (t dist v0 v1 acc : float) : result float :=
  let! t1 := truediv (v1 - v0) acc in
  let t := t + t1 in
  let! v1_2 := float_pow_2 v1 in
  let! v0_2 := float_pow_2 v0 in
  let! s := truediv (v1_2 - v0_2) (2 * acc) in
  let! t2 := truediv (dist - s) v1 in
  Ok (t + t2).

(** The branch [v0 >= 0] (lines 147-154). *)
Definition toward_goal (dist v0 v1 acc : float) : result float :=
  let t := 0 in
  let! v0_2 := float_pow_2 v0 in
  let! vx := math_sqrt (v0_2 + 2 * acc * dist) in
  if vx <=? v1 then arrive_accelerating t v0 acc vx
  else arrive_cruising t dist v0 v1 acc.

(** 1 when [v0 >= 0] is false, which it also is of a NaN. *)
Definition away (v0 : float) : nat := if 0 <=? v0 then 0%nat else 1%nat.

(** [_time_to_goal] (lines 134-161). *)
Equations _time_to_goal (dist v0 v1 acc dcc : float) : result float
  by wf (away v0) lt :=
_time_to_goal dist v0 v1 acc dcc with bool_dec (0 <=? v0) true := {
  | left _ => toward_goal dist v0 v1 acc
  | right Hneg =>
      let t := 0 in
      let! v0_2 := float_pow_2 v0 in
      let! s := truediv v0_2 (2 * acc) in
      let! t1 := truediv (- v0) acc in
      let t := t + t1 in
      let! t2 := _time_to_goal (dist + s) 0 v1 acc dcc in
      Ok (t + t2) }.
Next Obligation.
  intros. unfold away. destruct (0 <=? v0); [contradiction|]. cbn. lia.
Qed.

(** The same body with a bound on the number of nested activations. *)
Fixpoint _time_to_goal_depth (depth : nat) (dist v0 v1 acc dcc : float)
  : option (result float) :=
  match depth with
  | O => None
  | S depth' =>
    if 0 <=? v0 then Some (toward_goal dist v0 v1 acc)
    else
      let t := 0 in
      match float_pow_2 v0 with
      | Raise e => Some (Raise e)
      | Ok v0_2 =>
        match truediv v0_2 (2 * acc) with
        | Raise e => Some (Raise e)
        | Ok s =>
          match truediv (- v0) acc with
          | Raise e => Some (Raise e)
          | Ok t1 =>
            let t := t + t1 in
            match _time_to_goal_depth depth' (dist + s) 0 v1 acc dcc with
            | None => None
            | Some (Raise e) => Some (Raise e)
            | Some (Ok t2) => Some (Ok (t + t2))
            end
          end
        end
      end
  end.

(** [-v0] at line 129: the negation of a recorded velocity, a float; the
    default [0] of line 114 is an [int], whose negation is the [int] 0 and
    not the float [-0.0]. *)
Definition negated_velocity (self : QActor) (variable : string) : float :=
  match _current_v self !! variable with
  | Some v0 => - v0
  | None => 0
  end.

(** The arguments [_eta] hands to [_time_to_goal], or [None] when it returns
    0 without calling it. *)
Definition _eta_call (self : QActor) (variable : string) (x1 : float)
  : result (option (float * float * float * float * float)) :=
  let! x := getitem (_current_x self) variable in
  let v0 := get_or (_current_v self) variable 0 in
  let v1_pos := get_or (_max_v_pos self) variable 1 in
  let v1_neg := get_or (_max_v_neg self) variable 1 in
  let acc := get_or (_max_a_pos self) variable 1 in
  let dcc := get_or (_max_a_neg self) variable 1 in
  let dist := x1 - x in
  if 0 <? dist then Ok (Some (dist, v0, v1_pos, acc, dcc))
  else if dist <? 0
       then Ok (Some (- dist, negated_velocity self variable, v1_neg, dcc, acc))
       else Ok None.

(** [_eta] (lines 111-132).  A NaN distance is neither above nor below
    zero: the result is 0. *)
Definition _eta (self : QActor) (variable : string) (x1 : float) : result float :=
  let! x := getitem (_current_x self) variable in
  let v0 := get_or (_current_v self) variable 0 in
  let v1_pos := get_or (_max_v_pos self) variable 1 in
  let v1_neg := get_or (_max_v_neg self) variable 1 in
  let acc := get_or (_max_a_pos self) variable 1 in
  let dcc := get_or (_max_a_neg self) variable 1 in
  let dist := x1 - x in
  if 0 <? dist then _time_to_goal dist v0 v1_pos acc dcc
  else if dist <? 0
       then _time_to_goal (- dist) (negated_velocity self variable) v1_neg dcc acc
       else Ok 0.

(** ** Action selector *)

(** A vote, as stored at line 103. *)
Definition vote : Type := action * float * Z.

Definition vote_key (x : vote) : float * Z := (snd (fst x), snd x).

(** [k1 < k2] on the tuples [(float, int)]: Python looks for the first
    position where the two differ by [==] and compares there. *)
Definition key_ltb (k1 k2 : float * Z) : bool :=
  if fst k1 =? fst k2 then (snd k1 <? snd k2)%Z else fst k1 <? fst k2.

(** [sorted(votes, key=..., reverse=True)] as the stable sort by descending
    key, by insertion.  When [key_ltb] orders the keys, which it does when
    no vote is NaN, this is the result of every stable sort
    ([sorted_reverse_is_the_stable_sort]).  With a NaN
    vote every comparison with it is false, and the result of Python's sort
    is what the comparisons the algorithm happens to make leave.  One case is
    the same for every list: Python reverses the list, looks for the longest
    run from the start in which no element is below the one before it, and
    when the run is the whole list reverses it back and is done; so a list
    with [votes[i] < votes[i+1]] false throughout is returned as it is, and
    so it is here ([sorted_reverse_in_order]).  The properties below use this
    function on such lists and on lists without a NaN vote only, or through
    the fact that the result has the elements of the argument. *)
Fixpoint insert_reverse (x : vote) (l : list vote) : list vote :=
  match l with
  | [] => [x]
  | y :: l' =>
    if key_ltb (vote_key x) (vote_key y) then y :: insert_reverse x l' else x :: l
  end.

Fixpoint sorted_reverse (l : list vote) : list vote :=
  match l with
  | [] => []
  | x :: l' => insert_reverse x (sorted_reverse l')
  end.

(** Lines 88-95. *)
Definition vote_step (self : QActor) (action_effect : gmap string Z)
    (action_vote : float) (item : string * float) : result float :=
  let variable := fst item in
  let! current_value := getitem (_current_x self) variable in
  let target_value := snd item in
  let desired_direction := copysign_1 (target_value - current_value) in
  let! e := getitem action_effect variable in
  let action_direction := if Z_le_dec (Z.abs e) 1 then e else 0%Z in
  let! eta := _eta self variable target_value in
  Ok (action_vote + (desired_direction * float_of_int action_direction) * eta).

(** Lines 86-95. *)
Definition action_vote (self : QActor) (action_effect : gmap string Z)
    (target : list (string * float)) : result float :=
  for_each target (vote_step self action_effect) 0.

(** Lines 83-103. *)
Definition evaluate (self : QActor) (target : list (string * float))
    (votes : list vote) (a : action) : result (list vote) :=
  let action_effect := effect (_model self) a (_current_x self) in
  let! v := action_vote self action_effect target in
  let rank := action_rank a in
  Ok (votes ++ [(a, v, rank)]).

(** Lines 79-103. *)
Definition collect_votes (self : QActor) (target : list (string * float))
  : result (list vote) :=
  for_each (actions (_model self) (_current_x self)) (evaluate self target) [].

(** [act] (lines 77-109). *)
Definition act (self : QActor) (target : list (string * float)) : result action :=
  let! votes := collect_votes self target in
  match sorted_reverse votes with
  | [] => Raise IndexError
  | x :: _ => Ok (fst (fst x))
  end.

(** The key under which [act] sorts the tuple of an action. *)
Definition candidate_key (self : QActor) (target : list (string * float))
    (a : action) : result (float * Z) :=
  let! v := action_vote self (effect (_model self) a (_current_x self)) target in
  Ok (v, action_rank a).

End Libm.

(** The exceptions of float arithmetic. *)
Definition arithmetic (e : exn) : Prop :=
  e = ZeroDivisionError \/ e = ValueError \/ e = OverflowError.

(** Python's order on the keys, as propositions. *)
Definition key_lt (k1 k2 : float * Z) : Prop :=
  (fst k1 <? fst k2) = true \/ ((fst k1 =? fst k2) = true /\ (snd k1 < snd k2)%Z).

Definition key_eq (k1 k2 : float * Z) : Prop :=
  (fst k1 =? fst k2) = true /\ snd k1 = snd k2.

Definition key_le (k1 k2 : float * Z) : Prop := key_lt k1 k2 \/ key_eq k1 k2.

(** [k1 == k2] on the keys. *)
Definition key_eqb (k1 k2 : float * Z) : bool :=
  (fst k1 =? fst k2) && (snd k1 =? snd k2)%Z.

(** The tuples of [l] whose key equals [k], in the order of [l]. *)
Definition same_key (k : float * Z) (l : list vote) : list vote :=
  filter (fun y => key_eqb (vote_key y) k = true) l.

(** No element is below a later one. *)
Inductive descending : list vote -> Prop :=
| descending_nil : descending []
| descending_cons (x : vote) (l : list vote) :
    Forall (fun y => key_ltb (vote_key x) (vote_key y) = false) l ->
    descending l -> descending (x :: l).

(** What the documentation of [sorted] promises of
    [sorted(l, key=..., reverse=True)]: the elements of [l], in descending
    order of the key, the elements of one key in the order they have in
    [l]. *)
Definition stable_descending_sort (l l' : list vote) : Prop :=
  Permutation l l' /\
  descending l' /\
  forall k : float * Z, same_key k l' = same_key k l.

(** [x] is the first element of [l] with the greatest key. *)
Definition first_greatest (l : list vote) (i : nat) (x : vote) : Prop :=
  l !! i = Some x /\
  (forall (j : nat) (y : vote), l !! j = Some y -> key_le (vote_key y) (vote_key x)) /\
  (forall (j : nat) (y : vote),
      (j < i)%nat -> l !! j = Some y -> key_lt (vote_key y) (vote_key x)).

(** ** Histories of an actor *)

Inductive call : Type :=
| Reset
| Restart
| Observe (numerical_state : list (string * float)) (dt : float).

Definition run_call (self : QActor) (c : call) : QActor :=
  match c with
  | Reset => reset self
  | Restart => restart self
  | Observe numerical_state dt => fst (observe self numerical_state dt)
  end.

Definition run (self : QActor) (calls : list call) : QActor :=
  fold_left run_call calls self.

Definition not_reset (c : call) : Prop :=
  match c with
  | Reset => False
  | _ => True
  end.

(** ** Invariants of the estimator *)

(** The stored values are above zero. *)
Definition magnitudes (m : gmap string float) : Prop :=
  forall (variable : string) (value : float),
    m !! variable = Some value -> (0 <? value) = true.

(** The stored values are above zero or NaN. *)
Definition magnitudes_or_nan (m : gmap string float) : Prop :=
  forall (variable : string) (value : float),
    m !! variable = Some value -> (0 <? value) = true \/ is_nan value = true.

(** The last velocity is within the learned extremum of its sign, unless
    that extremum is NaN. *)
Definition velocity_bounded (self : QActor) : Prop :=
  forall (variable : string) (v : float),
    _current_v self !! variable = Some v ->
    ((0 <? v) = true ->
     exists m : float, _max_v_pos self !! variable = Some m /\ (v <=? m) = true) /\
    ((v <? 0) = true ->
     exists m : float, _max_v_neg self !! variable = Some m /\
                       ((abs v <=? m) = true \/ is_nan m = true)).

Definition estimator_invariant (self : QActor) : Prop :=
  magnitudes (_max_v_pos self) /\
  magnitudes (_max_a_pos self) /\
  magnitudes_or_nan (_max_v_neg self) /\
  magnitudes_or_nan (_max_a_neg self) /\
  velocity_bounded self.

(** ** The order of floats through integers *)

(** A float that is not NaN as a triple of integers whose lexicographic
    order is the order of the floats: the class (infinities outside, zeros
    in the middle), then the exponent and the mantissa, negated below zero. *)
Definition sf_rank (x : spec_float) : option (Z * Z * Z) :=
  match x with
  | S754_nan => None
  | S754_zero _ => Some (0, 0, 0)%Z
  | S754_infinity s => Some (if s then (-2, 0, 0) else (2, 0, 0))%Z
  | S754_finite s m e => Some (if s then (-1, - e, Zneg m) else (1, e, Zpos m))%Z
  end.

Definition rank (x : float) : option (Z * Z * Z) := sf_rank (Prim2SF x).

Definition lex_compare (a b : Z * Z * Z) : comparison :=
  match (fst (fst a) ?= fst (fst b))%Z with
  | Eq => match (snd (fst a) ?= snd (fst b))%Z with
          | Eq => (snd a ?= snd b)%Z
          | c => c
          end
  | c => c
  end.

(** ** The cart of [example_cart.py] *)

Definition CartModel : QModel :=
  mkQModel
    (fun _ => [[("F"%string, (-1)%Z)]; [("F"%string, 0%Z)]; [("F"%string, 1%Z)]])
    (fun qualitative_action _ =>
       match (list_to_map qualitative_action : gmap string Z) !! "F"%string with
       | Some f => {[ "x"%string := f; "v"%string := f ]}
       | None => ∅
       end).

(** The actor of the example after the first observation of an episode. *)
Definition cart_start : QActor :=
  run (__init__ CartModel) [Observe [("x"%string, -10); ("v"%string, 0)] 1].

(** A [pow] that rounds the square correctly; the examples, where the
    library function has to be one function, are evaluated with it. *)
Definition rounded_square (x : float) : float := x * x.

End Binary64.
(** * Properties *)

(** ** The error monad *)

Lemma bind_Ok {A B : Type} (m : result A) (k : A -> result B) (b : B) :
  bind m k = Ok b <-> exists a, m = Ok a /\ k a = Ok b.
Proof.
  destruct m as [a|e]; simpl; split.
  - intros H. exists a. split; [reflexivity | exact H].
  - intros [a' [Ha Hk]]. injection Ha as ->. exact Hk.
  - discriminate.
  - intros [a' [Ha _]]. discriminate.
Qed.

Lemma truediv_Ok (x y : R) : y <> 0 -> truediv x y = Ok (x / y).
Proof.
  intros Hy. unfold truediv. destruct (Req_dec_T y 0); [contradiction | reflexivity].
Qed.

Lemma truediv_zero (x : R) : truediv x 0 = Raise ZeroDivisionError.
Proof.
  unfold truediv. destruct (Req_dec_T 0 0) as [_|H]; [reflexivity | contradiction].
Qed.

Lemma math_sqrt_Ok (x : R) : 0 <= x -> math_sqrt x = Ok (sqrt x).
Proof.
  intros Hx. unfold math_sqrt. destruct (Rlt_dec x 0); [lra | reflexivity].
Qed.

(** ** The one-directional solver *)

Lemma _time_to_goal_toward (dist v0 v1 acc dcc : R) :
  v0 >= 0 -> _time_to_goal dist v0 v1 acc dcc = toward_goal dist v0 v1 acc.
Proof.
  intros Hv. rewrite _time_to_goal_equation_1.
  unfold _time_to_goal_unfold_clause_1.
  destruct (Rge_dec v0 0); [reflexivity | contradiction].
Qed.

(** ** The ETA calculator *)

Lemma _eta_by_call (self : QActor) (variable : string) (x1 : R) :
  _eta self variable x1 =
  let! call := _eta_call self variable x1 in
  match call with
  | Some (dist, v0, v1, acc, dcc) => _time_to_goal dist v0 v1 acc dcc
  | None => Ok 0
  end.
Proof.
  unfold _eta, _eta_call.
  destruct (getitem (_current_x self) variable) as [x|e]; [|reflexivity].
  simpl. destruct (Rgt_dec (x1 - x) 0); [reflexivity|].
  destruct (Rlt_dec (x1 - x) 0); reflexivity.
Qed.

Lemma getitem_Some {V : Type} (d : gmap string V) (key : string) (v : V) :
  d !! key = Some v -> getitem d key = Ok v.
Proof. intros H. unfold getitem. rewrite H. reflexivity. Qed.

Lemma _eta_at_target (self : QActor) (variable : string) (x : R) :
  _current_x self !! variable = Some x -> _eta self variable x = Ok 0.
Proof.
  intros Hx. unfold _eta. rewrite (getitem_Some _ _ _ Hx). simpl.
  destruct (Rgt_dec (x - x) 0); [lra|].
  destruct (Rlt_dec (x - x) 0); [lra|]. reflexivity.
Qed.

(** C6.  With the last position [x] of [variable] recorded, [_eta] is 0 at
    [x], and for a target below [x] it is [_time_to_goal] on the mirrored
    problem: the distance negated, the recorded velocity negated (0 when none
    is recorded), the learned maximum negative velocity as cruise speed, and
    the learned maximum negative acceleration as acceleration with the
    learned maximum positive one as deceleration (each 1 when not learned).
    The entries are stated as the lookups in the actor's dictionaries; the
    learned maximum positive velocity is not read. *)
Theorem eta_zero_and_mirrored (self : QActor) (variable : string) (x : R) :
  _current_x self !! variable = Some x ->
  _eta self variable x = Ok 0 /\
  (forall x1 : R, x1 < x ->
     _eta self variable x1 =
     _time_to_goal (- (x1 - x))
                   (- default 0 (_current_v self !! variable))
                   (default 1 (_max_v_neg self !! variable))
                   (default 1 (_max_a_neg self !! variable))
                   (default 1 (_max_a_pos self !! variable))) /\
  (forall x1 v0 v1_neg dcc acc : R, x1 < x ->
     _current_v self !! variable = Some v0 ->
     _max_v_neg self !! variable = Some v1_neg ->
     _max_a_neg self !! variable = Some dcc ->
     _max_a_pos self !! variable = Some acc ->
     _eta self variable x1 = _time_to_goal (- (x1 - x)) (- v0) v1_neg dcc acc).
Proof.
  intros Hx. split; [apply _eta_at_target; exact Hx|].
  assert (Hmirror : forall x1 : R, x1 < x ->
            _eta self variable x1 =
            _time_to_goal (- (x1 - x))
                          (- default 0 (_current_v self !! variable))
                          (default 1 (_max_v_neg self !! variable))
                          (default 1 (_max_a_neg self !! variable))
                          (default 1 (_max_a_pos self !! variable))).
  { intros x1 Hlt. unfold _eta, get_or. rewrite (getitem_Some _ _ _ Hx). cbn [bind].
    destruct (Rgt_dec (x1 - x) 0); [lra|].
    destruct (Rlt_dec (x1 - x) 0); [|lra].
    destruct (_current_v self !! variable), (_max_v_neg self !! variable),
      (_max_a_neg self !! variable), (_max_a_pos self !! variable); reflexivity. }
  split; [exact Hmirror|].
  intros x1 v0 v1_neg dcc acc Hlt Hv Hvn Han Hap.
  rewrite (Hmirror x1 Hlt), Hv, Hvn, Han, Hap. reflexivity.
Qed.

(** ** The scenario of a first velocity sample *)

Lemma sqrt_gt_1 (x : R) : 1 < x -> 1 < sqrt x.
Proof. intros Hx. rewrite <- sqrt_1 at 1. apply sqrt_lt_1; lra. Qed.

Lemma time_to_goal_unit : forall dcc : R, _time_to_goal 1 1 1 1 dcc = Ok 1.
Proof.
  intros dcc. rewrite _time_to_goal_toward by lra.
  unfold toward_goal. rewrite math_sqrt_Ok by lra. cbn [bind].
  destruct (Rle_dec (sqrt (1 ^ 2 + 2 * 1 * 1)) 1) as [Hle|_].
  - pose proof (sqrt_gt_1 (1 ^ 2 + 2 * 1 * 1) ltac:(lra)). lra.
  - unfold arrive_cruising.
    rewrite !truediv_Ok by lra. cbn [bind].
    rewrite truediv_Ok by lra. cbn [bind]. f_equal. field.
Qed.

Ltac actor_simpl :=
  cbn [set_current_x set_current_v set_current_a set_max_v_pos set_max_v_neg
       set_max_a_pos set_max_a_neg reset restart __init__ _model
       _current_x _current_v _current_a
       _max_v_pos _max_v_neg _max_a_pos _max_a_neg] in *.

Lemma observe_first_sample (self : QActor) (variable : string) (x dt : R) :
  _current_x self !! variable = None ->
  observe self [(variable, x)] dt =
  (set_current_x self (<[variable := x]> (_current_x self)), None).
Proof.
  intros Hx. unfold observe, observe_variable, difference_quotient.
  rewrite Hx. reflexivity.
Qed.

Lemma observe_second_sample (self : QActor) (variable : string) (x0 x dt : R) :
  _current_x self !! variable = Some x0 ->
  _current_v self !! variable = None ->
  dt <> 0 ->
  observe self [(variable, x)] dt =
  (learn_velocity
     (set_current_v (set_current_x self (<[variable := x]> (_current_x self)))
                    (<[variable := (x - x0) / dt]> (_current_v self)))
     variable ((x - x0) / dt),
   None).
Proof.
  intros Hx Hv Hdt. unfold observe, observe_variable, difference_quotient.
  rewrite Hx, (truediv_Ok _ _ Hdt). cbn [bind].
  cbn [set_current_x _current_v]. rewrite Hv. reflexivity.
Qed.

(** C3.  A fresh actor sees ['x'] at 0 and then [observe({'x': 1.0}, dt=1.0)]:
    the inferred velocity is 1, [_eta('x', 2.0)] calls the solver with
    distance 1, speed 1 and unit extrema, the speed at the goal exceeds the
    cruise speed 1, and the result is exactly 1. *)
Theorem eta_after_first_velocity_sample (model : QModel) (dt0 : R) :
  let a0 := __init__ model in
  let a1 := fst (observe a0 [("x"%string, 0)] dt0) in
  let a2 := fst (observe a1 [("x"%string, 1)] 1) in
  snd (observe a0 [("x"%string, 0)] dt0) = None /\
  snd (observe a1 [("x"%string, 1)] 1) = None /\
  _current_v a2 !! "x"%string = Some 1 /\
  _eta_call a2 "x" 2 = Ok (Some (1, 1, 1, 1, 1)) /\
  (exists vx : R, math_sqrt (1 ^ 2 + 2 * 1 * 1) = Ok vx /\ vx > 1) /\
  arrive_cruising 0 1 1 1 1 = Ok ((1 - 1) / 1 + (1 - (1 - 1) / 2) / 1) /\
  _eta a2 "x" 2 = Ok 1.
Proof.
  intros a0 a1 a2.
  assert (H1 : observe a0 [("x"%string, 0)] dt0 =
               (set_current_x a0 {["x"%string := 0]}, None)).
  { apply observe_first_sample. apply lookup_empty. }
  assert (Ha1 : a1 = set_current_x a0 {["x"%string := 0]}).
  { unfold a1. rewrite H1. reflexivity. }
  assert (H2 : observe a1 [("x"%string, 1)] 1 =
               (mkQActor model {["x"%string := 1]} {["x"%string := 1]} ∅
                         {["x"%string := 1]} ∅ ∅ ∅, None)).
  { rewrite (observe_second_sample a1 "x" 0 1 1).
    - rewrite Ha1. unfold a0.
      replace ((1 - 0) / 1) with 1 by field.
      unfold learn_velocity.
      destruct (Req_dec_T 1 0) as [H|_]; [lra|].
      destruct (Rgt_dec 1 0) as [_|H]; [|lra].
      unfold update_max. actor_simpl.
      rewrite lookup_empty, Rabs_R1, insert_empty.
      rewrite insert_singleton_eq. reflexivity.
    - rewrite Ha1. apply lookup_singleton_eq.
    - rewrite Ha1. apply lookup_empty.
    - lra. }
  assert (Ha2 : a2 = mkQActor model {["x"%string := 1]} {["x"%string := 1]} ∅
                              {["x"%string := 1]} ∅ ∅ ∅).
  { unfold a2. rewrite H2. reflexivity. }
  assert (Hcall : _eta_call a2 "x" 2 = Ok (Some (1, 1, 1, 1, 1))).
  { rewrite Ha2. unfold _eta_call, getitem, get_or. actor_simpl.
    rewrite lookup_singleton_eq, lookup_empty. cbn [bind].
    destruct (Rgt_dec (2 - 1) 0) as [_|H]; [|lra].
    replace (2 - 1) with 1 by lra. reflexivity. }
  split; [rewrite H1; reflexivity|].
  split; [rewrite H2; reflexivity|].
  split; [rewrite Ha2; apply lookup_singleton_eq|].
  split; [exact Hcall|].
  split.
  { exists (sqrt (1 ^ 2 + 2 * 1 * 1)). split; [apply math_sqrt_Ok; lra|].
    apply sqrt_gt_1. lra. }
  split.
  { unfold arrive_cruising. rewrite !truediv_Ok by lra. cbn [bind].
    rewrite truediv_Ok by lra. cbn [bind]. f_equal. field. }
  rewrite _eta_by_call, Hcall. cbn [bind]. apply time_to_goal_unit.
Qed.

(** ** Continuity at the cruise-speed threshold *)

Lemma arrive_accelerating_Ok (t v0 acc vx : R) :
  acc <> 0 -> arrive_accelerating t v0 acc vx = Ok (t + (vx - v0) / acc).
Proof.
  intros Hacc. unfold arrive_accelerating. rewrite truediv_Ok by exact Hacc.
  reflexivity.
Qed.

Lemma arrive_cruising_Ok (t dist v0 v1 acc : R) :
  acc <> 0 -> v1 <> 0 ->
  arrive_cruising t dist v0 v1 acc =
  Ok (t + (v1 - v0) / acc + (dist - (v1 ^ 2 - v0 ^ 2) / (2 * acc)) / v1).
Proof.
  intros Hacc Hv1. unfold arrive_cruising.
  rewrite (truediv_Ok (v1 - v0)) by exact Hacc. cbn [bind].
  rewrite (truediv_Ok (v1 ^ 2 - v0 ^ 2)) by lra. cbn [bind].
  rewrite truediv_Ok by exact Hv1. reflexivity.
Qed.

(** What the branch [v0 >= 0] returns when nothing can raise. *)
Lemma toward_goal_Ok (dist v0 v1 acc : R) :
  acc > 0 -> v1 > 0 -> dist >= 0 ->
  toward_goal dist v0 v1 acc =
  Ok (if Rle_dec (sqrt (v0 ^ 2 + 2 * acc * dist)) v1
      then 0 + (sqrt (v0 ^ 2 + 2 * acc * dist) - v0) / acc
      else 0 + (v1 - v0) / acc + (dist - (v1 ^ 2 - v0 ^ 2) / (2 * acc)) / v1).
Proof.
  intros Hacc Hv1 Hdist. unfold toward_goal.
  rewrite math_sqrt_Ok by nra. cbn [bind].
  destruct (Rle_dec (sqrt (v0 ^ 2 + 2 * acc * dist)) v1).
  - apply arrive_accelerating_Ok. lra.
  - apply arrive_cruising_Ok; lra.
Qed.


(** ** The learned extrema *)



Lemma update_max_other (d : gmap string R) (variable other : string) (v : R) :
  variable <> other -> update_max d variable v !! other = d !! other.
Proof.
  intros Hne. unfold update_max.
  destruct (d !! variable) as [m|].
  - destruct (Rgt_dec (Rabs v) m); [apply lookup_insert_ne; exact Hne | reflexivity].
  - apply lookup_insert_ne; exact Hne.
Qed.










(** ** One iteration of [observe] *)

(** The four ways out of the body of the loop: the first division raises and
    nothing is assigned; only the position is assigned; position and velocity
    are; position, velocity and acceleration are. *)
Lemma observe_variable_cases (dt : R) (self : QActor) (variable : string) (x : R) :
  let s1 := set_current_x self (<[variable := x]> (_current_x self)) in
  let s2 := fun v : R =>
    learn_velocity (set_current_v s1 (<[variable := v]> (_current_v s1))) variable v in
  let s3 := fun v a : R =>
    learn_acceleration
      (set_current_a (s2 v) (<[variable := a]> (_current_a (s2 v)))) variable a in
  (exists e : exn, observe_variable dt self variable x = (self, Some e)) \/
  (exists o : option exn, observe_variable dt self variable x = (s1, o)) \/
  (exists v : R, observe_variable dt self variable x = (s2 v, None)) \/
  (exists v a : R, observe_variable dt self variable x = (s3 v a, None)).
Proof.
  intros s1 s2 s3. unfold observe_variable.
  destruct (difference_quotient (_current_x self) variable x dt) as [[v|]|e].
  - fold s1.
    destruct (difference_quotient (_current_v s1) variable v dt) as [[a|]|e].
    + right. right. right. exists v, a. reflexivity.
    + right. right. left. exists v. reflexivity.
    + right. left. exists (Some e). reflexivity.
  - right. left. exists None. reflexivity.
  - left. exists e. reflexivity.
Qed.

Lemma learn_velocity_current (self : QActor) (variable : string) (v : R) :
  _current_x (learn_velocity self variable v) = _current_x self /\
  _current_v (learn_velocity self variable v) = _current_v self /\
  _current_a (learn_velocity self variable v) = _current_a self.
Proof.
  unfold learn_velocity. destruct (Req_dec_T v 0); [auto|].
  destruct (Rgt_dec v 0); auto.
Qed.

Lemma learn_acceleration_keeps (self : QActor) (variable : string) (a : R) :
  _current_x (learn_acceleration self variable a) = _current_x self /\
  _current_v (learn_acceleration self variable a) = _current_v self /\
  _max_v_pos (learn_acceleration self variable a) = _max_v_pos self /\
  _max_v_neg (learn_acceleration self variable a) = _max_v_neg self.
Proof.
  unfold learn_acceleration. destruct (Req_dec_T a 0); [auto|].
  destruct (Rgt_dec a 0); auto.
Qed.













Lemma run_app (self : QActor) (calls1 calls2 : list call) :
  run self (calls1 ++ calls2) = run (run self calls1) calls2.
Proof. apply fold_left_app. Qed.






(** ** [observe] and the sign of [dt] *)

Lemma difference_quotient_nonzero (d : gmap string R) (variable : string) (x dt : R) :
  dt <> 0 ->
  difference_quotient d variable x dt =
  Ok (match d !! variable with Some x0 => Some ((x - x0) / dt) | None => None end).
Proof.
  intros Hdt. unfold difference_quotient.
  destruct (d !! variable); [|reflexivity].
  rewrite truediv_Ok by exact Hdt. reflexivity.
Qed.

Lemma observe_variable_no_exception (dt : R) (self : QActor) (variable : string) (x : R) :
  dt <> 0 -> snd (observe_variable dt self variable x) = None.
Proof.
  intros Hdt. unfold observe_variable.
  rewrite difference_quotient_nonzero by exact Hdt.
  destruct (_current_x self !! variable); [|reflexivity].
  rewrite difference_quotient_nonzero by exact Hdt.
  match goal with |- context [match ?d !! variable with _ => _ end] =>
    destruct (d !! variable) end; reflexivity.
Qed.

Lemma observe_no_exception (numerical_state : list (string * R)) (dt : R)
    (self : QActor) :
  dt <> 0 -> snd (observe self numerical_state dt) = None.
Proof.
  intros Hdt. revert self.
  induction numerical_state as [|[variable x] rest IH]; intros self; [reflexivity|].
  cbn [observe].
  pose proof (observe_variable_no_exception dt self variable x Hdt) as Hnone.
  destruct (observe_variable dt self variable x) as [self' [e|]]; cbn [snd] in Hnone.
  - discriminate.
  - apply IH.
Qed.

(** With [dt = 0] the body raises on a variable with a recorded position and
    assigns nothing; on a new variable it only records the position. *)
Lemma observe_variable_zero_dt (self : QActor) (variable : string) (x : R) :
  observe_variable 0 self variable x =
  match _current_x self !! variable with
  | Some _ => (self, Some ZeroDivisionError)
  | None => (set_current_x self (<[variable := x]> (_current_x self)), None)
  end.
Proof.
  unfold observe_variable, difference_quotient.
  destruct (_current_x self !! variable); [|reflexivity].
  rewrite truediv_zero. reflexivity.
Qed.

(** ** The order on keys and the stable descending sort *)

Lemma key_ltb_lt (k1 k2 : R * Z) : key_ltb k1 k2 = true <-> key_lt k1 k2.
Proof.
  unfold key_ltb, key_lt.
  destruct (Rlt_dec (fst k1) (fst k2)) as [Hlt|Hnlt].
  - split; [intros _; left; exact Hlt | reflexivity].
  - destruct (Req_dec_T (fst k1) (fst k2)) as [Heq|Hne].
    + rewrite bool_decide_eq_true. split.
      * intros Hz. right. split; assumption.
      * intros [Hlt|[_ Hz]]; [contradiction | exact Hz].
    + split; [discriminate|]. intros [Hlt|[Heq _]]; contradiction.
Qed.

Lemma key_lt_irrefl (k : R * Z) : ~ key_lt k k.
Proof. unfold key_lt. intros [H|[_ H]]; [lra | lia]. Qed.

Lemma key_lt_trans (k1 k2 k3 : R * Z) : key_lt k1 k2 -> key_lt k2 k3 -> key_lt k1 k3.
Proof.
  unfold key_lt. intros [H1|[E1 Z1]] [H2|[E2 Z2]].
  - left. lra.
  - left. lra.
  - left. lra.
  - right. split; [congruence | lia].
Qed.

Lemma key_total (k1 k2 : R * Z) : key_lt k1 k2 \/ k1 = k2 \/ key_lt k2 k1.
Proof.
  destruct k1 as [v1 r1], k2 as [v2 r2]. unfold key_lt. cbn [fst snd].
  destruct (Rtotal_order v1 v2) as [H|[H|H]].
  - left. left. exact H.
  - subst v2. destruct (Z.lt_total r1 r2) as [Hz|[Hz|Hz]].
    + left. right. split; [reflexivity | exact Hz].
    + right. left. subst r2. reflexivity.
    + right. right. right. split; [reflexivity | exact Hz].
  - right. right. left. exact H.
Qed.

Lemma key_le_refl (k : R * Z) : key_le k k.
Proof. right. reflexivity. Qed.

Lemma key_le_trans (k1 k2 k3 : R * Z) : key_le k1 k2 -> key_le k2 k3 -> key_le k1 k3.
Proof.
  intros [H1| ->] [H2| ->].
  - left. eapply key_lt_trans; eassumption.
  - left. exact H1.
  - left. exact H2.
  - right. reflexivity.
Qed.

Lemma not_key_lt_le (k1 k2 : R * Z) : ~ key_lt k1 k2 -> key_le k2 k1.
Proof.
  intros Hn. destruct (key_total k1 k2) as [H|[H|H]].
  - contradiction.
  - right. symmetry. exact H.
  - left. exact H.
Qed.

Lemma insert_reverse_head (x : vote) (l : list vote) :
  head (insert_reverse x l) =
  Some (match head l with
        | Some y => if key_ltb (vote_key x) (vote_key y) then y else x
        | None => x
        end).
Proof.
  destruct l as [|y l']; [reflexivity|]. cbn [insert_reverse head].
  destruct (key_ltb (vote_key x) (vote_key y)); reflexivity.
Qed.

(** The first element of the sorted list is the first of the greatest. *)
Lemma sorted_reverse_head (l : list vote) :
  l <> [] -> exists (i : nat) (x : vote),
    head (sorted_reverse l) = Some x /\ first_greatest l i x.
Proof.
  induction l as [|a l' IH]; [congruence|]. intros _.
  cbn [sorted_reverse]. rewrite insert_reverse_head.
  destruct l' as [|b l''].
  - exists 0%nat, a. split; [reflexivity|]. repeat split.
    + intros [|j] y Hy; [|discriminate]. injection Hy as <-. apply key_le_refl.
    + intros j y Hj. lia.
  - destruct IH as [i [m [Hm [Hi [Hall Hbefore]]]]]; [discriminate|].
    rewrite Hm.
    destruct (key_ltb (vote_key a) (vote_key m)) eqn:Hlt.
    + apply key_ltb_lt in Hlt. exists (S i), m. split; [reflexivity|].
      repeat split.
      * exact Hi.
      * intros [|j] y Hy.
        -- injection Hy as <-. left. exact Hlt.
        -- apply (Hall j). exact Hy.
      * intros [|j] y Hj Hy.
        -- injection Hy as <-. exact Hlt.
        -- apply (Hbefore j); [lia | exact Hy].
    + assert (Hle : key_le (vote_key m) (vote_key a)).
      { apply not_key_lt_le. rewrite <- key_ltb_lt, Hlt. discriminate. }
      exists 0%nat, a. split; [reflexivity|]. repeat split.
      * intros [|j] y Hy.
        -- injection Hy as <-. apply key_le_refl.
        -- eapply key_le_trans; [apply (Hall j); exact Hy | exact Hle].
      * intros j y Hj. lia.
Qed.

(** ** Loops *)

Lemma for_each_ext {A S : Type} (body1 body2 : S -> A -> result S) (l : list A) (s : S) :
  (forall s' a, body1 s' a = body2 s' a) -> for_each l body1 s = for_each l body2 s.
Proof.
  intros Hext. revert s. induction l as [|a l' IH]; intros s; [reflexivity|].
  cbn [for_each]. rewrite Hext. destruct (body2 s a); [apply IH | reflexivity].
Qed.

Lemma for_each_append {A B : Type} (f : A -> result B) (l : list A) (acc : list B) :
  for_each l (fun ys a => let! y := f a in Ok (ys ++ [y])) acc =
  let! ys := collect f l in Ok (acc ++ ys).
Proof.
  revert acc. induction l as [|a l' IH]; intros acc; cbn [for_each collect bind].
  - rewrite app_nil_r. reflexivity.
  - destruct (f a) as [y|e]; cbn [bind]; [|reflexivity].
    rewrite IH. destruct (collect f l') as [ys|e]; cbn [bind]; [|reflexivity].
    rewrite <- app_assoc. reflexivity.
Qed.

Lemma for_each_sum {A : Type} (f : A -> result R) (l : list A) (acc : R) :
  for_each l (fun t a => let! y := f a in Ok (t + y)) acc =
  let! ys := collect f l in Ok (acc + fold_right Rplus 0 ys).
Proof.
  revert acc. induction l as [|a l' IH]; intros acc; cbn [for_each collect bind].
  - cbn [fold_right]. f_equal. lra.
  - destruct (f a) as [y|e]; cbn [bind]; [|reflexivity].
    rewrite IH. destruct (collect f l') as [ys|e]; cbn [bind]; [|reflexivity].
    cbn [fold_right]. f_equal. lra.
Qed.

Lemma collect_ext {A B : Type} (f g : A -> result B) (l : list A) :
  (forall a, In a l -> f a = g a) -> collect f l = collect g l.
Proof.
  induction l as [|a l' IH]; intros Hext; [reflexivity|]. cbn [collect].
  rewrite (Hext a) by (left; reflexivity).
  rewrite IH; [reflexivity|]. intros b Hb. apply Hext. right. exact Hb.
Qed.

Lemma collect_Ok {A B : Type} (f : A -> result B) (l : list A) (ys : list B) :
  collect f l = Ok ys <-> Forall2 (fun a y => f a = Ok y) l ys.
Proof.
  revert ys. induction l as [|a l' IH]; intros ys; cbn [collect].
  - split.
    + intros H. injection H as <-. constructor.
    + intros H. inversion H. reflexivity.
  - split.
    + intros H. apply bind_Ok in H as [y [Hy H]].
      apply bind_Ok in H as [ys' [Hys H]]. injection H as <-.
      constructor; [exact Hy | apply IH; exact Hys].
    + intros H. inversion H as [|a' y l'' ys' Hy Hys]; subst.
      rewrite Hy. cbn [bind]. apply IH in Hys. rewrite Hys. reflexivity.
Qed.

Lemma collect_total {A B : Type} (f : A -> result B) (l : list A) :
  (forall a, In a l -> exists y, f a = Ok y) -> exists ys, collect f l = Ok ys.
Proof.
  induction l as [|a l' IH]; intros Hf; [exists []; reflexivity|].
  destruct (Hf a) as [y Hy]; [left; reflexivity|].
  destruct IH as [ys Hys]; [intros b Hb; apply Hf; right; exact Hb|].
  exists (y :: ys). cbn [collect]. rewrite Hy, Hys. reflexivity.
Qed.

(** ** The vote *)

Lemma vote_step_term (direction : R -> R) (self : QActor) (E : gmap string Z)
    (t : R) (item : string * R) :
  vote_step direction self E t item =
  let! y := vote_term direction self E item in Ok (t + y).
Proof.
  unfold vote_step, vote_term, abstaining.
  destruct (getitem (_current_x self) (fst item)); [|reflexivity]. cbn [bind].
  destruct (getitem E (fst item)); [|reflexivity]. cbn [bind].
  destruct (_eta self (fst item) (snd item)); reflexivity.
Qed.

Lemma action_vote_sum (direction : R -> R) (self : QActor) (E : gmap string Z)
    (target : list (string * R)) :
  action_vote direction self E target =
  let! terms := collect (vote_term direction self E) target in
  Ok (fold_right Rplus 0 terms).
Proof.
  unfold action_vote.
  rewrite (for_each_ext _ (fun t a => let! y := vote_term direction self E a in Ok (t + y)))
    by (intros; apply vote_step_term).
  rewrite for_each_sum.
  destruct (collect (vote_term direction self E) target); cbn [bind]; [|reflexivity].
  f_equal. lra.
Qed.

(** Only the sign of a non-zero distance matters: at distance 0 the factor
    [eta] is 0. *)
Lemma vote_term_agree (dir1 dir2 : R -> R) (self : QActor) (E : gmap string Z)
    (item : string * R) :
  (forall d : R, d <> 0 -> dir1 d = dir2 d) ->
  vote_term dir1 self E item = vote_term dir2 self E item.
Proof.
  intros Hagree. unfold vote_term, getitem.
  destruct (_current_x self !! fst item) as [x|] eqn:Hx; [|reflexivity]. cbn [bind].
  destruct (E !! fst item) as [e|]; [|reflexivity]. cbn [bind].
  destruct (Req_dec_T (snd item - x) 0) as [Hzero|Hnz].
  - assert (Hsnd : snd item = x) by lra.
    rewrite Hsnd, (_eta_at_target _ _ _ Hx). cbn [bind]. f_equal. ring.
  - rewrite (Hagree _ Hnz). reflexivity.
Qed.

Lemma copysign_1_sign (d : R) : d <> 0 -> copysign_1 d = sign d.
Proof.
  intros Hd. unfold copysign_1, sign.
  destruct (Rlt_dec d 0); destruct (Rgt_dec d 0); lra.
Qed.

Lemma action_vote_agree (dir1 dir2 : R -> R) (self : QActor) (E : gmap string Z)
    (target : list (string * R)) :
  (forall d : R, d <> 0 -> dir1 d = dir2 d) ->
  action_vote dir1 self E target = action_vote dir2 self E target.
Proof.
  intros Hagree. rewrite !action_vote_sum.
  rewrite (collect_ext (vote_term dir1 self E) (vote_term dir2 self E)); [reflexivity|].
  intros item _. apply vote_term_agree. exact Hagree.
Qed.


Lemma collect_votes_collect (direction : R -> R) (self : QActor)
    (target : list (string * R)) :
  collect_votes direction self target =
  collect (fun a =>
             let! v := action_vote direction self
                         (effect (_model self) a (_current_x self)) target in
             Ok (a, v, action_rank a))
          (actions (_model self) (_current_x self)).
Proof.
  unfold collect_votes.
  rewrite (for_each_ext _
    (fun ys a =>
       let! y := (let! v := action_vote direction self
                              (effect (_model self) a (_current_x self)) target in
                  Ok (a, v, action_rank a)) in
       Ok (ys ++ [y]))).
  - rewrite for_each_append.
    match goal with |- bind ?c _ = _ => destruct c; reflexivity end.
  - intros ys a. unfold evaluate.
    destruct (action_vote direction self _ target); reflexivity.
Qed.


(** ** The selection *)

Lemma candidate_key_stored (self : QActor) (target : list (string * R)) (a : action)
    (x : vote) :
  (let! v := action_vote copysign_1 self
               (effect (_model self) a (_current_x self)) target in
   Ok (a, v, action_rank a)) = Ok x ->
  fst (fst x) = a /\ candidate_key self target a = Ok (vote_key x).
Proof.
  intros H. unfold candidate_key.
  destruct (action_vote copysign_1 self _ target) as [v|e]; [|discriminate].
  cbn [bind] in *. injection H as <-. split; reflexivity.
Qed.

(** C10.  A target variable whose target value is its recorded position adds
    exactly 0 to the vote of any candidate, whatever sign is given to the zero
    distance ([math.copysign] gives 1, not 0), because its [_eta] is 0; and
    [act] returns the same for every sign function that agrees with
    [math.copysign] on the non-zero distances. *)
Theorem zero_distance_sign_is_irrelevant (self : QActor) (target : list (string * R)) :
  copysign_1 0 = 1 /\
  (forall (direction : R -> R) (variable : string) (x : R)
          (E : gmap string Z) (e : Z) (t : R),
      _current_x self !! variable = Some x ->
      E !! variable = Some e ->
      _eta self variable x = Ok 0 /\
      vote_term direction self E (variable, x) = Ok 0 /\
      vote_step direction self E t (variable, x) = Ok t) /\
  (forall direction : R -> R,
      (forall d : R, d <> 0 -> direction d = copysign_1 d) ->
      act_with direction self target = act self target).
Proof.
  split; [|split].
  - unfold copysign_1. destruct (Rlt_dec 0 0); [lra | reflexivity].
  - intros direction variable x E e t Hx He.
    assert (Hterm : vote_term direction self E (variable, x) = Ok 0).
    { unfold vote_term. cbn [fst snd].
      rewrite (getitem_Some _ _ _ Hx), (getitem_Some _ _ _ He),
        (_eta_at_target _ _ _ Hx). cbn [bind]. f_equal. ring. }
    split; [apply _eta_at_target; exact Hx|]. split; [exact Hterm|].
    rewrite vote_step_term, Hterm. cbn [bind]. f_equal. ring.
  - intros direction Hagree. unfold act, act_with.
    rewrite !collect_votes_collect.
    rewrite (collect_ext _
      (fun a => let! v := action_vote copysign_1 self
                            (effect (_model self) a (_current_x self)) target in
                Ok (a, v, action_rank a))); [reflexivity|].
    intros a _. rewrite (action_vote_agree direction copysign_1) by exact Hagree.
    reflexivity.
Qed.

(** ** The cart example *)

Lemma observe_variable_new (dt : R) (self : QActor) (variable : string) (x : R) :
  _current_x self !! variable = None ->
  observe_variable dt self variable x =
  (set_current_x self (<[variable := x]> (_current_x self)), None).
Proof.
  intros Hx. unfold observe_variable, difference_quotient. rewrite Hx. reflexivity.
Qed.

Lemma observe_variable_second (dt : R) (self : QActor) (variable : string) (x0 x : R) :
  _current_x self !! variable = Some x0 ->
  _current_v self !! variable = None ->
  dt <> 0 ->
  observe_variable dt self variable x =
  (learn_velocity
     (set_current_v (set_current_x self (<[variable := x]> (_current_x self)))
                    (<[variable := (x - x0) / dt]> (_current_v self)))
     variable ((x - x0) / dt),
   None).
Proof.
  intros Hx Hv Hdt. unfold observe_variable, difference_quotient.
  rewrite Hx, (truediv_Ok _ _ Hdt). cbn [bind]. actor_simpl. rewrite Hv. reflexivity.
Qed.

Lemma cart_start_state :
  cart_start =
  mkQActor CartModel {["v"%string := 0; "x"%string := -10]} ∅ ∅ ∅ ∅ ∅ ∅.
Proof.
  unfold cart_start, run, __init__. cbn [fold_left run_call observe].
  rewrite observe_variable_new by apply lookup_empty. actor_simpl.
  rewrite observe_variable_new
    by (actor_simpl; rewrite lookup_insert_ne by discriminate; apply lookup_empty).
  reflexivity.
Qed.

Lemma cart_start_reachable : reachable cart_start.
Proof.
  exists CartModel, [Observe [("x"%string, -10); ("v"%string, 0)] (1 / 100)].
  reflexivity.
Qed.

Lemma cart_start_x : _current_x cart_start !! "x"%string = Some (-10).
Proof.
  rewrite cart_start_state. actor_simpl.
  rewrite lookup_insert_ne by discriminate. apply lookup_insert_eq.
Qed.

Lemma cart_start_v : _current_x cart_start !! "v"%string = Some 0.
Proof. rewrite cart_start_state. actor_simpl. apply lookup_insert_eq. Qed.

Lemma cart_effect (f : Z) (numerical_state : gmap string R) :
  effect CartModel [("F"%string, f)] numerical_state
  = {[ "x"%string := f; "v"%string := f ]}.
Proof. reflexivity. Qed.

Lemma cart_effect_covers (a : action) (variable : string) (x1 : R) :
  In a (actions (_model cart_start) (_current_x cart_start)) ->
  In (variable, x1) [("x"%string, 0); ("v"%string, 0)] ->
  is_Some (effect (_model cart_start) a (_current_x cart_start) !! variable).
Proof.
  rewrite cart_start_state. actor_simpl.
  intros [<-|[<-|[<-|[]]]] [H|[H|[]]]; injection H as <- <-;
    rewrite cart_effect; eexists;
    first [ apply lookup_insert_eq
          | rewrite lookup_insert_ne by discriminate; apply lookup_insert_eq ].
Qed.


(** On [cart_learned] the seven entries of [x] differ: the call for the
    target 1 below the position 2 has the velocity -1 negated, the cruise
    speed 5 and the accelerations 3 and 7, in this order. *)
Lemma eta_zero_and_mirrored_witness :
  _eta cart_learned "x" 2 = Ok 0 /\
  _eta cart_learned "x" 1 = _time_to_goal (- (1 - 2)) (- -1) 5 3 7.
Proof.
  assert (Hx : _current_x cart_learned !! "x"%string = Some 2)
    by apply lookup_singleton_eq.
  destruct (eta_zero_and_mirrored cart_learned "x" 2 Hx) as [Hzero [_ Hneg]].
  split; [exact Hzero|].
  apply (Hneg 1 (-1) 5 3 7); [lra | apply lookup_singleton_eq..].
Defined.

(** The cart one step later: both variables have a velocity, 1 for [x] and
    100 for [v], and these are the learned positive maxima. *)
Lemma cart_moving_state :
  cart_moving =
  mkQActor CartModel
    (<["v"%string := 1]>
       (<["x"%string := -10 + 1 / 100]> {["v"%string := 0; "x"%string := -10]}))
    {["v"%string := 100; "x"%string := 1]} ∅
    {["v"%string := 100; "x"%string := 1]} ∅ ∅ ∅.
Proof.
  unfold cart_moving, run. cbn [fold_left run_call observe].
  rewrite (observe_variable_second (1 / 100) cart_start "x" (-10) (-10 + 1 / 100)
             cart_start_x)
    by (try lra; rewrite cart_start_state; apply lookup_empty).
  replace ((-10 + 1 / 100 - -10) / (1 / 100)) with 1 by field.
  unfold learn_velocity at 1.
  destruct (Req_dec_T 1 0) as [H|_]; [lra|].
  destruct (Rgt_dec 1 0) as [_|H]; [|lra].
  rewrite cart_start_state. actor_simpl. unfold update_max at 1.
  rewrite lookup_empty, Rabs_R1.
  rewrite (observe_variable_second (1 / 100) _ "v" 0 1);
    [ | actor_simpl; rewrite lookup_insert_ne by discriminate; apply lookup_insert_eq
      | actor_simpl; rewrite lookup_insert_ne by discriminate; apply lookup_empty
      | lra ].
  replace ((1 - 0) / (1 / 100)) with 100 by field.
  unfold learn_velocity.
  destruct (Req_dec_T 100 0) as [H|_]; [lra|].
  destruct (Rgt_dec 100 0) as [_|H]; [|lra].
  actor_simpl. unfold update_max.
  rewrite lookup_insert_ne by discriminate. rewrite lookup_empty.
  rewrite (Rabs_pos_eq 100) by lra. reflexivity.
Qed.

Lemma cart_moving_reachable : reachable cart_moving.
Proof.
  destruct cart_start_reachable as [model [calls Hcalls]].
  exists model,
    (calls ++ [Observe [("x"%string, -10 + 1 / 100); ("v"%string, 1)] (1 / 100)]).
  rewrite run_app, <- Hcalls. reflexivity.
Qed.



Lemma zero_distance_sign_is_irrelevant_witness :
  vote_step copysign_1 cart_start {[ "x"%string := 1%Z; "v"%string := 1%Z ]} 5
            ("v"%string, 0) = Ok 5 /\
  act_with sign cart_start [("x"%string, 0); ("v"%string, 0)]
  = act cart_start [("x"%string, 0); ("v"%string, 0)].
Proof.
  destruct (zero_distance_sign_is_irrelevant cart_start
              [("x"%string, 0); ("v"%string, 0)]) as [_ [Hzero Hsame]].
  split.
  - apply (Hzero copysign_1 "v"%string 0 _ 1%Z 5 cart_start_v).
    rewrite lookup_insert_ne by discriminate. apply lookup_insert_eq.
  - apply Hsame. intros d Hd. symmetry. apply copysign_1_sign. exact Hd.
Defined.

(** With [dt = -1] the call returns normally, and the cart that moved from
    -10 to -9 is given the velocity -1. *)
Lemma observe_negative_dt_is_silent :
  -1 <= 0 /\
  _current_x cart_start !! "x"%string = Some (-10) /\
  snd (observe cart_start [("x"%string, -9)] (-1)) = None /\
  _current_v (fst (observe cart_start [("x"%string, -9)] (-1))) !! "x"%string
    = Some (-1).
Proof.
  split; [lra|]. split; [apply cart_start_x|].
  split; [apply observe_no_exception; lra|].
  rewrite (observe_second_sample cart_start "x" (-10) (-9) (-1) cart_start_x)
    by (try lra; rewrite cart_start_state; apply lookup_empty).
  cbn [fst].
  match goal with |- context [learn_velocity ?s ?variable ?v] =>
    destruct (learn_velocity_current s variable v) as [_ [Hcv _]] end.
  rewrite Hcv. actor_simpl. rewrite lookup_insert_eq. f_equal. field.
Qed.

(** *** The first decision of the cart *)

(** From rest at -10 with unit extrema: 1 to reach speed 1, covering 1/2,
    then 9.5 at speed 1. *)
Lemma cart_start_eta_x : _eta cart_start "x" 0 = Ok (21 / 2).
Proof.
  rewrite _eta_by_call.
  assert (Hcall : _eta_call cart_start "x" 0 = Ok (Some (0 - -10, 0, 1, 1, 1))).
  { unfold _eta_call. rewrite (getitem_Some _ _ _ cart_start_x). cbn [bind].
    rewrite cart_start_state. unfold get_or. actor_simpl. rewrite lookup_empty.
    destruct (Rgt_dec (0 - -10) 0) as [_|H]; [reflexivity | lra]. }
  rewrite Hcall. cbn [bind].
  rewrite _time_to_goal_toward by lra. rewrite toward_goal_Ok by lra.
  destruct (Rle_dec (sqrt (0 ^ 2 + 2 * 1 * (0 - -10))) 1) as [Hle|_].
  - pose proof (sqrt_gt_1 (0 ^ 2 + 2 * 1 * (0 - -10)) ltac:(lra)). lra.
  - f_equal. field.
Qed.

Lemma cart_start_vote (f : Z) :
  (Z.abs f <= 1)%Z ->
  action_vote copysign_1 cart_start
    (effect (_model cart_start) [("F"%string, f)] (_current_x cart_start))
    [("x"%string, 0); ("v"%string, 0)]
  = Ok (IZR f * (21 / 2)).
Proof.
  intros Hf. rewrite action_vote_sum.
  replace (_model cart_start) with CartModel by (rewrite cart_start_state; reflexivity).
  rewrite cart_effect. cbn [collect]. unfold vote_term. cbn [fst snd].
  rewrite (getitem_Some _ _ _ cart_start_x), (getitem_Some _ _ _ cart_start_v).
  rewrite cart_start_eta_x, (_eta_at_target _ _ _ cart_start_v).
  unfold getitem.
  rewrite (lookup_insert_ne _ "x"%string "v"%string) by discriminate.
  rewrite lookup_insert_eq, lookup_singleton_eq. cbn [bind fold_right].
  unfold abstaining. destruct (Z_le_dec (Z.abs f) 1) as [_|H]; [|contradiction].
  unfold copysign_1.
  destruct (Rlt_dec (0 - -10) 0) as [H|_]; [lra|].
  f_equal. ring.
Qed.

Lemma cart_start_votes :
  collect_votes copysign_1 cart_start [("x"%string, 0); ("v"%string, 0)] =
  Ok [([("F"%string, (-1)%Z)], IZR (-1) * (21 / 2), 1%Z);
      ([("F"%string, 0%Z)], IZR 0 * (21 / 2), 0%Z);
      ([("F"%string, 1%Z)], IZR 1 * (21 / 2), 1%Z)].
Proof.
  rewrite collect_votes_collect.
  replace (actions (_model cart_start) (_current_x cart_start))
    with [[("F"%string, (-1)%Z)]; [("F"%string, 0%Z)]; [("F"%string, 1%Z)]]
    by (rewrite cart_start_state; reflexivity).
  cbn [collect]. rewrite !cart_start_vote by (cbn; lia). reflexivity.
Qed.

(** The cart is at -10 and the target at 0: the votes are -10.5, 0 and 10.5,
    and [act] pushes in the positive direction. *)
Example cart_start_act :
  act cart_start [("x"%string, 0); ("v"%string, 0)] = Ok [("F"%string, 1%Z)].
Proof.
  unfold act, act_with. rewrite cart_start_votes. cbn [bind sorted_reverse].
  cbn [insert_reverse].
  assert (H23 : key_ltb (vote_key ([("F"%string, 0%Z)], IZR 0 * (21 / 2), 0%Z))
                        (vote_key ([("F"%string, 1%Z)], IZR 1 * (21 / 2), 1%Z)) = true).
  { apply key_ltb_lt. left. cbn [vote_key fst snd]. lra. }
  rewrite H23. cbn [insert_reverse].
  assert (H13 : key_ltb (vote_key ([("F"%string, (-1)%Z)], IZR (-1) * (21 / 2), 1%Z))
                        (vote_key ([("F"%string, 1%Z)], IZR 1 * (21 / 2), 1%Z)) = true).
  { apply key_ltb_lt. left. cbn [vote_key fst snd]. lra. }
  rewrite H13. reflexivity.
Qed.

(** With the same vote the action committing more channels wins, and of two
    equal tuples the first stays first. *)
Example sorted_reverse_ties :
  sorted_reverse [([("m1"%string, 0%Z); ("m2"%string, 1%Z)], 2, 1%Z);
                  ([("m1"%string, 1%Z); ("m2"%string, 1%Z)], 2, 2%Z);
                  ([("m1"%string, (-1)%Z); ("m2"%string, (-1)%Z)], 2, 2%Z)]
  = [([("m1"%string, 1%Z); ("m2"%string, 1%Z)], 2, 2%Z);
     ([("m1"%string, (-1)%Z); ("m2"%string, (-1)%Z)], 2, 2%Z);
     ([("m1"%string, 0%Z); ("m2"%string, 1%Z)], 2, 1%Z)].
Proof.
  cbn [sorted_reverse insert_reverse].
  assert (Hsame : forall a b : list (string * Z),
             key_ltb (vote_key (a, 2, 2%Z)) (vote_key (b, 2, 2%Z)) = false).
  { intros a b. apply not_true_iff_false. rewrite key_ltb_lt.
    apply key_lt_irrefl. }
  assert (Hrank : forall a b : list (string * Z),
             key_ltb (vote_key (a, 2, 1%Z)) (vote_key (b, 2, 2%Z)) = true).
  { intros a b. apply key_ltb_lt. right. cbn [vote_key fst snd]. split; [reflexivity | lia]. }
  rewrite Hsame. cbn [insert_reverse]. rewrite !Hrank. reflexivity.
Qed.

(** The base model lists no action: [votes[0]] raises [IndexError]. *)
Example act_without_actions (target : list (string * R)) :
  act (__init__ QModel_base) target = Raise IndexError.
Proof. reflexivity. Qed.

(** * Further properties of the estimator *)

(** ** [observe] along a list *)

Lemma observe_cons (self : QActor) (variable : string) (x : R)
    (rest : list (string * R)) (dt : R) :
  snd (observe_variable dt self variable x) = None ->
  observe self ((variable, x) :: rest) dt =
  observe (fst (observe_variable dt self variable x)) rest dt.
Proof.
  intros Hnone. cbn [observe].
  destruct (observe_variable dt self variable x) as [self' [e|]]; cbn [fst snd] in *.
  - discriminate.
  - reflexivity.
Qed.

Lemma observe_app (self : QActor) (l1 l2 : list (string * R)) (dt : R) :
  snd (observe self l1 dt) = None ->
  observe self (l1 ++ l2) dt = observe (fst (observe self l1 dt)) l2 dt.
Proof.
  revert self. induction l1 as [|[variable x] l1 IH]; intros self Hnone; [reflexivity|].
  cbn [app observe] in *.
  destruct (observe_variable dt self variable x) as [self' [e|]]; cbn [fst snd] in *.
  - discriminate.
  - apply IH. exact Hnone.
Qed.

(** One iteration leaves the entries of the other variables alone. *)
Lemma observe_variable_frame (dt : R) (self : QActor) (variable other : string) (x : R) :
  variable <> other ->
  let self' := fst (observe_variable dt self variable x) in
  _current_x self' !! other = _current_x self !! other /\
  _current_v self' !! other = _current_v self !! other /\
  _current_a self' !! other = _current_a self !! other /\
  _max_v_pos self' !! other = _max_v_pos self !! other /\
  _max_v_neg self' !! other = _max_v_neg self !! other /\
  _max_a_pos self' !! other = _max_a_pos self !! other /\
  _max_a_neg self' !! other = _max_a_neg self !! other.
Proof.
  intros Hne. cbv zeta.
  destruct (observe_variable_cases dt self variable x)
    as [[e H]|[[o H]|[[v H]|[v [a H]]]]]; rewrite H; cbn [fst].
  - repeat split.
  - actor_simpl. rewrite lookup_insert_ne by exact Hne. repeat split.
  - unfold learn_velocity.
    destruct (Req_dec_T v 0); [|destruct (Rgt_dec v 0)]; actor_simpl;
      rewrite ?update_max_other by exact Hne;
      rewrite ?lookup_insert_ne by exact Hne; repeat split.
  - unfold learn_acceleration, learn_velocity.
    destruct (Req_dec_T a 0); [|destruct (Rgt_dec a 0)];
      (destruct (Req_dec_T v 0); [|destruct (Rgt_dec v 0)]); actor_simpl;
      rewrite ?update_max_other by exact Hne;
      rewrite ?lookup_insert_ne by exact Hne; repeat split.
Qed.

Lemma same_at_refl (variable : string) (s : QActor) : same_at variable s s.
Proof. repeat split. Qed.

Lemma same_at_trans (variable : string) (s1 s2 s3 : QActor) :
  same_at variable s1 s2 -> same_at variable s2 s3 -> same_at variable s1 s3.
Proof.
  intros [A1 [A2 [A3 [A4 [A5 [A6 A7]]]]]] [B1 [B2 [B3 [B4 [B5 [B6 B7]]]]]].
  repeat split; congruence.
Qed.

Lemma observe_frame (numerical_state : list (string * R)) (dt : R) (self : QActor)
    (other : string) :
  ~ In other (listed numerical_state) ->
  same_at other (fst (observe self numerical_state dt)) self.
Proof.
  revert self. induction numerical_state as [|[variable x] rest IH]; intros self Hnot.
  - apply same_at_refl.
  - cbn [listed map fst In] in Hnot.
    assert (Hne : variable <> other) by tauto.
    assert (Hrest : ~ In other (listed rest)) by (unfold listed; tauto).
    pose proof (observe_variable_frame dt self variable other x Hne) as Hframe.
    cbn [observe].
    destruct (observe_variable dt self variable x) as [self' [e|]]; cbn [fst] in *.
    + exact Hframe.
    + eapply same_at_trans; [apply IH; exact Hrest | exact Hframe].
Qed.

(** With [dt <> 0] and distinct keys, what [observe] does to a listed
    variable is what the body of the loop does to it, from a state with the
    same entries for that variable. *)
Lemma observe_at (numerical_state : list (string * R)) (dt : R) (self : QActor)
    (variable : string) (x : R) :
  dt <> 0 -> NoDup (listed numerical_state) -> In (variable, x) numerical_state ->
  exists s1 : QActor,
    same_at variable s1 self /\
    same_at variable (fst (observe self numerical_state dt))
                     (fst (observe_variable dt s1 variable x)).
Proof.
  intros Hdt Hnodup Hin.
  destruct (in_split _ _ Hin) as [l1 [l2 ->]].
  unfold listed in Hnodup. rewrite map_app in Hnodup. cbn [map fst] in Hnodup.
  apply NoDup_app in Hnodup as [_ [Hdisjoint Hnodup2]].
  apply NoDup_cons in Hnodup2 as [Hnot2' _].
  assert (Hnot1 : ~ In variable (listed l1)).
  { intros H. apply list_elem_of_In in H. apply (Hdisjoint variable H). left. }
  assert (Hnot2 : ~ In variable (listed l2)).
  { intros H. apply Hnot2'. apply list_elem_of_In. exact H. }
  exists (fst (observe self l1 dt)). split; [apply observe_frame; exact Hnot1|].
  rewrite observe_app by (apply observe_no_exception; exact Hdt).
  rewrite observe_cons by (apply observe_variable_no_exception; exact Hdt).
  apply observe_frame. exact Hnot2.
Qed.

Lemma update_max_running (d : gmap string R) (variable : string) (v : R) :
  update_max d variable v !! variable = running_max (d !! variable) v.
Proof.
  unfold update_max, running_max, Rmax.
  destruct (d !! variable) as [m|] eqn:Hm.
  - destruct (Rgt_dec (Rabs v) m) as [Hgt|Hle]; destruct (Rle_dec m (Rabs v)) as [H|H];
      rewrite ?lookup_insert_eq, ?Hm; f_equal; lra.
  - apply lookup_insert_eq.
Qed.

(** What [learn_velocity] leaves in the two maps of velocity extrema. *)
Lemma learn_velocity_extrema (self : QActor) (variable : string) (v : R) :
  _max_v_pos (learn_velocity self variable v) !! variable =
    (if Rgt_dec v 0 then running_max (_max_v_pos self !! variable) v
     else _max_v_pos self !! variable) /\
  _max_v_neg (learn_velocity self variable v) !! variable =
    (if Rlt_dec v 0 then running_max (_max_v_neg self !! variable) v
     else _max_v_neg self !! variable) /\
  _max_a_pos (learn_velocity self variable v) = _max_a_pos self /\
  _max_a_neg (learn_velocity self variable v) = _max_a_neg self.
Proof.
  unfold learn_velocity.
  destruct (Req_dec_T v 0) as [Hz|Hnz].
  - destruct (Rgt_dec v 0); [lra|]. destruct (Rlt_dec v 0); [lra|]. repeat split.
  - destruct (Rgt_dec v 0) as [Hgt|Hngt]; actor_simpl.
    + destruct (Rlt_dec v 0); [lra|]. rewrite update_max_running. repeat split.
    + destruct (Rlt_dec v 0); [|lra]. rewrite update_max_running. repeat split.
Qed.

Lemma learn_acceleration_extrema (self : QActor) (variable : string) (a : R) :
  _max_a_pos (learn_acceleration self variable a) !! variable =
    (if Rgt_dec a 0 then running_max (_max_a_pos self !! variable) a
     else _max_a_pos self !! variable) /\
  _max_a_neg (learn_acceleration self variable a) !! variable =
    (if Rlt_dec a 0 then running_max (_max_a_neg self !! variable) a
     else _max_a_neg self !! variable) /\
  _current_a (learn_acceleration self variable a) = _current_a self.
Proof.
  unfold learn_acceleration.
  destruct (Req_dec_T a 0) as [Hz|Hnz].
  - destruct (Rgt_dec a 0); [lra|]. destruct (Rlt_dec a 0); [lra|]. repeat split.
  - destruct (Rgt_dec a 0) as [Hgt|Hngt]; actor_simpl.
    + destruct (Rlt_dec a 0); [lra|]. rewrite update_max_running. repeat split.
    + destruct (Rlt_dec a 0); [|lra]. rewrite update_max_running. repeat split.
Qed.

(** The body of the loop on its own variable, for [dt <> 0]. *)
Lemma observe_variable_own (dt : R) (self : QActor) (variable : string) (x : R) :
  dt <> 0 ->
  let self' := fst (observe_variable dt self variable x) in
  _current_x self' !! variable = Some x /\
  (_current_x self !! variable = None ->
   _current_v self' = _current_v self /\ _current_a self' = _current_a self /\
   _max_v_pos self' = _max_v_pos self /\ _max_v_neg self' = _max_v_neg self /\
   _max_a_pos self' = _max_a_pos self /\ _max_a_neg self' = _max_a_neg self) /\
  (forall x0 : R, _current_x self !! variable = Some x0 ->
   let v := (x - x0) / dt in
   _current_v self' !! variable = Some v /\
   _max_v_pos self' !! variable =
     (if Rgt_dec v 0 then running_max (_max_v_pos self !! variable) v
      else _max_v_pos self !! variable) /\
   _max_v_neg self' !! variable =
     (if Rlt_dec v 0 then running_max (_max_v_neg self !! variable) v
      else _max_v_neg self !! variable) /\
   (_current_v self !! variable = None ->
    _current_a self' !! variable = _current_a self !! variable /\
    _max_a_pos self' !! variable = _max_a_pos self !! variable /\
    _max_a_neg self' !! variable = _max_a_neg self !! variable) /\
   (forall v0 : R, _current_v self !! variable = Some v0 ->
    let a := (v - v0) / dt in
    _current_a self' !! variable = Some a /\
    _max_a_pos self' !! variable =
      (if Rgt_dec a 0 then running_max (_max_a_pos self !! variable) a
       else _max_a_pos self !! variable) /\
    _max_a_neg self' !! variable =
      (if Rlt_dec a 0 then running_max (_max_a_neg self !! variable) a
       else _max_a_neg self !! variable))).
Proof.
  intros Hdt. cbv zeta. unfold observe_variable.
  rewrite difference_quotient_nonzero by exact Hdt.
  destruct (_current_x self !! variable) as [x0|] eqn:Hx.
  - rewrite difference_quotient_nonzero by exact Hdt. actor_simpl.
    set (v := (x - x0) / dt).
    set (s2 := set_current_v
                 (set_current_x self (<[variable := x]> (_current_x self)))
                 (<[variable := v]> (_current_v self))).
    destruct (learn_velocity_current s2 variable v) as [Lx [Lv La]].
    destruct (learn_velocity_extrema s2 variable v) as [Ep [En [Eap Ean]]].
    destruct (_current_v self !! variable) as [v0|] eqn:Hv; cbn [fst].
    + set (a := (v - v0) / dt).
      set (s3 := set_current_a (learn_velocity s2 variable v)
                   (<[variable := a]> (_current_a (learn_velocity s2 variable v)))).
      destruct (learn_acceleration_keeps s3 variable a) as [Kx [Kv [Kp Kn]]].
      destruct (learn_acceleration_extrema s3 variable a) as [Fp [Fn Fa]].
      split.
      { rewrite Kx. unfold s3. actor_simpl. rewrite Lx. unfold s2. actor_simpl.
        apply lookup_insert_eq. }
      split; [discriminate|].
      intros x0' Hx0'. injection Hx0' as <-. fold v.
      split.
      { rewrite Kv. unfold s3. actor_simpl. rewrite Lv. unfold s2. actor_simpl.
        apply lookup_insert_eq. }
      split; [rewrite Kp; unfold s3; actor_simpl; exact Ep|].
      split; [rewrite Kn; unfold s3; actor_simpl; exact En|].
      split; [discriminate|].
      intros v0' Hv0'. injection Hv0' as <-. fold a.
      split.
      { rewrite Fa. unfold s3. actor_simpl. apply lookup_insert_eq. }
      split.
      * rewrite Fp. unfold s3. actor_simpl. rewrite Eap. reflexivity.
      * rewrite Fn. unfold s3. actor_simpl. rewrite Ean. reflexivity.
    + split.
      { rewrite Lx. unfold s2. actor_simpl. apply lookup_insert_eq. }
      split; [discriminate|].
      intros x0' Hx0'. injection Hx0' as <-. fold v.
      split; [rewrite Lv; unfold s2; actor_simpl; apply lookup_insert_eq|].
      split; [exact Ep|]. split; [exact En|].
      split.
      * intros _. rewrite La, Eap, Ean. repeat split.
      * discriminate.
  - cbn [fst]. actor_simpl. split; [apply lookup_insert_eq|].
    split; [intros _; repeat split|]. discriminate.
Qed.

(** C8 (amended).  With [dt = 0], [observe] on a state with a listed
    variable whose position is recorded raises [ZeroDivisionError], and
    leaves every recorded position, every velocity, acceleration and extremum
    as it was.  With [dt < 0] no exception is raised, and every listed
    variable with a recorded position [x0], observed at [x], gets the
    position [x] and the velocity [(x - x0) / dt] (the keys of
    [numerical_state], a dictionary, are distinct). *)
Theorem observe_nonpositive_dt (self : QActor) (numerical_state : list (string * R))
    (dt : R) :
  (dt = 0 ->
   (exists (variable : string) (x x0 : R),
       In (variable, x) numerical_state /\ _current_x self !! variable = Some x0) ->
   let self' := fst (observe self numerical_state dt) in
   snd (observe self numerical_state dt) = Some ZeroDivisionError /\
   (forall (variable : string) (x0 : R),
       _current_x self !! variable = Some x0 ->
       _current_x self' !! variable = Some x0) /\
   _current_v self' = _current_v self /\
   _current_a self' = _current_a self /\
   _max_v_pos self' = _max_v_pos self /\
   _max_v_neg self' = _max_v_neg self /\
   _max_a_pos self' = _max_a_pos self /\
   _max_a_neg self' = _max_a_neg self) /\
  (dt < 0 ->
   snd (observe self numerical_state dt) = None /\
   (NoDup (listed numerical_state) ->
    forall (variable : string) (x x0 : R),
      In (variable, x) numerical_state ->
      _current_x self !! variable = Some x0 ->
      _current_x (fst (observe self numerical_state dt)) !! variable = Some x /\
      _current_v (fst (observe self numerical_state dt)) !! variable
        = Some ((x - x0) / dt))).
Proof.
  split.
  - intros -> Hrec. cbv zeta. revert self Hrec.
    induction numerical_state as [|[variable x] rest IH]; intros self Hrec.
    { destruct Hrec as [variable [x [x0 [[] _]]]]. }
    cbn [observe]. rewrite observe_variable_zero_dt.
    destruct (_current_x self !! variable) as [x0|] eqn:Hx.
    + cbn [fst snd]. repeat split; auto.
    + set (s1 := set_current_x self (<[variable := x]> (_current_x self))).
      assert (Hrec' : exists (variable' : string) (x' x0' : R),
                 In (variable', x') rest /\ _current_x s1 !! variable' = Some x0').
      { destruct Hrec as [variable' [x' [x0' [[Heq|Hin] Hx']]]].
        - injection Heq as -> ->. rewrite Hx in Hx'. discriminate.
        - exists variable', x', x0'. split; [exact Hin|].
          unfold s1. actor_simpl.
          rewrite lookup_insert_ne; [exact Hx'|].
          intros ->. rewrite Hx in Hx'. discriminate. }
      destruct (IH s1 Hrec') as [Hraise [Hkeep Hsame]].
      split; [exact Hraise|]. split; [|exact Hsame].
      intros variable' x0' Hx'. apply Hkeep. unfold s1. actor_simpl.
      rewrite lookup_insert_ne; [exact Hx'|].
      intros ->. rewrite Hx in Hx'. discriminate.
  - intros Hdt. assert (Hne : dt <> 0) by lra.
    split; [apply observe_no_exception; exact Hne|].
    intros Hnodup variable x x0 Hin Hx.
    destruct (observe_at numerical_state dt self variable x Hne Hnodup Hin)
      as [s1 [[A1 _] [B1 [B2 _]]]].
    rewrite <- A1 in Hx. rewrite B1, B2.
    destruct (observe_variable_own dt s1 variable x Hne) as [Ox [_ Own]].
    destruct (Own x0 Hx) as [Ov _].
    split; [exact Ox | exact Ov].
Qed.

Lemma observe_nonpositive_dt_witness :
  snd (observe cart_start [("x"%string, -9)] 0) = Some ZeroDivisionError /\
  snd (observe cart_start [("x"%string, -9)] (-1)) = None /\
  _current_v (fst (observe cart_start [("x"%string, -9)] (-1))) !! "x"%string
    = Some ((-9 - -10) / -1).
Proof.
  split.
  - destruct (observe_nonpositive_dt cart_start [("x"%string, -9)] 0) as [Hzero _].
    apply Hzero; [reflexivity|].
    exists "x"%string, (-9), (-10). split; [left; reflexivity | apply cart_start_x].
  - destruct (observe_nonpositive_dt cart_start [("x"%string, -9)] (-1)) as [_ Hneg].
    destruct Hneg as [Hnone Hv]; [lra|].
    split; [exact Hnone|].
    apply (Hv ltac:(repeat constructor; intros H; inversion H)
              "x"%string (-9) (-10) ltac:(left; reflexivity) cart_start_x).
Defined.

(** X1.  [observe] changes nothing about a variable its argument does not
    list: position, velocity, acceleration and the four extrema of that
    variable are as before, whatever [dt] and whether or not the call
    raises. *)
Theorem observe_leaves_unlisted_variables (self : QActor)
    (numerical_state : list (string * R)) (dt : R) (other : string) :
  ~ In other (listed numerical_state) ->
  let self' := fst (observe self numerical_state dt) in
  _current_x self' !! other = _current_x self !! other /\
  _current_v self' !! other = _current_v self !! other /\
  _current_a self' !! other = _current_a self !! other /\
  _max_v_pos self' !! other = _max_v_pos self !! other /\
  _max_v_neg self' !! other = _max_v_neg self !! other /\
  _max_a_pos self' !! other = _max_a_pos self !! other /\
  _max_a_neg self' !! other = _max_a_neg self !! other.
Proof.
  intros Hnot. apply (observe_frame numerical_state dt self other Hnot).
Qed.

(** X2.  With [dt <> 0] and a variable listed once, recorded at [x0] and now
    observed at [x]: the call does not raise, the position becomes [x], the
    velocity the difference quotient [(x - x0) / dt], and the acceleration
    the difference quotient of the velocities when a velocity was recorded
    (it is left as it was otherwise). *)
Theorem observe_finite_differences (self : QActor)
    (numerical_state : list (string * R)) (dt : R) (variable : string) (x x0 : R) :
  dt <> 0 ->
  NoDup (listed numerical_state) ->
  In (variable, x) numerical_state ->
  _current_x self !! variable = Some x0 ->
  let self' := fst (observe self numerical_state dt) in
  snd (observe self numerical_state dt) = None /\
  _current_x self' !! variable = Some x /\
  _current_v self' !! variable = Some ((x - x0) / dt) /\
  (forall v0 : R, _current_v self !! variable = Some v0 ->
     _current_a self' !! variable = Some (((x - x0) / dt - v0) / dt)) /\
  (_current_v self !! variable = None ->
     _current_a self' !! variable = _current_a self !! variable).
Proof.
  intros Hdt Hnodup Hin Hx. cbv zeta.
  split; [apply observe_no_exception; exact Hdt|].
  destruct (observe_at numerical_state dt self variable x Hdt Hnodup Hin)
    as [s1 [[A1 [A2 [A3 _]]] [B1 [B2 [B3 _]]]]].
  rewrite <- A1 in Hx. rewrite <- A2, <- A3, B1, B2, B3.
  destruct (observe_variable_own dt s1 variable x Hdt) as [Ox [_ Own]].
  destruct (Own x0 Hx) as [Ov [_ [_ [Onone Osome]]]].
  split; [exact Ox|]. split; [exact Ov|]. split.
  - intros v0 Hv0. apply (Osome v0 Hv0).
  - intros Hnone. apply (Onone Hnone).
Qed.


Lemma observe_new_variables (numerical_state : list (string * R)) (dt : R)
    (self : QActor) :
  NoDup (listed numerical_state) ->
  (forall variable : string,
      In variable (listed numerical_state) -> _current_x self !! variable = None) ->
  let self' := fst (observe self numerical_state dt) in
  snd (observe self numerical_state dt) = None /\
  (forall (variable : string) (x : R),
      In (variable, x) numerical_state -> _current_x self' !! variable = Some x) /\
  _current_v self' = _current_v self /\ _current_a self' = _current_a self /\
  _max_v_pos self' = _max_v_pos self /\ _max_v_neg self' = _max_v_neg self /\
  _max_a_pos self' = _max_a_pos self /\ _max_a_neg self' = _max_a_neg self.
Proof.
  revert self. induction numerical_state as [|[variable x] rest IH];
    intros self Hnodup Hnew; cbv zeta.
  - cbn [observe fst snd]. repeat split. intros variable x [].
  - cbn [listed map fst] in Hnodup. apply NoDup_cons in Hnodup as [Hnot Hnodup].
    cbn [observe].
    rewrite observe_variable_new by (apply Hnew; left; reflexivity).
    set (s1 := set_current_x self (<[variable := x]> (_current_x self))).
    destruct (IH s1 Hnodup) as [Hnone [Hpos Hsame]].
    { intros other Hother. unfold s1. actor_simpl.
      rewrite lookup_insert_ne.
      - apply Hnew. right. exact Hother.
      - intros ->. apply Hnot. apply list_elem_of_In. exact Hother. }
    split; [exact Hnone|]. split; [|exact Hsame].
    intros other y [Heq|Hin].
    + injection Heq as <- <-.
      destruct (observe_frame rest dt s1 variable) as [Hx _].
      { intros H. apply Hnot. apply list_elem_of_In. exact H. }
      rewrite Hx. unfold s1. actor_simpl. apply lookup_insert_eq.
    + apply Hpos. exact Hin.
Qed.

(** X4.  An observation of variables none of which has a recorded position
    (the first one after the constructor, [reset] or [restart]) never raises,
    not even with [dt = 0]: it records the positions and leaves velocities,
    accelerations and the four extrema as they are. *)
Theorem observe_first_samples (self : QActor)
    (numerical_state : list (string * R)) (dt : R) :
  NoDup (listed numerical_state) ->
  (forall variable : string,
      In variable (listed numerical_state) -> _current_x self !! variable = None) ->
  let self' := fst (observe self numerical_state dt) in
  snd (observe self numerical_state dt) = None /\
  (forall (variable : string) (x : R),
      In (variable, x) numerical_state -> _current_x self' !! variable = Some x) /\
  _current_v self' = _current_v self /\ _current_a self' = _current_a self /\
  _max_v_pos self' = _max_v_pos self /\ _max_v_neg self' = _max_v_neg self /\
  _max_a_pos self' = _max_a_pos self /\ _max_a_neg self' = _max_a_neg self.
Proof. apply observe_new_variables. Qed.

(** ** Position before velocity, velocity before acceleration *)

Lemma insert_is_Some (d : gmap string R) (variable other : string) (x : R) :
  is_Some (d !! other) -> is_Some (<[variable := x]> d !! other).
Proof.
  intros H. destruct (decide (variable = other)) as [<-|Hne].
  - rewrite lookup_insert_eq. eexists. reflexivity.
  - rewrite lookup_insert_ne by exact Hne. exact H.
Qed.

Lemma observe_variable_nested (dt : R) (self : QActor) (variable : string) (x : R) :
  samples_nested self -> samples_nested (fst (observe_variable dt self variable x)).
Proof.
  intros Hn.
  destruct (observe_variable_cases dt self variable x)
    as [[e H]|[[o H]|[[v H]|[v [a H]]]]]; rewrite H; cbn [fst]; clear H.
  - exact Hn.
  - intros w. destruct (Hn w) as [Hv Ha]. actor_simpl. split.
    + intros H. apply insert_is_Some. apply Hv. exact H.
    + exact Ha.
  - set (s2 := set_current_v _ _).
    destruct (learn_velocity_current s2 variable v) as [Lx [Lv La]].
    intros w. rewrite Lx, Lv, La. unfold s2. actor_simpl.
    destruct (Hn w) as [Hv Ha]. split.
    + intros H. destruct (decide (variable = w)) as [<-|Hne].
      * rewrite lookup_insert_eq. eexists. reflexivity.
      * rewrite lookup_insert_ne in * by exact Hne. apply Hv. exact H.
    + intros H. apply insert_is_Some. apply Ha. exact H.
  - set (s2 := set_current_v _ _).
    set (s3 := set_current_a _ _).
    destruct (learn_velocity_current s2 variable v) as [Lx [Lv La]].
    destruct (learn_acceleration_keeps s3 variable a) as [Kx [Kv _]].
    destruct (learn_acceleration_extrema s3 variable a) as [_ [_ Ka]].
    intros w. rewrite Kx, Kv, Ka. unfold s3. actor_simpl.
    rewrite Lx, Lv, La. unfold s2. actor_simpl.
    destruct (Hn w) as [Hv Ha]. split.
    + intros H. destruct (decide (variable = w)) as [<-|Hne].
      * rewrite lookup_insert_eq. eexists. reflexivity.
      * rewrite lookup_insert_ne in * by exact Hne. apply Hv. exact H.
    + intros H. destruct (decide (variable = w)) as [<-|Hne].
      * rewrite lookup_insert_eq. eexists. reflexivity.
      * rewrite lookup_insert_ne in * by exact Hne. apply Ha. exact H.
Qed.

Lemma observe_nested (numerical_state : list (string * R)) (dt : R) (self : QActor) :
  samples_nested self -> samples_nested (fst (observe self numerical_state dt)).
Proof.
  revert self. induction numerical_state as [|[variable x] rest IH]; intros self Hn.
  - exact Hn.
  - cbn [observe].
    pose proof (observe_variable_nested dt self variable x Hn) as Hstep.
    destruct (observe_variable dt self variable x) as [self' [e|]]; cbn [fst] in *.
    + exact Hstep.
    + apply IH. exact Hstep.
Qed.

Lemma empty_nested (self : QActor) :
  _current_v self = ∅ -> _current_a self = ∅ -> samples_nested self.
Proof.
  intros Hv Ha w. rewrite Hv, Ha, lookup_empty. split; intros [? H]; discriminate.
Qed.

(** X5.  In every state of an actor, a variable with a recorded velocity has
    a recorded position, and a variable with a recorded acceleration has a
    recorded velocity. *)
Theorem velocity_needs_position (self : QActor) (variable : string) :
  reachable self ->
  (is_Some (_current_v self !! variable) -> is_Some (_current_x self !! variable)) /\
  (is_Some (_current_a self !! variable) -> is_Some (_current_v self !! variable)).
Proof.
  intros [model [calls ->]].
  assert (Hall : forall (calls : list call) (self : QActor),
             samples_nested self -> samples_nested (run self calls)).
  { clear. induction calls as [|c calls IH]; intros self Hn; [exact Hn|].
    cbn [run fold_left]. apply IH. destruct c as [| |numerical_state dt]; cbn [run_call].
    - apply empty_nested; reflexivity.
    - apply empty_nested; reflexivity.
    - apply observe_nested. exact Hn. }
  apply Hall. apply empty_nested; reflexivity.
Qed.

(** * The two directions are treated alike *)

Lemma get_or_mirror (d : gmap string R) (variable : string) :
  get_or (Ropp <$> d) variable 0 = - get_or d variable 0.
Proof.
  unfold get_or. rewrite lookup_fmap.
  destruct (d !! variable); cbn; lra.
Qed.










Lemma mirror_involutive (self : QActor) : mirror (mirror self) = self.
Proof.
  assert (Hopp : forall d : gmap string R, Ropp <$> (Ropp <$> d) = d).
  { intros d. apply map_eq. intros k. rewrite !lookup_fmap.
    destruct (d !! k) as [y|]; cbn; [|reflexivity]. f_equal. lra. }
  destruct self. unfold mirror. actor_simpl. rewrite !Hopp. reflexivity.
Qed.

(** X10.  The estimate for a target is the estimate the mirrored actor makes
    for the mirrored target (the same time, or the same exception), and
    mirroring twice gives the actor back. *)
Theorem eta_mirrored (self : QActor) (variable : string) (x1 : R) :
  _eta (mirror self) variable (- x1) = _eta self variable x1 /\
  mirror (mirror self) = self.
Proof.
  split; [|apply mirror_involutive].
  unfold _eta, getitem.
  change (_current_x (mirror self)) with (Ropp <$> _current_x self).
  change (_current_v (mirror self)) with (Ropp <$> _current_v self).
  rewrite lookup_fmap, get_or_mirror.
  destruct (_current_x self !! variable) as [x|]; [|reflexivity].
  cbn [fmap option_fmap option_map bind]. unfold mirror. actor_simpl.
  destruct (Rgt_dec (x1 - x) 0) as [Hpos|Hnpos];
    destruct (Rgt_dec (- x1 - - x) 0) as [Hpos'|Hnpos']; try lra.
  - destruct (Rlt_dec (- x1 - - x) 0) as [_|H]; [|lra].
    f_equal; lra.
  - destruct (Rlt_dec (x1 - x) 0) as [_|H]; [|lra].
    f_equal; lra.
  - destruct (Rlt_dec (x1 - x) 0); [lra|].
    destruct (Rlt_dec (- x1 - - x) 0); [lra|]. reflexivity.
Qed.

(** * Further properties of the selector *)

Lemma act_of_votes (self : QActor) (target : list (string * R)) (votes : list vote) :
  collect_votes copysign_1 self target = Ok votes ->
  votes <> [] ->
  exists (i : nat) (x : vote),
    act self target = Ok (fst (fst x)) /\ first_greatest votes i x.
Proof.
  intros Hvotes Hne.
  destruct (sorted_reverse_head votes Hne) as [i [x [Hhead Hfirst]]].
  exists i, x. split; [|exact Hfirst].
  unfold act, act_with. rewrite Hvotes. cbn [bind].
  destruct (sorted_reverse votes) as [|x' rest]; [discriminate|].
  cbn [head] in Hhead. injection Hhead as ->. reflexivity.
Qed.

Lemma act_without_votes (self : QActor) (target : list (string * R)) (e : exn) :
  collect_votes copysign_1 self target = Raise e -> act self target = Raise e.
Proof. intros H. unfold act, act_with. rewrite H. reflexivity. Qed.

Lemma collect_first_raises {A B : Type} (f : A -> result B) (a : A) (l : list A)
    (e : exn) :
  f a = Raise e -> collect f (a :: l) = Raise e.
Proof. intros H. cbn [collect]. rewrite H. reflexivity. Qed.

Lemma collect_raises {A B : Type} (f : A -> result B) (l : list A) :
  (exists (a : A) (e : exn), In a l /\ f a = Raise e) ->
  exists e : exn, collect f l = Raise e.
Proof.
  induction l as [|b l' IH]; intros [a [e [Hin Hf]]]; [destruct Hin|].
  cbn [collect]. destruct (f b) as [y|e'] eqn:Hb; [|exists e'; reflexivity].
  cbn [bind]. destruct Hin as [->|Hin]; [congruence|].
  destruct IH as [e' He']; [exists a, e; split; assumption|].
  rewrite He'. exists e'. reflexivity.
Qed.

Lemma collect_length {A B : Type} (f : A -> result B) (l : list A) (ys : list B) :
  collect f l = Ok ys -> length ys = length l.
Proof.
  intros H. apply collect_Ok in H. symmetry. apply (Forall2_length _ _ _ H).
Qed.

(** The tuple [act] stores for an action. *)
Lemma stored_vote (self : QActor) (target : list (string * R)) (votes : list vote)
    (j : nat) :
  collect_votes copysign_1 self target = Ok votes ->
  (forall b : action,
      actions (_model self) (_current_x self) !! j = Some b ->
      exists y : vote, votes !! j = Some y /\ fst (fst y) = b /\
                       candidate_key self target b = Ok (vote_key y)) /\
  (forall y : vote,
      votes !! j = Some y ->
      actions (_model self) (_current_x self) !! j = Some (fst (fst y)) /\
      candidate_key self target (fst (fst y)) = Ok (vote_key y)).
Proof.
  intros Hvotes. rewrite collect_votes_collect in Hvotes.
  apply collect_Ok in Hvotes. split.
  - intros b Hb. destruct (Forall2_lookup_l _ _ _ _ _ Hvotes Hb) as [y [Hy Hfb]].
    exists y. split; [exact Hy|]. apply (candidate_key_stored self target b y Hfb).
  - intros y Hy. destruct (Forall2_lookup_r _ _ _ _ _ Hvotes Hy) as [b [Hb Hfb]].
    destruct (candidate_key_stored self target b y Hfb) as [<- Hkey].
    split; assumption.
Qed.

(** X11.  [act] raises [IndexError] when the model lists no action.  When it
    lists one and some target variable has no recorded position, [act]
    raises; the exception is the [KeyError] of that variable when it is the
    first of the target. *)
Theorem act_raises (self : QActor) (target : list (string * R)) :
  (actions (_model self) (_current_x self) = [] ->
   act self target = Raise IndexError) /\
  (actions (_model self) (_current_x self) <> [] ->
   (exists (variable : string) (x1 : R),
       In (variable, x1) target /\ _current_x self !! variable = None) ->
   exists e : exn, act self target = Raise e) /\
  (actions (_model self) (_current_x self) <> [] ->
   forall (variable : string) (x1 : R) (rest : list (string * R)),
     target = (variable, x1) :: rest ->
     _current_x self !! variable = None ->
     act self target = Raise (KeyError variable)).
Proof.
  assert (Hterm : forall (E : gmap string Z) (variable : string) (x1 : R),
             _current_x self !! variable = None ->
             vote_term copysign_1 self E (variable, x1) = Raise (KeyError variable)).
  { intros E variable x1 Hnone. unfold vote_term, getitem. cbn [fst].
    rewrite Hnone. reflexivity. }
  split; [|split].
  - intros Hempty. unfold act, act_with, collect_votes. rewrite Hempty. reflexivity.
  - intros Hne [variable [x1 [Hin Hnone]]].
    destruct (actions (_model self) (_current_x self)) as [|a0 others] eqn:Hacts;
      [congruence|].
    destruct (collect_raises
                (vote_term copysign_1 self (effect (_model self) a0 (_current_x self)))
                target) as [e He].
    { exists (variable, x1), (KeyError variable). split; [exact Hin|].
      apply Hterm. exact Hnone. }
    exists e. apply act_without_votes. rewrite collect_votes_collect, Hacts.
    apply collect_first_raises. rewrite action_vote_sum, He. reflexivity.
  - intros Hne variable x1 rest -> Hnone.
    destruct (actions (_model self) (_current_x self)) as [|a0 others] eqn:Hacts;
      [congruence|].
    apply act_without_votes. rewrite collect_votes_collect, Hacts.
    apply collect_first_raises. rewrite action_vote_sum.
    rewrite (collect_first_raises _ _ _ _ (Hterm _ variable x1 Hnone)). reflexivity.
Qed.

Lemma vote_at_target (self : QActor) (E : gmap string Z) (target : list (string * R)) :
  (forall item : string * R, In item target ->
     _current_x self !! fst item = Some (snd item) /\ is_Some (E !! fst item)) ->
  exists v : R, action_vote copysign_1 self E target = Ok v /\ v = 0.
Proof.
  intros Hitems. rewrite action_vote_sum.
  assert (Hterms : exists terms : list R,
             collect (vote_term copysign_1 self E) target = Ok terms /\
             fold_right Rplus 0 terms = 0).
  { induction target as [|item rest IH].
    - exists []. split; reflexivity.
    - destruct IH as [terms [Hterms Hsum]].
      { intros it Hit. apply Hitems. right. exact Hit. }
      destruct (Hitems item (or_introl eq_refl)) as [Hx [e He]].
      eexists (_ :: terms). cbn [collect]. unfold vote_term at 1.
      rewrite (getitem_Some _ _ _ Hx), (getitem_Some _ _ _ He),
        (_eta_at_target _ _ _ Hx), Hterms. cbn [bind fold_right].
      split; [reflexivity|]. rewrite Hsum. ring. }
  destruct Hterms as [terms [Hterms Hsum]]. rewrite Hterms. cbn [bind].
  eexists. split; [reflexivity | exact Hsum].
Qed.

(** X14.  When every target variable is at its target value (in particular
    when the target is empty) and every candidate gives it an effect, all
    the votes are 0 and the rank decides: [act] returns the first of the
    candidates with the most entries of magnitude 1. *)
Theorem act_at_target_ranks (self : QActor) (target : list (string * R)) :
  let candidates := actions (_model self) (_current_x self) in
  candidates <> [] ->
  (forall (variable : string) (x1 : R),
      In (variable, x1) target -> _current_x self !! variable = Some x1) ->
  (forall (a : action) (variable : string) (x1 : R),
      In a candidates -> In (variable, x1) target ->
      is_Some (effect (_model self) a (_current_x self) !! variable)) ->
  exists (i : nat) (a : action) (v : R),
    act self target = Ok a /\
    candidates !! i = Some a /\
    candidate_key self target a = Ok (v, action_rank a) /\ v = 0 /\
    forall (j : nat) (b : action),
      candidates !! j = Some b ->
      (action_rank b <= action_rank a)%Z /\
      ((j < i)%nat -> (action_rank b < action_rank a)%Z).
Proof.
  intros candidates Hne Hat Heffect.
  assert (Hcand : forall b : action, In b candidates ->
            exists v : R, candidate_key self target b = Ok (v, action_rank b) /\ v = 0).
  { intros b Hin.
    destruct (vote_at_target self (effect (_model self) b (_current_x self)) target)
      as [v [Hv Hzero]].
    - intros [variable x1] Hitem. cbn [fst snd]. split.
      + apply (Hat variable x1 Hitem).
      + apply (Heffect b variable x1 Hin Hitem).
    - exists v. unfold candidate_key. rewrite Hv. split; [reflexivity | exact Hzero]. }
  destruct (collect_total
              (fun a => let! v := action_vote copysign_1 self
                                    (effect (_model self) a (_current_x self)) target in
                        Ok (a, v, action_rank a)) candidates) as [votes Hvotes].
  { intros b Hin. destruct (Hcand b Hin) as [v [Hkey _]].
    unfold candidate_key in Hkey.
    destruct (action_vote copysign_1 self _ target) as [w|e]; [|discriminate].
    cbn [bind]. eexists. reflexivity. }
  assert (Hvotes' : collect_votes copysign_1 self target = Ok votes).
  { rewrite collect_votes_collect. exact Hvotes. }
  assert (Hvne : votes <> []).
  { intros ->. apply collect_length in Hvotes. destruct candidates; [congruence|].
    discriminate. }
  destruct (act_of_votes self target votes Hvotes' Hvne)
    as [i [x [Hact [Hi [Hmax Hfirst]]]]].
  destruct (proj2 (stored_vote self target votes i Hvotes') x Hi) as [Hai Hkey].
  assert (Hin : In (fst (fst x)) candidates).
  { apply list_elem_of_In. apply list_elem_of_lookup. exists i. exact Hai. }
  destruct (Hcand _ Hin) as [v [Hkv Hv]].
  assert (Hkx : vote_key x = (v, action_rank (fst (fst x)))) by congruence.
  exists i, (fst (fst x)), v.
  split; [exact Hact|]. split; [exact Hai|]. split; [exact Hkv|]. split; [exact Hv|].
  intros j b Hj.
  destruct (proj1 (stored_vote self target votes j Hvotes') b Hj) as [y [Hy [_ Hkb]]].
  assert (Hinb : In b candidates).
  { apply list_elem_of_In. apply list_elem_of_lookup. exists j. exact Hj. }
  destruct (Hcand b Hinb) as [w [Hkw Hw]].
  assert (Hky : vote_key y = (w, action_rank b)) by congruence.
  split.
  - pose proof (Hmax j y Hy) as Hle. rewrite Hky, Hkx in Hle.
    destruct Hle as [[Hlt|[_ Hlt]]|Heq]; cbn [fst snd] in *.
    + lra.
    + lia.
    + injection Heq as _ ->. lia.
  - intros Hlt. pose proof (Hfirst j y Hlt Hy) as Hklt. rewrite Hky, Hkx in Hklt.
    destruct Hklt as [Hv'|[_ Hr]]; cbn [fst snd] in *; [lra | exact Hr].
Qed.

(** * The cart example *)

Lemma cart_nodup (y z : R) : NoDup (listed [("x"%string, y); ("v"%string, z)]).
Proof.
  cbn. apply NoDup_cons. split.
  - intros H. apply list_elem_of_In in H. destruct H as [H|[]]. discriminate.
  - apply NoDup_cons. split; [intros H; inversion H | apply NoDup_nil; exact I].
Qed.

(** * The lander example *)

Lemma lander_effect_Ok (m1 m2 m3 : Z) :
  LanderModel_effect [("m1"%string, m1); ("m2"%string, m2); ("m3"%string, m3)] =
  Ok {[ "x"%string := resolve_ax m1 m3; "vx"%string := resolve_ax m1 m3;
        "y"%string := m2; "vy"%string := m2;
        "r"%string := resolve_ar m1 m3; "vr"%string := resolve_ar m1 m3 ]}.
Proof. reflexivity. Qed.

(** X17.  The effect of a lander action with entries [m1], [m2], [m3] gives
    [x] and [vx] one value, [y] and [vy] the value [m2], [r] and [vr] one
    value, and nothing else.  For side engines in {-1, 0, 1} the horizontal
    and the angular value are opposite, except when both engines are on in
    the same direction, where both are the non-deterministic -2; otherwise
    they are in {-1, 0, 1}.  An action without the entry [m1] raises
    [KeyError]. *)
Theorem lander_effect_resolved (m1 m2 m3 : Z) :
  (exists E : gmap string Z,
      LanderModel_effect [("m1"%string, m1); ("m2"%string, m2); ("m3"%string, m3)]
      = Ok E /\
      E !! "x"%string = Some (resolve_ax m1 m3) /\
      E !! "vx"%string = Some (resolve_ax m1 m3) /\
      E !! "y"%string = Some m2 /\ E !! "vy"%string = Some m2 /\
      E !! "r"%string = Some (resolve_ar m1 m3) /\
      E !! "vr"%string = Some (resolve_ar m1 m3) /\
      forall variable : string,
        is_Some (E !! variable) ->
        In variable ["x"; "vx"; "y"; "vy"; "r"; "vr"]%string) /\
  ((Z.abs m1 <= 1)%Z -> (Z.abs m3 <= 1)%Z ->
   ((m1 * m3 > 0)%Z -> resolve_ax m1 m3 = (-2)%Z /\ resolve_ar m1 m3 = (-2)%Z) /\
   ((m1 * m3 <= 0)%Z ->
    resolve_ar m1 m3 = (- resolve_ax m1 m3)%Z /\ (Z.abs (resolve_ax m1 m3) <= 1)%Z)) /\
  (forall qualitative_action : action,
      (list_to_map qualitative_action : gmap string Z) !! "m1"%string = None ->
      LanderModel_effect qualitative_action = Raise (KeyError "m1")).
Proof.
  split; [|split].
  - eexists. split; [apply lander_effect_Ok|].
    repeat (split; [reflexivity|]).
    intros variable [z Hz].
    repeat (apply lookup_insert_Some in Hz as [[<- _]|[_ Hz]];
            [cbn; tauto|]).
    apply lookup_singleton_Some in Hz as [<- _]. cbn. tauto.
  - intros H1 H3.
    assert (Hm1 : m1 = (-1)%Z \/ m1 = 0%Z \/ m1 = 1%Z) by lia.
    assert (Hm3 : m3 = (-1)%Z \/ m3 = 0%Z \/ m3 = 1%Z) by lia.
    destruct Hm1 as [-> | [-> | ->]]; destruct Hm3 as [-> | [-> | ->]];
      cbn; split; intros; try split; lia.
  - intros qualitative_action Hnone. unfold LanderModel_effect, getitem.
    rewrite Hnone. reflexivity.
Qed.

(** * Further invariants and edge cases *)

(** X20.  [act] reads the model, the positions, and of the rest of the
    estimator only the entries of the target variables: two actors that
    agree on these make the same decision (or raise the same exception). *)
Theorem act_reads_only_target_variables (s1 s2 : QActor)
    (target : list (string * R)) :
  _model s1 = _model s2 ->
  _current_x s1 = _current_x s2 ->
  (forall variable : string, In variable (listed target) ->
     _current_v s1 !! variable = _current_v s2 !! variable /\
     _max_v_pos s1 !! variable = _max_v_pos s2 !! variable /\
     _max_v_neg s1 !! variable = _max_v_neg s2 !! variable /\
     _max_a_pos s1 !! variable = _max_a_pos s2 !! variable /\
     _max_a_neg s1 !! variable = _max_a_neg s2 !! variable) ->
  act s1 target = act s2 target.
Proof.
  intros Hmodel Hx Hsame. unfold act, act_with.
  rewrite !collect_votes_collect, Hmodel, Hx.
  rewrite (collect_ext _
    (fun a => let! v := action_vote copysign_1 s2
                          (effect (_model s2) a (_current_x s2)) target in
              Ok (a, v, action_rank a))); [reflexivity|].
  intros a _. rewrite !action_vote_sum.
  rewrite (collect_ext (vote_term copysign_1 s1 _) (vote_term copysign_1 s2
             (effect (_model s2) a (_current_x s2)))); [reflexivity|].
  intros item Hitem. unfold vote_term. rewrite Hx.
  assert (Heta : _eta s1 (fst item) (snd item) = _eta s2 (fst item) (snd item)).
  { destruct (Hsame (fst item)) as [B2 [B4 [B5 [B6 B7]]]].
    - unfold listed. apply in_map. exact Hitem.
    - unfold _eta, getitem, get_or. rewrite Hx, B2, B4, B5, B6, B7.
      reflexivity. }
  rewrite Heta. reflexivity.
Qed.

(** * The further properties on the examples *)

Lemma observe_leaves_unlisted_variables_witness :
  _current_x (fst (observe cart_start [("x"%string, -9)] 1)) !! "v"%string
  = _current_x cart_start !! "v"%string.
Proof.
  apply (observe_leaves_unlisted_variables cart_start [("x"%string, -9)] 1 "v"%string).
  intros [H|[]]. discriminate.
Defined.

Lemma observe_finite_differences_witness :
  _current_v (fst (observe cart_start [("x"%string, -9); ("v"%string, 1)] 1))
    !! "x"%string
  = Some ((-9 - -10) / 1).
Proof.
  apply (observe_finite_differences cart_start [("x"%string, -9); ("v"%string, 1)] 1
           "x"%string (-9) (-10)).
  - lra.
  - apply cart_nodup.
  - left. reflexivity.
  - exact cart_start_x.
Defined.


Lemma observe_first_samples_witness :
  snd (observe (restart cart_moving) [("x"%string, 0); ("v"%string, 0)] 0) = None.
Proof.
  apply (observe_first_samples (restart cart_moving)
           [("x"%string, 0); ("v"%string, 0)] 0).
  - apply cart_nodup.
  - intros variable _. apply lookup_empty.
Defined.

Lemma cart_moving_velocity_x : _current_v cart_moving !! "x"%string = Some 1.
Proof.
  rewrite cart_moving_state. actor_simpl.
  rewrite lookup_insert_ne by discriminate. apply lookup_singleton_eq.
Qed.

Lemma velocity_needs_position_witness :
  is_Some (_current_x cart_moving !! "x"%string).
Proof.
  apply (velocity_needs_position cart_moving "x"%string cart_moving_reachable).
  exists 1. exact cart_moving_velocity_x.
Defined.

Lemma cart_start_y : _current_x cart_start !! "y"%string = None.
Proof.
  rewrite cart_start_state. actor_simpl.
  rewrite lookup_insert_ne by discriminate. apply lookup_singleton_ne. discriminate.
Qed.

Lemma cart_start_candidates :
  actions (_model cart_start) (_current_x cart_start) <> [].
Proof. rewrite cart_start_state. discriminate. Qed.

Lemma act_raises_witness :
  act (__init__ QModel_base) [("x"%string, 0)] = Raise IndexError /\
  act cart_start [("y"%string, 0)] = Raise (KeyError "y").
Proof.
  split.
  - apply (proj1 (act_raises (__init__ QModel_base) [("x"%string, 0)])). reflexivity.
  - apply (proj2 (proj2 (act_raises cart_start [("y"%string, 0)]))
             cart_start_candidates "y"%string 0 [] eq_refl cart_start_y).
Defined.

Lemma cart_ranks :
  action_rank [("F"%string, (-1)%Z)] = 1%Z /\
  action_rank [("F"%string, 0%Z)] = 0%Z /\
  action_rank [("F"%string, 1%Z)] = 1%Z.
Proof.
  unfold action_rank. cbn [fold_left snd].
  destruct (Z.eq_dec (Z.abs (-1)) 1%Z) as [_|H]; [|exfalso; apply H; reflexivity].
  destruct (Z.eq_dec (Z.abs 0) 1%Z) as [H|_]; [discriminate H|].
  destruct (Z.eq_dec (Z.abs 1) 1%Z) as [_|H]; [|exfalso; apply H; reflexivity].
  repeat split.
Qed.

Lemma act_at_target_ranks_witness :
  act cart_start [("x"%string, -10); ("v"%string, 0)] = Ok [("F"%string, (-1)%Z)].
Proof.
  destruct (act_at_target_ranks cart_start [("x"%string, -10); ("v"%string, 0)])
    as [i [a [v [Hact [Hi [_ [_ Hrank]]]]]]].
  - exact cart_start_candidates.
  - intros variable x1 [H|[H|[]]]; injection H as <- <-;
      [exact cart_start_x | exact cart_start_v].
  - intros a variable x1 Ha Hitem.
    apply (cart_effect_covers a variable 0 Ha).
    destruct Hitem as [H|[H|[]]]; injection H as <- _; [left | right; left]; reflexivity.
  - rewrite Hact. f_equal.
    assert (Hacts : actions (_model cart_start) (_current_x cart_start)
                    = [[("F"%string, (-1)%Z)]; [("F"%string, 0%Z)]; [("F"%string, 1%Z)]])
      by (rewrite cart_start_state; reflexivity).
    rewrite Hacts in *.
    destruct (Hrank 0%nat [("F"%string, (-1)%Z)] eq_refl) as [Hle Hlt].
    destruct i as [|[|[|i]]]; cbn in Hi; try discriminate; injection Hi as <-.
    + reflexivity.
    + exfalso. specialize (Hlt ltac:(lia)).
      destruct cart_ranks as [R1 [R2 R3]]. rewrite R1, R2 in Hlt. lia.
    + exfalso. specialize (Hlt ltac:(lia)).
      destruct cart_ranks as [R1 [R2 R3]]. rewrite R1, R3 in Hlt. lia.
Defined.

Lemma lander_effect_resolved_witness :
  (resolve_ax 1 1 = (-2)%Z /\ resolve_ar 1 1 = (-2)%Z) /\
  (resolve_ar 1 0 = (- resolve_ax 1 0)%Z /\ (Z.abs (resolve_ax 1 0) <= 1)%Z).
Proof.
  split.
  - apply (proj1 (proj2 (lander_effect_resolved 1 0 1))); cbn; lia.
  - apply (proj1 (proj2 (lander_effect_resolved 1 0 0))); cbn; lia.
Defined.

Lemma act_reads_only_target_variables_witness :
  act cart_start [("x"%string, 0)]
  = act (set_current_v cart_start {["v"%string := 3]}) [("x"%string, 0)].
Proof.
  apply (act_reads_only_target_variables cart_start
           (set_current_v cart_start {["v"%string := 3]}) [("x"%string, 0)]).
  - reflexivity.
  - reflexivity.
  - intros variable [<-|[]]. rewrite cart_start_state. actor_simpl.
    rewrite lookup_empty, lookup_singleton_ne by discriminate. repeat split.
Defined.


(** * Properties of the program on binary64 floats *)

(** The properties that depend on what floats do (a NaN vote, the
    [OverflowError] of [**], a NaN extremum) are stated on the functions of
    [Binary64].  Where a theorem is about every C library, [pow_2] is any
    function; the examples are evaluated with [rounded_square]. *)

Module Binary64Facts.

Import Floats.
Import Binary64.
Local Open Scope float_scope.

(** ** The order of floats *)

Lemma lex_compare_spec (a b : Z * Z * Z) :
  match lex_compare a b with
  | Eq => a = b
  | Lt => (fst (fst a) < fst (fst b) \/
           (fst (fst a) = fst (fst b) /\
            (snd (fst a) < snd (fst b) \/
             (snd (fst a) = snd (fst b) /\ snd a < snd b))))%Z
  | Gt => (fst (fst b) < fst (fst a) \/
           (fst (fst b) = fst (fst a) /\
            (snd (fst b) < snd (fst a) \/
             (snd (fst b) = snd (fst a) /\ snd b < snd a))))%Z
  end.
Proof.
  destruct a as [[a1 a2] a3], b as [[b1 b2] b3]. unfold lex_compare. cbn [fst snd].
  destruct (Z.compare_spec a1 b1); [|lia|lia].
  destruct (Z.compare_spec a2 b2); [|lia|lia].
  destruct (Z.compare_spec a3 b3); [|lia|lia].
  congruence.
Qed.

Lemma SFcompare_rank (x y : spec_float) :
  SFcompare x y =
  match sf_rank x, sf_rank y with
  | Some a, Some b => Some (lex_compare a b)
  | _, _ => None
  end.
Proof.
  destruct x as [s1|s1| |s1 m1 e1], y as [s2|s2| |s2 m2 e2];
    try destruct s1; try destruct s2; try reflexivity;
    cbn [SFcompare sf_rank lex_compare fst snd Z.compare Pos.compare CompOpp];
    try reflexivity.
  unfold lex_compare. cbn [fst snd].
  change ((-1 ?= -1)%Z) with Eq. cbv iota.
  rewrite Z.compare_opp, (Z.compare_antisym e1 e2).
  destruct (e1 ?= e2)%Z; reflexivity.
Qed.

Lemma lex_compare_refl (a : Z * Z * Z) : lex_compare a a = Eq.
Proof.
  destruct a as [[a1 a2] a3]. unfold lex_compare. cbn [fst snd].
  rewrite !Z.compare_refl. reflexivity.
Qed.

Lemma ltb_rank (x y : float) :
  (x <? y) =
  match rank x, rank y with
  | Some a, Some b => match lex_compare a b with Lt => true | _ => false end
  | _, _ => false
  end.
Proof.
  rewrite ltb_spec. unfold SFltb, rank. rewrite SFcompare_rank.
  destruct (sf_rank (Prim2SF x)), (sf_rank (Prim2SF y)); reflexivity.
Qed.

Lemma eqb_rank (x y : float) :
  (x =? y) =
  match rank x, rank y with
  | Some a, Some b => match lex_compare a b with Eq => true | _ => false end
  | _, _ => false
  end.
Proof.
  rewrite eqb_spec. unfold SFeqb, rank. rewrite SFcompare_rank.
  destruct (sf_rank (Prim2SF x)), (sf_rank (Prim2SF y)); reflexivity.
Qed.

Lemma leb_rank (x y : float) :
  (x <=? y) =
  match rank x, rank y with
  | Some a, Some b => match lex_compare a b with Gt => false | _ => true end
  | _, _ => false
  end.
Proof.
  rewrite leb_spec. unfold SFleb, rank. rewrite SFcompare_rank.
  destruct (sf_rank (Prim2SF x)), (sf_rank (Prim2SF y)); [|reflexivity..].
  destruct (lex_compare _ _); reflexivity.
Qed.

Lemma is_nan_rank (x : float) :
  is_nan x = match rank x with Some _ => false | None => true end.
Proof.
  unfold is_nan. rewrite eqb_rank. destruct (rank x) as [a|]; [|reflexivity].
  rewrite lex_compare_refl. reflexivity.
Qed.

(** Comparisons of floats as comparisons of integers. *)
Ltac float_order :=
  rewrite ?ltb_rank, ?leb_rank, ?eqb_rank, ?is_nan_rank in *;
  repeat match goal with
         | H : context [rank ?x] |- _ =>
           is_var x; destruct (rank x) as [[[? ?] ?]|]
         | |- context [rank ?x] =>
           is_var x; destruct (rank x) as [[[? ?] ?]|]
         end;
  repeat match goal with
         | H : context [lex_compare ?a ?b] |- _ =>
           let S := fresh in
           pose proof (lex_compare_spec a b) as S;
           destruct (lex_compare a b); cbn [fst snd] in S
         | |- context [lex_compare ?a ?b] =>
           let S := fresh in
           pose proof (lex_compare_spec a b) as S;
           destruct (lex_compare a b); cbn [fst snd] in S
         end;
  simplify_eq; try tauto; try lia.

Lemma ltb_trans (x y z : float) :
  (x <? y) = true -> (y <? z) = true -> (x <? z) = true.
Proof. intros H1 H2. float_order. Qed.

Lemma eqb_ltb_trans (x y z : float) :
  (x =? y) = true -> (y <? z) = true -> (x <? z) = true.
Proof. intros H1 H2. float_order. Qed.

Lemma ltb_eqb_trans (x y z : float) :
  (x <? y) = true -> (y =? z) = true -> (x <? z) = true.
Proof. intros H1 H2. float_order. Qed.

Lemma eqb_trans (x y z : float) :
  (x =? y) = true -> (y =? z) = true -> (x =? z) = true.
Proof. intros H1 H2. float_order. Qed.

Lemma eqb_sym (x y : float) : (x =? y) = true -> (y =? x) = true.
Proof. intros H. float_order. Qed.

Lemma eqb_refl (x : float) : is_nan x = false -> (x =? x) = true.
Proof. unfold is_nan. destruct (x =? x); [reflexivity | discriminate]. Qed.

Lemma ltb_irrefl (x : float) : (x <? x) = false.
Proof. float_order. all: rewrite lex_compare_refl; reflexivity. Qed.

Lemma ltb_total (x y : float) :
  is_nan x = false -> is_nan y = false -> (x <? y) = false ->
  (y <? x) = true \/ (y =? x) = true.
Proof. intros Hx Hy H. float_order. Qed.

Lemma leb_ltb_eqb (x y : float) : (x <=? y) = (x <? y) || (x =? y).
Proof. float_order. Qed.

Lemma ltb_asym (x y : float) : (x <? y) = true -> (y <? x) = false.
Proof. intros H. float_order. Qed.

Lemma ltb_not_eqb (x y : float) : (x <? y) = true -> (x =? y) = false.
Proof. intros H. float_order. Qed.

Lemma ltb_not_nan (x y : float) :
  (x <? y) = true -> is_nan x = false /\ is_nan y = false.
Proof. intros H. float_order. Qed.

Lemma eqb_not_nan (x y : float) :
  (x =? y) = true -> is_nan x = false /\ is_nan y = false.
Proof. intros H. float_order. Qed.

Lemma ltb_not_leb (x y : float) : (x <? y) = true -> (y <=? x) = false.
Proof. intros H. float_order. Qed.

Lemma leb_not_ltb (x y : float) : (x <=? y) = true -> (y <? x) = false.
Proof. intros H. float_order. Qed.

Lemma not_ltb_leb (x y : float) :
  is_nan x = false -> is_nan y = false -> (y <? x) = false -> (x <=? y) = true.
Proof. intros Hx Hy H. float_order. Qed.

Lemma leb_refl (x : float) : is_nan x = false -> (x <=? x) = true.
Proof. intros H. float_order. all: rewrite lex_compare_refl in *; reflexivity || discriminate. Qed.

(** ** Magnitude and negation *)

Lemma abs_pos (v : float) : (0 <? v) = true -> abs v = v.
Proof.
  intros H. apply Prim2SF_inj. rewrite abs_spec. rewrite ltb_spec in H.
  change (Prim2SF 0) with (S754_zero false) in H.
  destruct (Prim2SF v) as [s|s| |s m e]; try destruct s; try discriminate; reflexivity.
Qed.

Lemma abs_neg (v : float) : (v <? 0) = true -> abs v = - v.
Proof.
  intros H. apply Prim2SF_inj. rewrite abs_spec, opp_spec. rewrite ltb_spec in H.
  change (Prim2SF 0) with (S754_zero false) in H.
  destruct (Prim2SF v) as [s|s| |s m e]; try destruct s; try discriminate; reflexivity.
Qed.

Lemma opp_pos (v : float) : (0 <? - v) = (v <? 0).
Proof.
  rewrite !ltb_spec, opp_spec.
  change (Prim2SF 0) with (S754_zero false).
  destruct (Prim2SF v) as [s|s| |s m e]; try destruct s; reflexivity.
Qed.

Lemma opp_neg (v : float) : (- v <? 0) = (0 <? v).
Proof.
  rewrite !ltb_spec, opp_spec.
  change (Prim2SF 0) with (S754_zero false).
  destruct (Prim2SF v) as [s|s| |s m e]; try destruct s; reflexivity.
Qed.

(** The magnitude of a sample that is not zero is above zero or NaN. *)
Lemma abs_magnitude (v : float) :
  (v =? 0) = false -> (0 <? abs v) = true \/ is_nan (abs v) = true.
Proof.
  unfold is_nan. rewrite !ltb_spec, !eqb_spec, abs_spec.
  change (Prim2SF 0) with (S754_zero false).
  destruct (Prim2SF v) as [s|s| |s m e]; try destruct s; cbn; intros H;
    try discriminate; auto.
Qed.

Lemma abs_is_nan (v : float) : is_nan (abs v) = is_nan v.
Proof.
  unfold is_nan. rewrite !eqb_spec, abs_spec.
  destruct (Prim2SF v) as [s|s| |s m e]; try destruct s; cbn; try reflexivity.
  all: rewrite ?Z.compare_refl, ?Pos.compare_cont_refl; reflexivity.
Qed.

(** The sign of a sample that is neither zero nor above zero. *)
Lemma below_or_nan (v : float) :
  (v =? 0) = false -> (0 <? v) = false -> (v <? 0) = true \/ is_nan v = true.
Proof.
  unfold is_nan. rewrite !ltb_spec, !eqb_spec.
  change (Prim2SF 0) with (S754_zero false).
  destruct (Prim2SF v) as [s|s| |s m e]; try destruct s; cbn; intros H1 H2;
    try discriminate; auto.
Qed.

Lemma eqb_zero (x : float) : (x =? 0) = true -> x = 0 \/ x = -0.
Proof.
  rewrite eqb_spec. change (Prim2SF 0) with (S754_zero false). intros H.
  destruct (Prim2SF x) as [s|s| |s m e] eqn:Hx; try destruct s; try discriminate.
  - right. apply Prim2SF_inj. rewrite Hx. reflexivity.
  - left. apply Prim2SF_inj. rewrite Hx. reflexivity.
Qed.

Lemma double_zero (x : float) : (x =? 0) = true -> (2 * x =? 0) = true.
Proof. intros H. destruct (eqb_zero x H) as [-> | ->]; reflexivity. Qed.

Lemma zero_not_pos (x : float) : (x =? 0) = true -> (0 <? x) = false /\ (x <? 0) = false.
Proof. intros H. destruct (eqb_zero x H) as [-> | ->]; split; reflexivity. Qed.

(** ** The learned extrema *)

Ltac actor_simpl :=
  cbn [set_current_x set_current_v set_current_a set_max_v_pos set_max_v_neg
       set_max_a_pos set_max_a_neg reset restart __init__
       _model _current_x _current_v _current_a
       _max_v_pos _max_v_neg _max_a_pos _max_a_neg] in *.

Lemma float_update_max_other (d : gmap string float) (variable other : string) (v : float) :
  variable <> other -> update_max d variable v !! other = d !! other.
Proof.
  intros Hne. unfold update_max.
  destruct (d !! variable) as [m|]; [destruct (m <? abs v)|];
    rewrite ?lookup_insert_ne by exact Hne; reflexivity.
Qed.

Lemma update_max_own (d : gmap string float) (variable : string) (v : float) :
  update_max d variable v !! variable =
  Some (match d !! variable with
        | Some m => if m <? abs v then abs v else m
        | None => abs v
        end).
Proof.
  unfold update_max.
  destruct (d !! variable) as [m|] eqn:Hm; [destruct (m <? abs v)|];
    rewrite ?lookup_insert_eq; [reflexivity | exact Hm | reflexivity].
Qed.

Lemma update_max_lookup (d : gmap string float) (variable other : string)
    (v value : float) :
  update_max d variable v !! other = Some value ->
  d !! other = Some value \/ (other = variable /\ value = abs v).
Proof.
  destruct (decide (variable = other)) as [<-|Hne].
  - rewrite update_max_own. intros H. injection H as <-.
    destruct (d !! variable) as [m|]; [destruct (m <? abs v)|]; auto.
  - rewrite float_update_max_other by exact Hne. auto.
Qed.

Lemma float_update_max_magnitudes (d : gmap string float) (variable : string) (v : float) :
  magnitudes d -> (0 <? v) = true -> magnitudes (update_max d variable v).
Proof.
  intros Hd Hv other value H.
  destruct (update_max_lookup d variable other v value H) as [Hold|[_ ->]].
  - apply (Hd other value Hold).
  - rewrite (abs_pos v Hv). exact Hv.
Qed.

Lemma update_max_magnitudes_or_nan (d : gmap string float) (variable : string)
    (v : float) :
  magnitudes_or_nan d -> (v =? 0) = false -> magnitudes_or_nan (update_max d variable v).
Proof.
  intros Hd Hv other value H.
  destruct (update_max_lookup d variable other v value H) as [Hold|[_ ->]].
  - apply (Hd other value Hold).
  - apply (abs_magnitude v Hv).
Qed.

Lemma update_max_bound_pos (d : gmap string float) (variable : string) (v : float) :
  magnitudes d -> (0 <? v) = true ->
  exists m : float, update_max d variable v !! variable = Some m /\ (v <=? m) = true.
Proof.
  intros Hd Hv. rewrite update_max_own. eexists. split; [reflexivity|].
  rewrite (abs_pos v Hv).
  destruct (ltb_not_nan 0 v Hv) as [_ Hnan].
  destruct (d !! variable) as [m|] eqn:Hm; [|apply leb_refl; exact Hnan].
  destruct (m <? v) eqn:Hlt; [apply leb_refl; exact Hnan|].
  apply not_ltb_leb; [exact Hnan | | exact Hlt].
  apply (ltb_not_nan 0 m). apply (Hd variable m Hm).
Qed.

Lemma update_max_bound_neg (d : gmap string float) (variable : string) (v : float) :
  (v <? 0) = true ->
  exists m : float, update_max d variable v !! variable = Some m /\
                    ((abs v <=? m) = true \/ is_nan m = true).
Proof.
  intros Hv. rewrite update_max_own. eexists. split; [reflexivity|].
  assert (Hnan : is_nan (abs v) = false).
  { rewrite abs_is_nan. apply (ltb_not_nan v 0 Hv). }
  destruct (d !! variable) as [m|] eqn:Hm; [|left; apply leb_refl; exact Hnan].
  destruct (m <? abs v) eqn:Hlt; [left; apply leb_refl; exact Hnan|].
  destruct (is_nan m) eqn:Hm_nan; [right; reflexivity|].
  left. apply not_ltb_leb; assumption.
Qed.

(** ** One iteration of [observe] keeps the invariant *)

Lemma velocity_bounded_insert (self self' : QActor) (variable : string) (v : float) :
  velocity_bounded self ->
  _current_v self' = <[variable := v]> (_current_v self) ->
  (forall other : string, variable <> other ->
     _max_v_pos self' !! other = _max_v_pos self !! other /\
     _max_v_neg self' !! other = _max_v_neg self !! other) ->
  ((0 <? v) = true ->
   exists m : float, _max_v_pos self' !! variable = Some m /\ (v <=? m) = true) ->
  ((v <? 0) = true ->
   exists m : float, _max_v_neg self' !! variable = Some m /\
                     ((abs v <=? m) = true \/ is_nan m = true)) ->
  velocity_bounded self'.
Proof.
  intros Hb Hcv Hother Hpos Hneg other w Hw. rewrite Hcv in Hw.
  destruct (decide (variable = other)) as [<-|Hne].
  - rewrite lookup_insert_eq in Hw. injection Hw as <-. split; assumption.
  - rewrite lookup_insert_ne in Hw by exact Hne.
    destruct (Hother other Hne) as [-> ->]. apply (Hb other w Hw).
Qed.

Lemma store_velocity_invariant (self : QActor) (variable : string) (v : float) :
  estimator_invariant self ->
  estimator_invariant
    (learn_velocity (set_current_v self (<[variable := v]> (_current_v self)))
                    variable v).
Proof.
  intros [Pv [Pa [Nv [Na Hb]]]]. unfold learn_velocity.
  destruct (v =? 0) eqn:Hzero; [|destruct (0 <? v) eqn:Hpos].
  - destruct (zero_not_pos v Hzero) as [Z1 Z2].
    split; [exact Pv|]. split; [exact Pa|]. split; [exact Nv|]. split; [exact Na|].
    apply (velocity_bounded_insert self _ variable v Hb); actor_simpl.
    + reflexivity.
    + intros other _. split; reflexivity.
    + congruence.
    + congruence.
  - split; [apply float_update_max_magnitudes; assumption|].
    split; [exact Pa|]. split; [exact Nv|]. split; [exact Na|].
    apply (velocity_bounded_insert self _ variable v Hb); actor_simpl.
    + reflexivity.
    + intros other Hne. rewrite float_update_max_other by exact Hne. split; reflexivity.
    + intros _. apply update_max_bound_pos; assumption.
    + rewrite (ltb_asym _ _ Hpos). discriminate.
  - split; [exact Pv|]. split; [exact Pa|].
    split; [apply update_max_magnitudes_or_nan; assumption|]. split; [exact Na|].
    apply (velocity_bounded_insert self _ variable v Hb); actor_simpl.
    + reflexivity.
    + intros other Hne. rewrite float_update_max_other by exact Hne. split; reflexivity.
    + congruence.
    + apply update_max_bound_neg.
Qed.

Lemma store_acceleration_invariant (self : QActor) (variable : string) (a : float) :
  estimator_invariant self ->
  estimator_invariant
    (learn_acceleration (set_current_a self (<[variable := a]> (_current_a self)))
                        variable a).
Proof.
  intros [Pv [Pa [Nv [Na Hb]]]]. unfold learn_acceleration.
  destruct (a =? 0) eqn:Hzero; [|destruct (0 <? a) eqn:Hpos].
  - repeat (split; [assumption|]). exact Hb.
  - split; [exact Pv|]. split; [apply float_update_max_magnitudes; assumption|].
    split; [exact Nv|]. split; [exact Na|]. exact Hb.
  - split; [exact Pv|]. split; [exact Pa|]. split; [exact Nv|].
    split; [apply update_max_magnitudes_or_nan; assumption|]. exact Hb.
Qed.

Lemma observe_variable_invariant (dt : float) (self : QActor) (variable : string)
    (x : float) :
  estimator_invariant self ->
  estimator_invariant (fst (observe_variable dt self variable x)).
Proof.
  intros Hinv. unfold observe_variable.
  destruct (difference_quotient (_current_x self) variable x dt) as [[v|]|e];
    cbn [fst]; [| exact Hinv | exact Hinv].
  actor_simpl.
  destruct (difference_quotient (_current_v self) variable v dt) as [[a|]|e];
    cbn [fst].
  - apply (store_acceleration_invariant _ variable a).
    apply (store_velocity_invariant
             (set_current_x self (<[variable := x]> (_current_x self))) variable v).
    exact Hinv.
  - apply (store_velocity_invariant
             (set_current_x self (<[variable := x]> (_current_x self))) variable v).
    exact Hinv.
  - exact Hinv.
Qed.

Lemma observe_invariant (numerical_state : list (string * float)) (dt : float)
    (self : QActor) :
  estimator_invariant self ->
  estimator_invariant (fst (observe self numerical_state dt)).
Proof.
  revert self. induction numerical_state as [|[variable x] rest IH]; intros self Hinv.
  - exact Hinv.
  - cbn [observe].
    pose proof (observe_variable_invariant dt self variable x Hinv) as Hstep.
    destruct (observe_variable dt self variable x) as [self' [e|]]; cbn [fst] in *.
    + exact Hstep.
    + apply IH. exact Hstep.
Qed.

Lemma empty_invariant (model : QModel) (cx ca : gmap string float) :
  estimator_invariant (mkQActor model cx ∅ ca ∅ ∅ ∅ ∅).
Proof.
  repeat split; actor_simpl; try (intros variable value H; rewrite lookup_empty in H;
    discriminate); rewrite lookup_empty in H; discriminate.
Qed.

Lemma run_invariant (calls : list call) (self : QActor) :
  estimator_invariant self -> estimator_invariant (run self calls).
Proof.
  revert self. induction calls as [|c calls IH]; intros self Hinv; [exact Hinv|].
  cbn [run fold_left]. apply IH. destruct c as [| |numerical_state dt]; cbn [run_call].
  - apply empty_invariant.
  - destruct Hinv as [Pv [Pa [Nv [Na _]]]]. unfold restart.
    repeat (split; [assumption|]).
    intros variable v H. actor_simpl. rewrite lookup_empty in H. discriminate.
  - apply observe_invariant. exact Hinv.
Qed.

Lemma reachable_invariant (model : QModel) (calls : list call) :
  estimator_invariant (run (__init__ model) calls).
Proof. apply run_invariant. apply empty_invariant. Qed.

(** ** The speeds handed to the solver *)

Lemma get_or_magnitude (d : gmap string float) (variable : string) :
  magnitudes d -> (0 <? get_or d variable 1) = true.
Proof.
  intros Hd. unfold get_or. destruct (d !! variable) as [m|] eqn:Hm.
  - apply (Hd _ _ Hm).
  - reflexivity.
Qed.

Lemma get_or_magnitude_or_nan (d : gmap string float) (variable : string) :
  magnitudes_or_nan d ->
  (0 <? get_or d variable 1) = true \/ is_nan (get_or d variable 1) = true.
Proof.
  intros Hd. unfold get_or. destruct (d !! variable) as [m|] eqn:Hm.
  - apply (Hd _ _ Hm).
  - left. reflexivity.
Qed.

Lemma eta_call_speed (self : QActor) (variable : string) (x1 : float)
    (dist v0 v1 acc dcc : float) :
  estimator_invariant self ->
  _eta_call self variable x1 = Ok (Some (dist, v0, v1, acc, dcc)) ->
  (v1 <? v0) = false.
Proof.
  intros [Pv [_ [Nv [_ Hb]]]]. unfold _eta_call.
  destruct (getitem (_current_x self) variable) as [x|e]; [|discriminate].
  cbn [bind].
  pose proof (get_or_magnitude _ variable Pv) as Q1.
  pose proof (get_or_magnitude_or_nan _ variable Nv) as Q2.
  destruct (0 <? x1 - x).
  - intros H. injection H as <- <- <- <- <-.
    destruct (get_or (_max_v_pos self) variable 1 <? get_or (_current_v self) variable 0)
      eqn:Hlt; [|reflexivity].
    exfalso. pose proof (ltb_trans _ _ _ Q1 Hlt) as Hpos.
    unfold get_or in Hpos, Hlt. destruct (_current_v self !! variable) as [v|] eqn:Hv.
    + destruct (Hb _ _ Hv) as [Bp _]. destruct (Bp Hpos) as [m [Hm Hle]].
      unfold get_or in Hlt. rewrite Hm in Hlt.
      rewrite (leb_not_ltb _ _ Hle) in Hlt. discriminate.
    + discriminate.
  - destruct (x1 - x <? 0); [|discriminate].
    intros H. injection H as <- <- <- <- <-.
    destruct (get_or (_max_v_neg self) variable 1 <? negated_velocity self variable)
      eqn:Hlt; [|reflexivity].
    exfalso. destruct Q2 as [Q2|Q2];
      [|destruct (ltb_not_nan _ _ Hlt) as [Hnan _]; congruence].
    pose proof (ltb_trans _ _ _ Q2 Hlt) as Hpos.
    unfold negated_velocity in Hpos, Hlt.
    destruct (_current_v self !! variable) as [v|] eqn:Hv; [|discriminate].
    rewrite opp_pos in Hpos.
    destruct (Hb _ _ Hv) as [_ Bn]. destruct (Bn Hpos) as [m [Hm Hle]].
    unfold get_or in Hlt. rewrite Hm in Hlt.
    destruct Hle as [Hle|Hnan].
    + rewrite (abs_neg v Hpos) in Hle.
      rewrite (leb_not_ltb _ _ Hle) in Hlt. discriminate.
    + destruct (ltb_not_nan _ _ Hlt) as [Hm_nan _]. congruence.
Qed.

(** ** A NaN extremum stays *)

Lemma ltb_nan (x : float) : (nan <? x) = false.
Proof. rewrite ltb_spec. reflexivity. Qed.

Lemma update_max_keeps_nan (d : gmap string float) (variable other : string)
    (v : float) :
  d !! variable = Some nan -> update_max d other v !! variable = Some nan.
Proof.
  intros H. destruct (decide (other = variable)) as [->|Hne].
  - rewrite update_max_own, H, ltb_nan. reflexivity.
  - rewrite float_update_max_other by exact Hne. exact H.
Qed.

Lemma observe_variable_keeps_nan (dt : float) (self : QActor)
    (variable other : string) (x : float) :
  let self' := fst (observe_variable dt self other x) in
  (_max_v_neg self !! variable = Some nan -> _max_v_neg self' !! variable = Some nan) /\
  (_max_a_neg self !! variable = Some nan -> _max_a_neg self' !! variable = Some nan).
Proof.
  cbv zeta. unfold observe_variable.
  destruct (difference_quotient (_current_x self) other x dt) as [[v|]|e];
    cbn [fst]; [|split; auto..].
  actor_simpl.
  destruct (difference_quotient (_current_v self) other v dt) as [[a|]|e];
    cbn [fst]; [| |split; auto].
  - unfold learn_acceleration, learn_velocity.
    destruct (a =? 0), (0 <? a), (v =? 0), (0 <? v); actor_simpl;
      split; auto using update_max_keeps_nan.
  - unfold learn_velocity.
    destruct (v =? 0), (0 <? v); actor_simpl; split; auto using update_max_keeps_nan.
Qed.

Lemma observe_keeps_nan (numerical_state : list (string * float)) (dt : float)
    (self : QActor) (variable : string) :
  let self' := fst (observe self numerical_state dt) in
  (_max_v_neg self !! variable = Some nan -> _max_v_neg self' !! variable = Some nan) /\
  (_max_a_neg self !! variable = Some nan -> _max_a_neg self' !! variable = Some nan).
Proof.
  cbv zeta. revert self.
  induction numerical_state as [|[other x] rest IH]; intros self; [split; auto|].
  cbn [observe].
  pose proof (observe_variable_keeps_nan dt self variable other x) as Hstep.
  cbv zeta in Hstep.
  destruct (observe_variable dt self other x) as [self' [e|]]; cbn [fst] in *.
  - exact Hstep.
  - destruct Hstep as [Hv Ha]. destruct (IH self') as [Hv' Ha']. split; auto.
Qed.

(** X22.  A NaN stored as the maximum negative velocity or acceleration of a
    variable stays there through every [observe] and [restart]; only [reset]
    removes it. *)
Theorem nan_extremum_persists (self : QActor) (calls : list call)
    (variable : string) :
  Forall not_reset calls ->
  (_max_v_neg self !! variable = Some nan ->
   _max_v_neg (run self calls) !! variable = Some nan) /\
  (_max_a_neg self !! variable = Some nan ->
   _max_a_neg (run self calls) !! variable = Some nan).
Proof.
  intros Hcalls. revert self.
  induction Hcalls as [|c calls Hc _ IH]; intros self; [split; auto|].
  cbn [run fold_left]. fold (run (run_call self c) calls).
  destruct (IH (run_call self c)) as [Hv Ha].
  destruct c as [| |numerical_state dt]; cbn [run_call] in *.
  - destruct Hc.
  - split; [exact Hv | exact Ha].
  - destruct (observe_keeps_nan numerical_state dt self variable) as [Hv' Ha'].
    split; auto.
Qed.

(** ** The one-directional solver *)

Section LibmFacts.
Variable pow_2 : float -> float.

Lemma float_time_to_goal_toward (dist v0 v1 acc dcc : float) :
  (0 <=? v0) = true ->
  _time_to_goal pow_2 dist v0 v1 acc dcc = toward_goal pow_2 dist v0 v1 acc.
Proof.
  intros Hv. rewrite _time_to_goal_equation_1.
  unfold _time_to_goal_unfold_clause_1.
  destruct (bool_dec (0 <=? v0) true); [reflexivity | contradiction].
Qed.

Lemma float_time_to_goal_away (dist v0 v1 acc dcc : float) :
  (0 <=? v0) = false ->
  _time_to_goal pow_2 dist v0 v1 acc dcc =
  let! v0_2 := float_pow_2 pow_2 v0 in
  let! s := truediv v0_2 (2 * acc) in
  let! t1 := truediv (- v0) acc in
  let! t2 := _time_to_goal pow_2 (dist + s) 0 v1 acc dcc in
  Ok (0 + t1 + t2).
Proof.
  intros Hv. rewrite _time_to_goal_equation_1.
  unfold _time_to_goal_unfold_clause_1.
  destruct (bool_dec (0 <=? v0) true); [congruence | reflexivity].
Qed.

Lemma float_time_to_goal_depth_toward (n : nat) (dist v0 v1 acc dcc : float) :
  (0 <=? v0) = true ->
  _time_to_goal_depth pow_2 (S n) dist v0 v1 acc dcc =
  Some (toward_goal pow_2 dist v0 v1 acc).
Proof. intros Hv. cbn [_time_to_goal_depth]. rewrite Hv. reflexivity. Qed.

Lemma float_time_to_goal_depth_away (n : nat) (dist v0 v1 acc dcc : float) :
  (0 <=? v0) = false ->
  _time_to_goal_depth pow_2 (S n) dist v0 v1 acc dcc =
  match float_pow_2 pow_2 v0 with
  | Raise e => Some (Raise e)
  | Ok v0_2 =>
    match truediv v0_2 (2 * acc) with
    | Raise e => Some (Raise e)
    | Ok s =>
      match truediv (- v0) acc with
      | Raise e => Some (Raise e)
      | Ok t1 =>
        match _time_to_goal_depth pow_2 n (dist + s) 0 v1 acc dcc with
        | None => None
        | Some (Raise e) => Some (Raise e)
        | Some (Ok t2) => Some (Ok (0 + t1 + t2))
        end
      end
    end
  end.
Proof. intros Hv. cbn [_time_to_goal_depth]. rewrite Hv. reflexivity. Qed.

Lemma float_time_to_goal_depth_enough (n : nat) (dist v0 v1 acc dcc : float) :
  _time_to_goal_depth pow_2 (S (S n)) dist v0 v1 acc dcc =
  Some (_time_to_goal pow_2 dist v0 v1 acc dcc).
Proof.
  destruct (0 <=? v0) eqn:Hv.
  - rewrite float_time_to_goal_depth_toward, float_time_to_goal_toward by exact Hv.
    reflexivity.
  - rewrite float_time_to_goal_away, float_time_to_goal_depth_away by exact Hv.
    destruct (float_pow_2 pow_2 v0) as [v0_2|e]; [|reflexivity]. cbn [bind].
    destruct (truediv v0_2 (2 * acc)) as [s|e]; [|reflexivity]. cbn [bind].
    destruct (truediv (- v0) acc) as [t1|e]; [|reflexivity]. cbn [bind].
    rewrite float_time_to_goal_depth_toward, float_time_to_goal_toward by reflexivity.
    destruct (toward_goal pow_2 (dist + s) 0 v1 acc); reflexivity.
Qed.

Lemma float_truediv_Ok (x y : float) : (y =? 0) = false -> truediv x y = Ok (x / y).
Proof. intros H. unfold truediv. rewrite H. reflexivity. Qed.

Lemma float_truediv_zero (x y : float) :
  (y =? 0) = true -> truediv x y = Raise ZeroDivisionError.
Proof. intros H. unfold truediv. rewrite H. reflexivity. Qed.

Lemma float_pow_2_raises (iv : float) (e : exn) :
  float_pow_2 pow_2 iv = Raise e ->
  e = OverflowError /\
  is_infinity (pow_2 (if iv <? 0 then - iv else iv)) = true.
Proof.
  unfold float_pow_2.
  destruct (is_nan iv); [discriminate|].
  destruct (is_infinity iv); [discriminate|].
  destruct (iv =? 0); [discriminate|].
  destruct ((if iv <? 0 then - iv else iv) =? 1); [discriminate|].
  destruct (is_infinity (pow_2 (if iv <? 0 then - iv else iv))); [|discriminate].
  intros H. injection H as <-. split; reflexivity.
Qed.

(** C5 (amended).  [_time_to_goal] always returns or raises within two nested
    activations.  When [v0 < 0] (more generally when the test [v0 >= 0] of
    line 146 fails, as it also does for a NaN): if [v0**2] raises, it raises
    [OverflowError], at line 158 and before any recursive call; if it does
    not and [2*acc] is zero, as it is for [acc = 0], line 158 raises
    [ZeroDivisionError] before any recursive call; otherwise one activation
    is not enough: the body makes one recursive call, at distance
    [dist + v0**2/(2*acc)] and speed 0, and that call is answered by the
    branch [v0 >= 0] alone. *)
Theorem time_to_goal_recursion_depth (dist v0 v1 acc dcc : float) :
  (forall n : nat,
      _time_to_goal_depth pow_2 (S (S n)) dist v0 v1 acc dcc =
      Some (_time_to_goal pow_2 dist v0 v1 acc dcc)) /\
  ((v0 <? 0) = true -> (0 <=? v0) = false) /\
  ((0 <=? v0) = false ->
   (forall e : exn,
       float_pow_2 pow_2 v0 = Raise e ->
       e = OverflowError /\
       _time_to_goal_depth pow_2 1 dist v0 v1 acc dcc = Some (Raise OverflowError) /\
       _time_to_goal pow_2 dist v0 v1 acc dcc = Raise OverflowError) /\
   (forall v0_2 : float,
       float_pow_2 pow_2 v0 = Ok v0_2 -> (2 * acc =? 0) = true ->
       _time_to_goal_depth pow_2 1 dist v0 v1 acc dcc = Some (Raise ZeroDivisionError) /\
       _time_to_goal pow_2 dist v0 v1 acc dcc = Raise ZeroDivisionError) /\
   (forall v0_2 : float,
       float_pow_2 pow_2 v0 = Ok v0_2 -> (2 * acc =? 0) = false ->
       let s := v0_2 / (2 * acc) in
       _time_to_goal_depth pow_2 1 dist v0 v1 acc dcc = None /\
       _time_to_goal pow_2 dist v0 v1 acc dcc =
         (let! t2 := _time_to_goal pow_2 (dist + s) 0 v1 acc dcc in
          Ok (0 + - v0 / acc + t2)) /\
       _time_to_goal pow_2 (dist + s) 0 v1 acc dcc =
         toward_goal pow_2 (dist + s) 0 v1 acc /\
       _time_to_goal_depth pow_2 1 (dist + s) 0 v1 acc dcc =
         Some (toward_goal pow_2 (dist + s) 0 v1 acc))) /\
  ((acc =? 0) = true -> (2 * acc =? 0) = true).
Proof.
  split; [intros n; apply float_time_to_goal_depth_enough|].
  split; [apply ltb_not_leb|].
  split; [|apply double_zero].
  intros Hv. split; [|split].
  - intros e He. destruct (float_pow_2_raises v0 e He) as [-> _].
    rewrite float_time_to_goal_depth_away, float_time_to_goal_away by exact Hv.
    rewrite He. repeat split.
  - intros v0_2 Hsq Hacc.
    rewrite float_time_to_goal_depth_away, float_time_to_goal_away by exact Hv.
    rewrite Hsq. cbn [bind]. rewrite (float_truediv_zero _ _ Hacc). split; reflexivity.
  - intros v0_2 Hsq H2acc s.
    assert (Hacc : (acc =? 0) = false).
    { destruct (acc =? 0) eqn:H; [|reflexivity].
      rewrite (double_zero acc H) in H2acc. discriminate. }
    rewrite float_time_to_goal_depth_away, float_time_to_goal_away by exact Hv.
    rewrite Hsq. cbn [bind].
    rewrite (float_truediv_Ok _ _ H2acc), (float_truediv_Ok _ _ Hacc). cbn [bind].
    split; [reflexivity|]. split; [reflexivity|]. split.
    + apply float_time_to_goal_toward. reflexivity.
    + apply float_time_to_goal_depth_toward. reflexivity.
Qed.

(** X7.  With [acc = 0] (of either sign) [_time_to_goal] never returns a time:
    it raises [OverflowError] when [v0**2] overflows, and otherwise
    [ZeroDivisionError] at the first division by [acc] or [2*acc], unless
    [math.sqrt] has raised [ValueError] before in the branch [v0 >= 0]. *)
Theorem time_to_goal_degenerate_inputs (dist v0 v1 acc dcc : float) :
  (acc =? 0) = true ->
  _time_to_goal pow_2 dist v0 v1 acc dcc =
  match float_pow_2 pow_2 v0 with
  | Raise _ => Raise OverflowError
  | Ok v0_2 =>
    if 0 <=? v0
    then match math_sqrt (v0_2 + 2 * acc * dist) with
         | Raise _ => Raise ValueError
         | Ok _ => Raise ZeroDivisionError
         end
    else Raise ZeroDivisionError
  end.
Proof.
  intros Hacc. destruct (0 <=? v0) eqn:Hv.
  - rewrite float_time_to_goal_toward by exact Hv. unfold toward_goal.
    destruct (float_pow_2 pow_2 v0) as [v0_2|e] eqn:Hsq.
    + cbn [bind]. unfold math_sqrt.
      destruct (is_nan (PrimFloat.sqrt (v0_2 + 2 * acc * dist)) &&
                negb (is_nan (v0_2 + 2 * acc * dist))); cbn [bind]; [reflexivity|].
      unfold arrive_accelerating, arrive_cruising.
      destruct (PrimFloat.sqrt (v0_2 + 2 * acc * dist) <=? v1);
        rewrite (float_truediv_zero _ _ Hacc); reflexivity.
    + destruct (float_pow_2_raises v0 e Hsq) as [-> _]. reflexivity.
  - rewrite float_time_to_goal_away by exact Hv.
    destruct (float_pow_2 pow_2 v0) as [v0_2|e] eqn:Hsq.
    + cbn [bind]. rewrite (float_truediv_zero _ _ (double_zero acc Hacc)). reflexivity.
    + destruct (float_pow_2_raises v0 e Hsq) as [-> _]. reflexivity.
Qed.

(** ** Velocity and cruise speed *)

Lemma float_eta_by_call (self : QActor) (variable : string) (x1 : float) :
  _eta pow_2 self variable x1 =
  let! call := _eta_call self variable x1 in
  match call with
  | Some (dist, v0, v1, acc, dcc) => _time_to_goal pow_2 dist v0 v1 acc dcc
  | None => Ok 0
  end.
Proof.
  unfold _eta, _eta_call.
  destruct (getitem (_current_x self) variable) as [x|e]; [|reflexivity].
  cbn [bind]. destruct (0 <? x1 - x); [reflexivity|].
  destruct (x1 - x <? 0); reflexivity.
Qed.

(** C9 (amended).  After the constructor and any calls of [reset], [restart]
    and [observe], with any [dt] and any floats as samples: a recorded
    velocity above zero is at most the stored maximum positive velocity,
    which exists; for a recorded velocity below zero the stored maximum
    negative velocity exists and is at least the magnitude of the velocity
    or is NaN (the magnitude of a NaN velocity, which line 54 files with the
    negative ones and line 56 never replaces).  [_eta] calls [_time_to_goal]
    with the arguments [_eta_call] gives; the cruise speed among them is
    never below the speed handed with it, and when neither is NaN the speed
    is at most the cruise speed. *)
Theorem velocity_within_learned_maximum (model : QModel) (calls : list call) :
  let self := run (__init__ model) calls in
  (forall (variable : string) (v : float),
      _current_v self !! variable = Some v ->
      ((0 <? v) = true ->
       exists m : float, _max_v_pos self !! variable = Some m /\ (v <=? m) = true) /\
      ((v <? 0) = true ->
       exists m : float, _max_v_neg self !! variable = Some m /\
                         ((abs v <=? m) = true \/ is_nan m = true))) /\
  (forall (variable : string) (x1 : float),
      _eta pow_2 self variable x1 =
      let! call := _eta_call self variable x1 in
      match call with
      | Some (dist, v0, v1, acc, dcc) => _time_to_goal pow_2 dist v0 v1 acc dcc
      | None => Ok 0
      end) /\
  (forall (variable : string) (x1 dist v0 v1 acc dcc : float),
      _eta_call self variable x1 = Ok (Some (dist, v0, v1, acc, dcc)) ->
      (v1 <? v0) = false /\
      (is_nan v0 = false -> is_nan v1 = false -> (v0 <=? v1) = true)).
Proof.
  intros self.
  pose proof (reachable_invariant model calls) as Hinv. fold self in Hinv.
  split; [apply Hinv|]. split; [intros variable x1; apply float_eta_by_call|].
  intros variable x1 dist v0 v1 acc dcc Hcall.
  pose proof (eta_call_speed self variable x1 dist v0 v1 acc dcc Hinv Hcall) as Hlt.
  split; [exact Hlt|]. intros H0 H1. apply not_ltb_leb; assumption.
Qed.

(** ** The order on keys and the stable descending sort *)

Lemma float_key_ltb_lt (k1 k2 : float * Z) : key_ltb k1 k2 = true <-> key_lt k1 k2.
Proof.
  unfold key_ltb, key_lt. destruct (fst k1 =? fst k2) eqn:Heq.
  - rewrite Z.ltb_lt. split.
    + intros Hz. right. split; [reflexivity | exact Hz].
    + intros [Hlt|[_ Hz]]; [|exact Hz].
      rewrite (ltb_not_eqb _ _ Hlt) in Heq. discriminate.
  - split; [intros Hlt; left; exact Hlt|].
    intros [Hlt|[H _]]; [exact Hlt | discriminate].
Qed.

Lemma float_key_le_refl (k : float * Z) : is_nan (fst k) = false -> key_le k k.
Proof. intros H. right. split; [apply eqb_refl; exact H | reflexivity]. Qed.

Lemma float_key_lt_trans (k1 k2 k3 : float * Z) :
  key_lt k1 k2 -> key_lt k2 k3 -> key_lt k1 k3.
Proof.
  unfold key_lt. intros [H1|[E1 Z1]] [H2|[E2 Z2]].
  - left. eapply ltb_trans; eassumption.
  - left. eapply ltb_eqb_trans; eassumption.
  - left. eapply eqb_ltb_trans; eassumption.
  - right. split; [eapply eqb_trans; eassumption | lia].
Qed.

Lemma float_key_le_trans (k1 k2 k3 : float * Z) :
  key_le k1 k2 -> key_le k2 k3 -> key_le k1 k3.
Proof.
  intros [H1|[E1 Z1]] [H2|[E2 Z2]].
  - left. eapply float_key_lt_trans; eassumption.
  - left. destruct H1 as [H1|[E Hz]].
    + left. eapply ltb_eqb_trans; eassumption.
    + right. split; [eapply eqb_trans; eassumption | lia].
  - left. destruct H2 as [H2|[E Hz]].
    + left. eapply eqb_ltb_trans; eassumption.
    + right. split; [eapply eqb_trans; eassumption | lia].
  - right. split; [eapply eqb_trans; eassumption | congruence].
Qed.

Lemma float_key_lt_irrefl (k : float * Z) : ~ key_lt k k.
Proof.
  unfold key_lt. intros [H|[_ H]]; [|lia].
  rewrite ltb_irrefl in H. discriminate.
Qed.

Lemma key_eq_lt (k1 k2 k3 : float * Z) : key_eq k1 k2 -> key_lt k3 k2 -> key_lt k3 k1.
Proof.
  intros [E Hz] [H|[E' Hz']].
  - left. eapply ltb_eqb_trans; [exact H | apply eqb_sym; exact E].
  - right. split; [eapply eqb_trans; [exact E' | apply eqb_sym; exact E] | lia].
Qed.

Lemma float_not_key_lt_le (k1 k2 : float * Z) :
  is_nan (fst k1) = false -> is_nan (fst k2) = false ->
  ~ key_lt k1 k2 -> key_le k2 k1.
Proof.
  intros N1 N2 Hn. unfold key_le, key_lt, key_eq in *.
  destruct (fst k1 <? fst k2) eqn:Hlt; [exfalso; apply Hn; left; reflexivity|].
  destruct (ltb_total _ _ N1 N2 Hlt) as [H|H]; [left; left; exact H|].
  destruct (Z.lt_total (snd k2) (snd k1)) as [Hz|[Hz|Hz]].
  - left. right. split; assumption.
  - right. split; assumption.
  - exfalso. apply Hn. right. split; [apply eqb_sym; exact H | exact Hz].
Qed.

Lemma float_insert_reverse_head (x : vote) (l : list vote) :
  head (insert_reverse x l) =
  Some (match head l with
        | Some y => if key_ltb (vote_key x) (vote_key y) then y else x
        | None => x
        end).
Proof.
  destruct l as [|y l']; [reflexivity|]. cbn [insert_reverse head].
  destruct (key_ltb (vote_key x) (vote_key y)); reflexivity.
Qed.

Lemma insert_reverse_perm (x : vote) (l : list vote) :
  Permutation (x :: l) (insert_reverse x l).
Proof.
  induction l as [|y l' IH]; [reflexivity|]. cbn [insert_reverse].
  destruct (key_ltb (vote_key x) (vote_key y)); [|reflexivity].
  rewrite perm_swap. apply perm_skip. exact IH.
Qed.

(** The result of [sorted] has the elements of its argument, NaN or not. *)
Lemma sorted_reverse_perm (l : list vote) : Permutation l (sorted_reverse l).
Proof.
  induction l as [|x l' IH]; [reflexivity|]. cbn [sorted_reverse].
  rewrite <- insert_reverse_perm. apply perm_skip. exact IH.
Qed.

(** A list whose neighbours the comparison finds in order is left as it is. *)
Lemma sorted_reverse_in_order (l : list vote) :
  (forall (i : nat) (x y : vote),
      l !! i = Some x -> l !! S i = Some y ->
      key_ltb (vote_key x) (vote_key y) = false) ->
  sorted_reverse l = l.
Proof.
  induction l as [|x l' IH]; intros Hord; [reflexivity|].
  cbn [sorted_reverse]. rewrite IH.
  - destruct l' as [|y l'']; [reflexivity|]. cbn [insert_reverse].
    rewrite (Hord 0%nat x y); reflexivity.
  - intros i a b Ha Hb. apply (Hord (S i) a b); assumption.
Qed.

(** *** The stable sort of votes that are not NaN *)

Lemma key_eqb_eq (k1 k2 : float * Z) : key_eqb k1 k2 = true <-> key_eq k1 k2.
Proof.
  unfold key_eqb, key_eq. rewrite andb_true_iff, Z.eqb_eq. reflexivity.
Qed.

Lemma key_eq_refl (k : float * Z) : is_nan (fst k) = false -> key_eq k k.
Proof. intros H. split; [apply eqb_refl; exact H | reflexivity]. Qed.

Lemma key_eq_sym (k1 k2 : float * Z) : key_eq k1 k2 -> key_eq k2 k1.
Proof. intros [E Hz]. split; [apply eqb_sym; exact E | congruence]. Qed.

Lemma key_eq_trans (k1 k2 k3 : float * Z) : key_eq k1 k2 -> key_eq k2 k3 -> key_eq k1 k3.
Proof.
  intros [E1 Z1] [E2 Z2]. split; [eapply eqb_trans; eassumption | congruence].
Qed.

Lemma key_eq_not_lt (k1 k2 : float * Z) : key_eq k1 k2 -> ~ key_lt k1 k2.
Proof.
  intros [E Hz] [H|[_ H]]; [|lia].
  rewrite (ltb_not_eqb _ _ H) in E. discriminate.
Qed.

Lemma key_ltb_false (k1 k2 : float * Z) : key_ltb k1 k2 = false <-> ~ key_lt k1 k2.
Proof.
  rewrite <- float_key_ltb_lt. destruct (key_ltb k1 k2); split; congruence.
Qed.

Lemma not_key_lt_eq (k1 k2 : float * Z) :
  is_nan (fst k1) = false -> is_nan (fst k2) = false ->
  ~ key_lt k1 k2 -> ~ key_lt k2 k1 -> key_eq k1 k2.
Proof.
  intros N1 N2 H12 H21.
  destruct (float_not_key_lt_le k2 k1 N2 N1 H21) as [H|H]; [contradiction | exact H].
Qed.

Lemma not_key_lt_trans (k1 k2 k3 : float * Z) :
  is_nan (fst k1) = false -> is_nan (fst k2) = false -> is_nan (fst k3) = false ->
  ~ key_lt k1 k2 -> ~ key_lt k2 k3 -> ~ key_lt k1 k3.
Proof.
  intros N1 N2 N3 H12 H23 H13.
  pose proof (float_not_key_lt_le _ _ N1 N2 H12) as L21.
  pose proof (float_not_key_lt_le _ _ N2 N3 H23) as L32.
  pose proof (float_key_le_trans _ _ _ L32 L21) as [L|L].
  - apply (float_key_lt_irrefl k1). eapply float_key_lt_trans; eassumption.
  - apply (key_eq_not_lt _ _ (key_eq_sym _ _ L)). exact H13.
Qed.

Lemma insert_reverse_descending (x : vote) (l : list vote) :
  is_nan (fst (vote_key x)) = false ->
  Forall (fun y => is_nan (fst (vote_key y)) = false) l ->
  descending l -> descending (insert_reverse x l).
Proof.
  intros Nx Nl Hl. induction Hl as [|y l' Hy Hl' IH]; cbn [insert_reverse].
  - constructor; constructor.
  - apply Forall_cons in Nl as [Ny Nl].
    destruct (key_ltb (vote_key x) (vote_key y)) eqn:Hlt.
    + constructor; [|apply IH; exact Nl].
      rewrite <- insert_reverse_perm. constructor; [|exact Hy].
      apply key_ltb_false. apply float_key_ltb_lt in Hlt.
      intros H. apply (float_key_lt_irrefl (vote_key x)).
      eapply float_key_lt_trans; eassumption.
    + constructor; [|constructor; assumption].
      constructor; [exact Hlt|].
      rewrite Forall_forall in Hy, Nl |- *. intros z Hz.
      apply key_ltb_false.
      apply (not_key_lt_trans _ (vote_key y) _ Nx Ny (Nl z Hz)).
      * apply key_ltb_false. exact Hlt.
      * apply key_ltb_false. apply (Hy z Hz).
Qed.

Lemma insert_reverse_nan_free (x : vote) (l : list vote) :
  is_nan (fst (vote_key x)) = false ->
  Forall (fun y => is_nan (fst (vote_key y)) = false) l ->
  Forall (fun y => is_nan (fst (vote_key y)) = false) (insert_reverse x l).
Proof.
  intros Nx Nl. rewrite <- insert_reverse_perm. constructor; assumption.
Qed.

Lemma sorted_reverse_descending (l : list vote) :
  Forall (fun y => is_nan (fst (vote_key y)) = false) l ->
  descending (sorted_reverse l).
Proof.
  induction l as [|x l' IH]; intros Nl; [constructor|].
  apply Forall_cons in Nl as [Nx Nl]. cbn [sorted_reverse].
  apply insert_reverse_descending; [exact Nx | | apply IH; exact Nl].
  rewrite <- sorted_reverse_perm. exact Nl.
Qed.

Lemma insert_reverse_stable (k : float * Z) (x : vote) (l : list vote) :
  same_key k (insert_reverse x l) = same_key k (x :: l).
Proof.
  unfold same_key. induction l as [|y l' IH]; [reflexivity|]. cbn [insert_reverse].
  destruct (key_ltb (vote_key x) (vote_key y)) eqn:Hlt; [|reflexivity].
  apply float_key_ltb_lt in Hlt.
  rewrite (filter_cons _ y), IH, !filter_cons.
  destruct (decide (key_eqb (vote_key y) k = true)) as [Hyk|Hyk];
    destruct (decide (key_eqb (vote_key x) k = true)) as [Hxk|Hxk]; try reflexivity.
  exfalso. apply key_eqb_eq in Hyk, Hxk.
  apply (key_eq_not_lt (vote_key x) (vote_key y)); [|exact Hlt].
  eapply key_eq_trans; [exact Hxk | apply key_eq_sym; exact Hyk].
Qed.

Lemma sorted_reverse_stable (k : float * Z) (l : list vote) :
  same_key k (sorted_reverse l) = same_key k l.
Proof.
  induction l as [|x l' IH]; [reflexivity|]. cbn [sorted_reverse].
  rewrite insert_reverse_stable. unfold same_key in *.
  rewrite !filter_cons, IH. reflexivity.
Qed.

(** Two lists in descending order with the same elements and the same
    order within each key are the same list. *)
Lemma stable_descending_unique (l1 l2 : list vote) :
  Forall (fun y => is_nan (fst (vote_key y)) = false) l1 ->
  Permutation l1 l2 -> descending l1 -> descending l2 ->
  (forall k : float * Z, same_key k l1 = same_key k l2) ->
  l1 = l2.
Proof.
  revert l2. induction l1 as [|x1 t1 IH]; intros l2 N1 Hperm D1 D2 Hkeys.
  - apply Permutation_nil_l in Hperm. congruence.
  - destruct l2 as [|x2 t2]; [apply Permutation_nil_r in Hperm; discriminate|].
    apply Forall_cons in N1 as [Nx1 Nt1].
    inversion D1 as [|? ? H1 D1']; subst. inversion D2 as [|? ? H2 D2']; subst.
    assert (N2 : is_nan (fst (vote_key x2)) = false).
    { assert (Hin : x2 ∈ x1 :: t1) by (rewrite Hperm; left).
      apply elem_of_cons in Hin as [->|Hin]; [exact Nx1|].
      rewrite Forall_forall in Nt1. apply (Nt1 x2 Hin). }
    assert (H12 : ~ key_lt (vote_key x1) (vote_key x2)).
    { assert (Hin : x2 ∈ x1 :: t1) by (rewrite Hperm; left).
      apply elem_of_cons in Hin as [->|Hin]; [apply float_key_lt_irrefl|].
      apply key_ltb_false. rewrite Forall_forall in H1. apply (H1 x2 Hin). }
    assert (H21 : ~ key_lt (vote_key x2) (vote_key x1)).
    { assert (Hin : x1 ∈ x2 :: t2) by (rewrite <- Hperm; left).
      apply elem_of_cons in Hin as [->|Hin]; [apply float_key_lt_irrefl|].
      apply key_ltb_false. rewrite Forall_forall in H2. apply (H2 x1 Hin). }
    pose proof (not_key_lt_eq _ _ Nx1 N2 H12 H21) as Heq.
    assert (Hx : x1 = x2).
    { pose proof (Hkeys (vote_key x1)) as Hk. unfold same_key in Hk.
      rewrite !filter_cons in Hk.
      destruct (decide (key_eqb (vote_key x1) (vote_key x1) = true)) as [_|Hn];
        [|exfalso; apply Hn; apply key_eqb_eq; apply key_eq_refl; exact Nx1].
      destruct (decide (key_eqb (vote_key x2) (vote_key x1) = true)) as [_|Hn];
        [|exfalso; apply Hn; apply key_eqb_eq; apply key_eq_sym; exact Heq].
      congruence. }
    subst x2. f_equal. apply IH.
    + exact Nt1.
    + apply (Permutation_cons_inv Hperm).
    + exact D1'.
    + exact D2'.
    + intros k. pose proof (Hkeys k) as Hk. unfold same_key in *.
      rewrite !filter_cons in Hk.
      destruct (decide (key_eqb (vote_key x1) k = true)); congruence.
Qed.

(** When no vote is NaN, [sorted_reverse] gives what [sorted] promises, and
    nothing else does: whatever algorithm sorts, the result is this list. *)
Lemma sorted_reverse_is_the_stable_sort (l l' : list vote) :
  Forall (fun y => is_nan (fst (vote_key y)) = false) l ->
  stable_descending_sort l l' <-> l' = sorted_reverse l.
Proof.
  intros Nl. split.
  - intros [Hperm [Hdesc Hstable]]. symmetry.
    apply stable_descending_unique.
    + rewrite <- sorted_reverse_perm. exact Nl.
    + rewrite <- sorted_reverse_perm. exact Hperm.
    + apply sorted_reverse_descending. exact Nl.
    + exact Hdesc.
    + intros k. rewrite sorted_reverse_stable, Hstable. reflexivity.
  - intros ->. split; [apply sorted_reverse_perm|].
    split; [apply sorted_reverse_descending; exact Nl|].
    intros k. apply sorted_reverse_stable.
Qed.

(** Without a NaN vote, the first element of the sorted list is the first of
    the greatest. *)
Lemma float_sorted_reverse_head (l : list vote) :
  l <> [] ->
  Forall (fun x => is_nan (fst (vote_key x)) = false) l ->
  exists (i : nat) (x : vote),
    head (sorted_reverse l) = Some x /\ first_greatest l i x.
Proof.
  induction l as [|a l' IH]; [congruence|]. intros _ Hnan.
  apply Forall_cons in Hnan as [Ha Hnan].
  cbn [sorted_reverse]. rewrite float_insert_reverse_head.
  destruct l' as [|b l''].
  - exists 0%nat, a. split; [reflexivity|]. repeat split.
    + intros [|j] y Hy; [|discriminate]. injection Hy as <-.
      apply float_key_le_refl. exact Ha.
    + intros j y Hj. lia.
  - destruct IH as [i [m [Hm [Hi [Hall Hbefore]]]]]; [discriminate | exact Hnan|].
    rewrite Hm.
    assert (Hm_nan : is_nan (fst (vote_key m)) = false).
    { rewrite Forall_forall in Hnan. apply Hnan.
      apply list_elem_of_lookup. exists i. exact Hi. }
    destruct (key_ltb (vote_key a) (vote_key m)) eqn:Hlt.
    + apply float_key_ltb_lt in Hlt. exists (S i), m. split; [reflexivity|].
      repeat split.
      * exact Hi.
      * intros [|j] y Hy.
        -- injection Hy as <-. left. exact Hlt.
        -- apply (Hall j). exact Hy.
      * intros [|j] y Hj Hy.
        -- injection Hy as <-. exact Hlt.
        -- apply (Hbefore j); [lia | exact Hy].
    + assert (Hle : key_le (vote_key m) (vote_key a)).
      { apply float_not_key_lt_le; [exact Ha | exact Hm_nan|].
        rewrite <- float_key_ltb_lt, Hlt. discriminate. }
      exists 0%nat, a. split; [reflexivity|]. repeat split.
      * intros [|j] y Hy.
        -- injection Hy as <-. apply float_key_le_refl. exact Ha.
        -- eapply float_key_le_trans; [apply (Hall j); exact Hy | exact Hle].
      * intros j y Hj. lia.
Qed.

(** ** The selection *)

Lemma float_collect_votes_collect (self : QActor) (target : list (string * float)) :
  collect_votes pow_2 self target =
  collect (fun a =>
             let! v := action_vote pow_2 self
                         (effect (_model self) a (_current_x self)) target in
             Ok (a, v, action_rank a))
          (actions (_model self) (_current_x self)).
Proof.
  unfold collect_votes.
  rewrite (for_each_ext _
    (fun ys a =>
       let! y := (let! v := action_vote pow_2 self
                              (effect (_model self) a (_current_x self)) target in
                  Ok (a, v, action_rank a)) in
       Ok (ys ++ [y]))).
  - rewrite for_each_append.
    match goal with |- bind ?c _ = _ => destruct c; reflexivity end.
  - intros ys a. unfold evaluate.
    destruct (action_vote pow_2 self _ target); reflexivity.
Qed.

Lemma float_candidate_key_stored (self : QActor) (target : list (string * float))
    (a : action) (x : vote) :
  (let! v := action_vote pow_2 self
               (effect (_model self) a (_current_x self)) target in
   Ok (a, v, action_rank a)) = Ok x ->
  fst (fst x) = a /\ candidate_key pow_2 self target a = Ok (vote_key x).
Proof.
  intros H. unfold candidate_key.
  destruct (action_vote pow_2 self _ target) as [v|e]; [|discriminate].
  cbn [bind] in *. injection H as <-. split; reflexivity.
Qed.

(** The tuple [act] stores for an action. *)
Lemma float_stored_vote (self : QActor) (target : list (string * float))
    (votes : list vote) (j : nat) :
  collect_votes pow_2 self target = Ok votes ->
  (forall b : action,
      actions (_model self) (_current_x self) !! j = Some b ->
      exists y : vote, votes !! j = Some y /\ fst (fst y) = b /\
                       candidate_key pow_2 self target b = Ok (vote_key y)) /\
  (forall y : vote,
      votes !! j = Some y ->
      actions (_model self) (_current_x self) !! j = Some (fst (fst y)) /\
      candidate_key pow_2 self target (fst (fst y)) = Ok (vote_key y)).
Proof.
  intros Hvotes. rewrite float_collect_votes_collect in Hvotes.
  apply collect_Ok in Hvotes. split.
  - intros b Hb. destruct (Forall2_lookup_l _ _ _ _ _ Hvotes Hb) as [y [Hy Hfb]].
    exists y. split; [exact Hy|]. apply (float_candidate_key_stored self target b y Hfb).
  - intros y Hy. destruct (Forall2_lookup_r _ _ _ _ _ Hvotes Hy) as [b [Hb Hfb]].
    destruct (float_candidate_key_stored self target b y Hfb) as [<- Hkey].
    split; assumption.
Qed.

(** When every candidate has a vote, [act] returns the action of the first
    tuple of the sorted list, which is one of the tuples. *)
Lemma float_act_of_votes (self : QActor) (target : list (string * float))
    (votes : list vote) :
  collect_votes pow_2 self target = Ok votes ->
  votes <> [] ->
  exists (i : nat) (x : vote),
    head (sorted_reverse votes) = Some x /\
    votes !! i = Some x /\
    act pow_2 self target = Ok (fst (fst x)).
Proof.
  intros Hvotes Hne. unfold act. rewrite Hvotes. cbn [bind].
  pose proof (sorted_reverse_perm votes) as Hperm.
  destruct (sorted_reverse votes) as [|x rest] eqn:Hsorted.
  - apply Permutation_nil_r in Hperm. contradiction.
  - assert (Hx : x ∈ votes) by (rewrite Hperm; left).
    apply list_elem_of_lookup in Hx as [i Hi].
    exists i, x. repeat split. exact Hi.
Qed.

Lemma float_act_without_votes (self : QActor) (target : list (string * float)) (e : exn) :
  collect_votes pow_2 self target = Raise e -> act pow_2 self target = Raise e.
Proof. intros H. unfold act. rewrite H. reflexivity. Qed.

(** C1 (amended).  When the model lists at least one action and the vote of
    every candidate is computed (no exception) and is not NaN, [act] returns
    a candidate whose key [(vote, rank)] is greatest in Python's order on
    tuples, and every earlier candidate has a strictly smaller key: with
    equal votes no candidate has a greater rank, and no candidate with an
    equal vote and the same rank comes before it in the enumeration. *)
Theorem act_returns_first_greatest (self : QActor) (target : list (string * float)) :
  let candidates := actions (_model self) (_current_x self) in
  candidates <> [] ->
  (forall a : action,
      In a candidates ->
      exists k : float * Z,
        candidate_key pow_2 self target a = Ok k /\ is_nan (fst k) = false) ->
  exists (i : nat) (a : action) (k : float * Z),
    act pow_2 self target = Ok a /\
    candidates !! i = Some a /\
    candidate_key pow_2 self target a = Ok k /\
    (forall (j : nat) (b : action),
        candidates !! j = Some b ->
        exists kb : float * Z,
          candidate_key pow_2 self target b = Ok kb /\ key_le kb k) /\
    (forall (j : nat) (b : action),
        (j < i)%nat -> candidates !! j = Some b ->
        exists kb : float * Z,
          candidate_key pow_2 self target b = Ok kb /\ key_lt kb k) /\
    (forall (j : nat) (b : action) (kb : float * Z),
        candidates !! j = Some b -> candidate_key pow_2 self target b = Ok kb ->
        (fst kb =? fst k) = true -> (snd kb <= snd k)%Z) /\
    (forall (j : nat) (b : action) (kb : float * Z),
        candidates !! j = Some b -> candidate_key pow_2 self target b = Ok kb ->
        key_eq kb k -> (i <= j)%nat).
Proof.
  intros candidates Hne Hkeys.
  set (f := fun a : action =>
              let! v := action_vote pow_2 self
                          (effect (_model self) a (_current_x self)) target in
              Ok (a, v, action_rank a)).
  destruct (collect_total f candidates) as [votes Hvotes].
  { intros a Ha. destruct (Hkeys a Ha) as [k [Hk _]]. unfold f.
    unfold candidate_key in Hk.
    destruct (action_vote pow_2 self _ target) as [v|e]; [|discriminate].
    cbn [bind]. eexists. reflexivity. }
  assert (Hcollect : collect_votes pow_2 self target = Ok votes).
  { rewrite float_collect_votes_collect. exact Hvotes. }
  pose proof (proj1 (collect_Ok f candidates votes) Hvotes) as Hall.
  assert (Hvne : votes <> []).
  { intros ->. inversion Hall as [Hc|]. apply Hne. symmetry. exact Hc. }
  assert (Hnan : Forall (fun x => is_nan (fst (vote_key x)) = false) votes).
  { apply Forall_lookup. intros j y Hy.
    destruct (proj2 (float_stored_vote self target votes j Hcollect) y Hy) as [Hb Hky].
    destruct (Hkeys (fst (fst y))) as [k [Hk Hk_nan]].
    - apply list_elem_of_In. apply list_elem_of_lookup. exists j. exact Hb.
    - rewrite Hky in Hk. injection Hk as <-. exact Hk_nan. }
  destruct (float_sorted_reverse_head votes Hvne Hnan) as [i [x [Hhead [Hi [Hmax Hfirst]]]]].
  destruct (proj2 (float_stored_vote self target votes i Hcollect) x Hi) as [Ha Hkey].
  assert (Hothers : forall (j : nat) (b : action),
             candidates !! j = Some b ->
             exists y : vote, votes !! j = Some y /\
                              candidate_key pow_2 self target b = Ok (vote_key y)).
  { intros j b Hj.
    destruct (proj1 (float_stored_vote self target votes j Hcollect) b Hj) as [y [Hy [_ Hkb]]].
    exists y. split; assumption. }
  exists i, (fst (fst x)), (vote_key x). split.
  { unfold act. rewrite Hcollect. cbn [bind].
    destruct (sorted_reverse votes) as [|x' rest]; [discriminate|].
    cbn [head] in Hhead. injection Hhead as ->. reflexivity. }
  split; [exact Ha|]. split; [exact Hkey|]. split; [|split; [|split]].
  - intros j b Hj. destruct (Hothers j b Hj) as [y [Hy Hkb]].
    exists (vote_key y). split; [exact Hkb | apply (Hmax j y Hy)].
  - intros j b Hlt Hj. destruct (Hothers j b Hj) as [y [Hy Hkb]].
    exists (vote_key y). split; [exact Hkb | apply (Hfirst j y Hlt Hy)].
  - intros j b kb Hj Hkb Hvote. destruct (Hothers j b Hj) as [y [Hy Hkb']].
    rewrite Hkb in Hkb'. injection Hkb' as ->.
    destruct (Hmax j y Hy) as [[Hlt|[_ Hlt]]|[_ Heq]].
    + rewrite (ltb_not_eqb _ _ Hlt) in Hvote. discriminate.
    + lia.
    + lia.
  - intros j b kb Hj Hkb Heq. destruct (Hothers j b Hj) as [y [Hy Hkb']].
    rewrite Hkb in Hkb'. injection Hkb' as ->.
    destruct (Nat.le_gt_cases i j) as [Hle|Hgt]; [exact Hle|].
    exfalso. apply (float_key_lt_irrefl (vote_key y)).
    apply (key_eq_lt _ _ _ Heq). apply (Hfirst j y Hgt Hy).
Qed.

(** X12.  Whenever [act] returns an action, NaN votes or not, the action is
    one of the model's list and the vote of every candidate could be
    computed. *)
Theorem act_returns_a_candidate (self : QActor) (target : list (string * float))
    (a : action) :
  act pow_2 self target = Ok a ->
  let candidates := actions (_model self) (_current_x self) in
  (exists (i : nat) (k : float * Z),
      candidates !! i = Some a /\ candidate_key pow_2 self target a = Ok k) /\
  (forall b : action,
      In b candidates ->
      exists kb : float * Z, candidate_key pow_2 self target b = Ok kb).
Proof.
  intros Hact candidates.
  destruct (collect_votes pow_2 self target) as [votes|e] eqn:Hvotes;
    [|rewrite (float_act_without_votes _ _ _ Hvotes) in Hact; discriminate].
  assert (Hne : votes <> []).
  { intros ->. unfold act in Hact. rewrite Hvotes in Hact. discriminate. }
  destruct (float_act_of_votes self target votes Hvotes Hne) as [i [x [_ [Hi Hact']]]].
  rewrite Hact in Hact'. injection Hact' as ->.
  destruct (proj2 (float_stored_vote self target votes i Hvotes) x Hi) as [Hai Hkey].
  split.
  - exists i, (vote_key x). split; assumption.
  - intros b Hb. apply list_elem_of_In in Hb. apply list_elem_of_lookup in Hb as [j Hj].
    destruct (proj1 (float_stored_vote self target votes j Hvotes) b Hj) as [y [Hy [_ Hkb]]].
    exists (vote_key y). exact Hkb.
Qed.

(** X23.  When every candidate has a vote and Python's comparison finds no
    candidate's key below the key of the next candidate, as it does when the
    comparisons involve a NaN vote, [sorted] leaves the list as it is and
    [act] returns the first candidate, whatever the other votes are. *)
Theorem act_returns_the_first_of_unordered (self : QActor)
    (target : list (string * float)) (first : action) (others : list action) :
  actions (_model self) (_current_x self) = first :: others ->
  (forall a : action,
      In a (first :: others) ->
      exists k : float * Z, candidate_key pow_2 self target a = Ok k) ->
  (forall (i : nat) (a b : action) (ka kb : float * Z),
      (first :: others) !! i = Some a -> (first :: others) !! S i = Some b ->
      candidate_key pow_2 self target a = Ok ka ->
      candidate_key pow_2 self target b = Ok kb ->
      key_ltb ka kb = false) ->
  act pow_2 self target = Ok first.
Proof.
  intros Hcandidates Hkeys Hord.
  set (f := fun a : action =>
              let! v := action_vote pow_2 self
                          (effect (_model self) a (_current_x self)) target in
              Ok (a, v, action_rank a)).
  destruct (collect_total f (first :: others)) as [votes Hvotes].
  { intros a Ha. destruct (Hkeys a Ha) as [k Hk]. unfold f.
    unfold candidate_key in Hk.
    destruct (action_vote pow_2 self _ target) as [v|e]; [|discriminate].
    cbn [bind]. eexists. reflexivity. }
  assert (Hcollect : collect_votes pow_2 self target = Ok votes).
  { rewrite float_collect_votes_collect, Hcandidates. exact Hvotes. }
  assert (Hstored : forall (j : nat) (y : vote),
             votes !! j = Some y ->
             (first :: others) !! j = Some (fst (fst y)) /\
             candidate_key pow_2 self target (fst (fst y)) = Ok (vote_key y)).
  { intros j y Hy. rewrite <- Hcandidates.
    apply (proj2 (float_stored_vote self target votes j Hcollect) y Hy). }
  unfold act. rewrite Hcollect. cbn [bind].
  rewrite sorted_reverse_in_order.
  - destruct votes as [|y votes']; [apply collect_Ok in Hvotes; inversion Hvotes|].
    destruct (Hstored 0%nat y eq_refl) as [Hfirst _].
    cbn in Hfirst. injection Hfirst as <-. reflexivity.
  - intros i x y Hx Hy.
    destruct (Hstored i x Hx) as [Ha Hka]. destruct (Hstored (S i) y Hy) as [Hb Hkb].
    apply (Hord i _ _ _ _ Ha Hb Hka Hkb).
Qed.

(** ** The exceptions of [act] *)

Lemma truediv_raises (x y : float) (e : exn) :
  truediv x y = Raise e -> e = ZeroDivisionError.
Proof. unfold truediv. destruct (y =? 0); congruence. Qed.

Lemma math_sqrt_raises (x : float) (e : exn) :
  math_sqrt x = Raise e -> e = ValueError.
Proof.
  unfold math_sqrt.
  destruct (is_nan (PrimFloat.sqrt x) && negb (is_nan x)); congruence.
Qed.

Lemma toward_goal_raises (dist v0 v1 acc : float) (e : exn) :
  toward_goal pow_2 dist v0 v1 acc = Raise e -> arithmetic e.
Proof.
  unfold toward_goal, arrive_accelerating, arrive_cruising, arithmetic.
  destruct (float_pow_2 pow_2 v0) as [v0_2|e0] eqn:H0; cbn [bind];
    [|intros H; injection H as <-;
      destruct (float_pow_2_raises v0 e0 H0) as [-> _]; auto].
  destruct (math_sqrt (v0_2 + 2 * acc * dist)) as [vx|e1] eqn:H1; cbn [bind];
    [|intros H; injection H as <-; rewrite (math_sqrt_raises _ _ H1); auto].
  destruct (vx <=? v1).
  - destruct (truediv (vx - v0) acc) as [t1|e2] eqn:H2; cbn [bind]; [discriminate|].
    intros H; injection H as <-. rewrite (truediv_raises _ _ _ H2). auto.
  - destruct (truediv (v1 - v0) acc) as [t1|e2] eqn:H2; cbn [bind];
      [|intros H; injection H as <-; rewrite (truediv_raises _ _ _ H2); auto].
    destruct (float_pow_2 pow_2 v1) as [v1_2|e3] eqn:H3; cbn [bind];
      [|intros H; injection H as <-;
        destruct (float_pow_2_raises v1 e3 H3) as [-> _]; auto].
    destruct (truediv (v1_2 - v0_2) (2 * acc)) as [s|e4] eqn:H4; cbn [bind];
      [|intros H; injection H as <-; rewrite (truediv_raises _ _ _ H4); auto].
    destruct (truediv (dist - s) v1) as [t2|e5] eqn:H5; cbn [bind]; [discriminate|].
    intros H; injection H as <-. rewrite (truediv_raises _ _ _ H5). auto.
Qed.

Lemma time_to_goal_raises (dist v0 v1 acc dcc : float) (e : exn) :
  _time_to_goal pow_2 dist v0 v1 acc dcc = Raise e -> arithmetic e.
Proof.
  destruct (0 <=? v0) eqn:Hv.
  - rewrite float_time_to_goal_toward by exact Hv. apply toward_goal_raises.
  - rewrite float_time_to_goal_away by exact Hv. unfold arithmetic.
    destruct (float_pow_2 pow_2 v0) as [v0_2|e0] eqn:H0; cbn [bind];
      [|intros H; injection H as <-;
        destruct (float_pow_2_raises v0 e0 H0) as [-> _]; auto].
    destruct (truediv v0_2 (2 * acc)) as [s|e1] eqn:H1; cbn [bind];
      [|intros H; injection H as <-; rewrite (truediv_raises _ _ _ H1); auto].
    destruct (truediv (- v0) acc) as [t1|e2] eqn:H2; cbn [bind];
      [|intros H; injection H as <-; rewrite (truediv_raises _ _ _ H2); auto].
    rewrite float_time_to_goal_toward by reflexivity.
    destruct (toward_goal pow_2 (dist + s) 0 v1 acc) as [t2|e3] eqn:H3; cbn [bind];
      [discriminate|].
    intros H; injection H as <-. apply (toward_goal_raises _ _ _ _ _ H3).
Qed.

Lemma eta_raises (self : QActor) (variable : string) (x1 : float) (e : exn) :
  is_Some (_current_x self !! variable) ->
  _eta pow_2 self variable x1 = Raise e -> arithmetic e.
Proof.
  intros [x Hx]. unfold _eta, getitem. rewrite Hx. cbn [bind].
  destruct (0 <? x1 - x); [apply time_to_goal_raises|].
  destruct (x1 - x <? 0); [apply time_to_goal_raises | discriminate].
Qed.

Lemma vote_step_raises (self : QActor) (E : gmap string Z) (action_vote : float)
    (item : string * float) (e : exn) :
  is_Some (_current_x self !! fst item) -> is_Some (E !! fst item) ->
  vote_step pow_2 self E action_vote item = Raise e -> arithmetic e.
Proof.
  intros [x Hx] [d Hd]. unfold vote_step, getitem. rewrite Hx, Hd. cbn [bind].
  destruct (_eta pow_2 self (fst item) (snd item)) as [eta|e0] eqn:Heta; cbn [bind];
    [discriminate|].
  intros H; injection H as <-.
  apply (eta_raises self (fst item) (snd item)); [exists x; exact Hx | exact Heta].
Qed.

Lemma for_each_raises {A S : Type} (P : exn -> Prop) (body : S -> A -> result S)
    (items : list A) (s : S) (e : exn) :
  (forall (s' : S) (a : A) (e' : exn), In a items -> body s' a = Raise e' -> P e') ->
  for_each items body s = Raise e -> P e.
Proof.
  revert s. induction items as [|a items IH]; intros s Hbody; [discriminate|].
  cbn [for_each]. destruct (body s a) as [s'|e'] eqn:Hs; cbn [bind].
  - apply IH. intros s'' b e'' Hb. apply Hbody. right. exact Hb.
  - intros H; injection H as <-. apply (Hbody s a e'); [left; reflexivity | exact Hs].
Qed.

(** X24.  When the model lists at least one action, every target variable has
    a recorded position and every candidate's effect has an entry for it,
    [act] raises neither [IndexError] nor [KeyError]: an exception of [act]
    is one that the arithmetic of [_eta] raises, [ZeroDivisionError],
    [ValueError] or [OverflowError]. *)
Theorem act_raises_only_arithmetic (self : QActor) (target : list (string * float))
    (e : exn) :
  let candidates := actions (_model self) (_current_x self) in
  candidates <> [] ->
  (forall (variable : string) (x1 : float),
      In (variable, x1) target -> is_Some (_current_x self !! variable)) ->
  (forall (a : action) (variable : string) (x1 : float),
      In a candidates -> In (variable, x1) target ->
      is_Some (effect (_model self) a (_current_x self) !! variable)) ->
  act pow_2 self target = Raise e -> arithmetic e.
Proof.
  intros candidates Hne Hobserved Heffect. unfold act.
  destruct (collect_votes pow_2 self target) as [votes|e0] eqn:Hvotes; cbn [bind].
  - pose proof (sorted_reverse_perm votes) as Hperm.
    destruct (sorted_reverse votes) as [|x rest]; [|discriminate].
    apply Permutation_nil_r in Hperm. subst votes.
    rewrite float_collect_votes_collect in Hvotes. apply collect_Ok in Hvotes.
    inversion Hvotes as [Hc|]. exfalso. apply Hne. symmetry. exact Hc.
  - intros H; injection H as <-. revert Hvotes. unfold collect_votes.
    apply for_each_raises. intros votes a e' Ha. unfold evaluate.
    destruct (action_vote pow_2 self (effect (_model self) a (_current_x self)) target)
      as [v|e1] eqn:Hv; cbn [bind]; [discriminate|].
    intros H; injection H as <-. revert Hv. unfold action_vote.
    apply for_each_raises. intros s [variable x1] e2 Hitem.
    apply vote_step_raises; cbn [fst].
    + apply (Hobserved variable x1 Hitem).
    + apply (Heffect a variable x1 Ha Hitem).
Qed.

End LibmFacts.

(** The samples [nan], 0 and -5 of [x], one time unit apart: the velocity
    [nan] is stored as the maximum negative velocity, and stays when the
    velocity -5 is recorded. *)
Lemma nan_velocity_is_not_bounded :
  let self := run (__init__ CartModel)
                  [Observe [("x"%string, nan)] 1;
                   Observe [("x"%string, 0)] 1;
                   Observe [("x"%string, -5)] 1] in
  _current_v self !! "x"%string = Some (-5) /\
  (-5 <? 0) = true /\
  _max_v_neg self !! "x"%string = Some nan /\
  (abs (-5) <=? nan) = false.
Proof. vm_compute. repeat split; reflexivity. Qed.

(** A speed whose square underflows: the speed at the goal is computed as 0,
    below the speed [2**-600] at the start, and the time is below zero. *)
Example time_to_goal_below_zero :
  _time_to_goal rounded_square 0 0x1p-600 1 1 1 = Ok (-0x1p-600) /\
  (-0x1p-600 <? 0) = true.
Proof. split; vm_compute; reflexivity. Qed.

(** A radicand that underflows: with the distance and the acceleration at
    1e-200 and the speeds at 0 the call returns 0. *)
Example time_to_goal_radicand_underflows :
  _time_to_goal rounded_square 0x1.87e92154ef7acp-665 0 0 0x1.87e92154ef7acp-665 1
  = Ok 0.
Proof. vm_compute. reflexivity. Qed.

(** X21.  After the constructor and any calls of [reset], [restart] and
    [observe], every stored maximum positive velocity and acceleration is
    above zero (so not NaN), and every stored maximum negative velocity and
    acceleration is above zero or NaN. *)
Theorem extrema_are_positive (model : QModel) (calls : list call)
    (variable : string) (m : float) :
  let self := run (__init__ model) calls in
  (_max_v_pos self !! variable = Some m \/ _max_a_pos self !! variable = Some m ->
   (0 <? m) = true) /\
  (_max_v_neg self !! variable = Some m \/ _max_a_neg self !! variable = Some m ->
   (0 <? m) = true \/ is_nan m = true).
Proof.
  intros self.
  destruct (reachable_invariant model calls) as [Pv [Pa [Nv [Na _]]]].
  fold self in Pv, Pa, Nv, Na. split.
  - intros [H|H]; [apply (Pv _ _ H) | apply (Pa _ _ H)].
  - intros [H|H]; [apply (Nv _ _ H) | apply (Na _ _ H)].
Qed.

(** ** The cart example *)

Lemma act_returns_first_greatest_witness :
  exists (i : nat) (a : action),
    act rounded_square cart_start [("x"%string, 0); ("v"%string, 0)] = Ok a /\
    actions (_model cart_start) (_current_x cart_start) !! i = Some a.
Proof.
  destruct (act_returns_first_greatest rounded_square cart_start
              [("x"%string, 0); ("v"%string, 0)])
    as [i [a [k [Hact [Hi _]]]]].
  - discriminate.
  - intros a [<-|[<-|[<-|[]]]]; eexists; (split; [vm_compute; reflexivity | reflexivity]).
  - exists i, a. split; [exact Hact | exact Hi].
Defined.

(** Two calls within the contract of [act] where it does not return the
    greatest pair.  The cart at -1e308 with the target at 1e308 and both
    velocities 0: the distance is infinite, so is the time, the votes are
    [-inf], [0 * inf] and [inf], every comparison with the NaN is false, and
    [act] returns the first action, whose vote is the lowest.  The cart at a
    recorded speed of [2**600], above about 1.3e154: the square of line 147
    overflows and [act] raises. *)
Lemma act_not_first_greatest :
  (let self := run (__init__ CartModel)
                   [Observe [("x"%string, -0x1.1ccf385ebc8ap+1023); ("v"%string, 0)] 1] in
   let target := [("x"%string, 0x1.1ccf385ebc8ap+1023); ("v"%string, 0)] in
   actions (_model self) (_current_x self) =
     [[("F"%string, (-1)%Z)]; [("F"%string, 0%Z)]; [("F"%string, 1%Z)]] /\
   candidate_key rounded_square self target [("F"%string, (-1)%Z)]
     = Ok (neg_infinity, 1%Z) /\
   candidate_key rounded_square self target [("F"%string, 0%Z)] = Ok (nan, 0%Z) /\
   candidate_key rounded_square self target [("F"%string, 1%Z)]
     = Ok (infinity, 1%Z) /\
   key_lt (neg_infinity, 1%Z) (infinity, 1%Z) /\
   act rounded_square self target = Ok [("F"%string, (-1)%Z)]) /\
  (let self := run (__init__ CartModel)
                   [Observe [("x"%string, 0); ("v"%string, 0)] 1;
                    Observe [("x"%string, 0x1p+600); ("v"%string, 0)] 1] in
   _current_v self !! "x"%string = Some 0x1p+600 /\
   act rounded_square self [("x"%string, 0x1p+601); ("v"%string, 0)]
     = Raise OverflowError).
Proof.
  cbv zeta. repeat split; try (vm_compute; reflexivity).
  left. reflexivity.
Qed.

Lemma time_to_goal_recursion_depth_witness :
  _time_to_goal_depth rounded_square 1 1 (-1) 1 1 1 = None /\
  _time_to_goal_depth rounded_square 2 1 (-1) 1 1 1 =
    Some (_time_to_goal rounded_square 1 (-1) 1 1 1) /\
  _time_to_goal rounded_square 1 (-1) 1 1 1 =
    (let! t2 := _time_to_goal rounded_square (1 + 1 / (2 * 1)) 0 1 1 1 in
     Ok (0 + - -1 / 1 + t2)).
Proof.
  pose proof (time_to_goal_recursion_depth rounded_square 1 (-1) 1 1 1)
    as [Hen [_ [Haway _]]].
  destruct (Haway eq_refl) as [_ [_ Hone]].
  destruct (Hone 1 eq_refl eq_refl) as [H1 [H2 _]].
  split; [exact H1|]. split; [apply (Hen 0%nat) | exact H2].
Defined.

Lemma time_to_goal_without_recursion :
  (-1 <? 0) = true /\
  _time_to_goal_depth rounded_square 1 1 (-1) 1 0 1 = Some (Raise ZeroDivisionError) /\
  _time_to_goal rounded_square 1 (-1) 1 0 1 = Raise ZeroDivisionError /\
  (-0x1p+600 <? 0) = true /\
  _time_to_goal_depth rounded_square 1 1 (-0x1p+600) 1 1 1 = Some (Raise OverflowError) /\
  _time_to_goal rounded_square 1 (-0x1p+600) 1 1 1 = Raise OverflowError /\
  _time_to_goal rounded_square 1 (-0x1p+600) 1 0 1 = Raise OverflowError.
Proof. repeat split; vm_compute; reflexivity. Qed.

Lemma time_to_goal_degenerate_inputs_witness :
  _time_to_goal rounded_square 1 1 1 0 1 = Raise ZeroDivisionError /\
  _time_to_goal rounded_square 1 0x1p+600 1 0 1 = Raise OverflowError.
Proof.
  split.
  - rewrite (time_to_goal_degenerate_inputs rounded_square 1 1 1 0 1 eq_refl).
    reflexivity.
  - rewrite (time_to_goal_degenerate_inputs rounded_square 1 0x1p+600 1 0 1 eq_refl).
    reflexivity.
Defined.

Lemma act_returns_a_candidate_witness :
  act rounded_square cart_start [("x"%string, 0); ("v"%string, 0)]
    = Ok [("F"%string, 1%Z)] /\
  exists (i : nat) (k : float * Z),
    actions (_model cart_start) (_current_x cart_start) !! i
      = Some [("F"%string, 1%Z)] /\
    candidate_key rounded_square cart_start [("x"%string, 0); ("v"%string, 0)]
      [("F"%string, 1%Z)] = Ok k.
Proof.
  assert (Hact : act rounded_square cart_start [("x"%string, 0); ("v"%string, 0)]
                 = Ok [("F"%string, 1%Z)]) by (vm_compute; reflexivity).
  split; [exact Hact|].
  apply (proj1 (act_returns_a_candidate rounded_square cart_start _ _ Hact)).
Defined.

(** Samples 0, 2 and 1 of [x] one time unit apart: velocities 2 and -1,
    acceleration -3. *)
Lemma extrema_are_positive_witness :
  let calls := [Observe [("x"%string, 0)] 1; Observe [("x"%string, 2)] 1;
                Observe [("x"%string, 1)] 1] in
  _max_v_pos (run (__init__ CartModel) calls) !! "x"%string = Some 2 /\
  (0 <? 2) = true /\
  _max_a_neg (run (__init__ CartModel) calls) !! "x"%string = Some 3 /\
  ((0 <? 3) = true \/ is_nan 3 = true).
Proof.
  cbv zeta.
  assert (H1 : _max_v_pos (run (__init__ CartModel)
                 [Observe [("x"%string, 0)] 1; Observe [("x"%string, 2)] 1;
                  Observe [("x"%string, 1)] 1]) !! "x"%string = Some 2)
    by (vm_compute; reflexivity).
  assert (H2 : _max_a_neg (run (__init__ CartModel)
                 [Observe [("x"%string, 0)] 1; Observe [("x"%string, 2)] 1;
                  Observe [("x"%string, 1)] 1]) !! "x"%string = Some 3)
    by (vm_compute; reflexivity).
  split; [exact H1|]. split.
  - apply (proj1 (extrema_are_positive CartModel
                    [Observe [("x"%string, 0)] 1; Observe [("x"%string, 2)] 1;
                     Observe [("x"%string, 1)] 1] "x"%string 2)).
    left. exact H1.
  - split; [exact H2|].
    apply (proj2 (extrema_are_positive CartModel
                    [Observe [("x"%string, 0)] 1; Observe [("x"%string, 2)] 1;
                     Observe [("x"%string, 1)] 1] "x"%string 3)).
    right. exact H2.
Defined.

(** After the samples [nan] and 0 of [x] the maximum negative velocity is
    NaN, and it is after two further samples, a restart and a sample more. *)
Lemma nan_extremum_persists_witness :
  let self := run (__init__ CartModel)
                  [Observe [("x"%string, nan)] 1; Observe [("x"%string, 0)] 1] in
  let calls := [Observe [("x"%string, -5)] 1; Observe [("x"%string, -100)] 1;
                Restart; Observe [("x"%string, 7)] 1; Observe [("x"%string, -7)] 1] in
  _max_v_neg self !! "x"%string = Some nan /\
  _max_v_neg (run self calls) !! "x"%string = Some nan.
Proof.
  cbv zeta.
  assert (H : _max_v_neg (run (__init__ CartModel)
                [Observe [("x"%string, nan)] 1; Observe [("x"%string, 0)] 1])
              !! "x"%string = Some nan) by (vm_compute; reflexivity).
  split; [exact H|].
  apply (proj1 (nan_extremum_persists
                  (run (__init__ CartModel)
                     [Observe [("x"%string, nan)] 1; Observe [("x"%string, 0)] 1])
                  [Observe [("x"%string, -5)] 1; Observe [("x"%string, -100)] 1;
                   Restart; Observe [("x"%string, 7)] 1; Observe [("x"%string, -7)] 1]
                  "x"%string ltac:(repeat constructor))).
  exact H.
Defined.

(** The cart at -1e308 with the target at 1e308: no key is below the next
    one, since the key in the middle is NaN, and [act] returns the first
    action. *)
Lemma act_returns_the_first_of_unordered_witness :
  act rounded_square
      (run (__init__ CartModel)
           [Observe [("x"%string, -0x1.1ccf385ebc8ap+1023); ("v"%string, 0)] 1])
      [("x"%string, 0x1.1ccf385ebc8ap+1023); ("v"%string, 0)]
  = Ok [("F"%string, (-1)%Z)].
Proof.
  apply (act_returns_the_first_of_unordered rounded_square _ _ _
           [[("F"%string, 0%Z)]; [("F"%string, 1%Z)]]).
  - reflexivity.
  - intros a [<-|[<-|[<-|[]]]]; eexists; vm_compute; reflexivity.
  - intros [|[|[|i]]] a b ka kb Ha Hb; try discriminate;
      injection Ha as <-; injection Hb as <-;
      vm_compute; intros Hka Hkb; injection Hka as <-; injection Hkb as <-;
      reflexivity.
Defined.

(** The cart at the speed [2**600]: the contract of [act] is met and the
    exception is an [OverflowError]. *)
Lemma act_raises_only_arithmetic_witness :
  let self := run (__init__ CartModel)
                  [Observe [("x"%string, 0); ("v"%string, 0)] 1;
                   Observe [("x"%string, 0x1p+600); ("v"%string, 0)] 1] in
  act rounded_square self [("x"%string, 0x1p+601); ("v"%string, 0)]
    = Raise OverflowError /\
  arithmetic OverflowError.
Proof.
  cbv zeta.
  assert (H : act rounded_square
                (run (__init__ CartModel)
                   [Observe [("x"%string, 0); ("v"%string, 0)] 1;
                    Observe [("x"%string, 0x1p+600); ("v"%string, 0)] 1])
                [("x"%string, 0x1p+601); ("v"%string, 0)] = Raise OverflowError)
    by (vm_compute; reflexivity).
  split; [exact H|].
  apply (act_raises_only_arithmetic rounded_square _ _ _) in H.
  - exact H.
  - discriminate.
  - intros variable x1 [Hi|[Hi|[]]]; injection Hi as <- <-;
      eexists; vm_compute; reflexivity.
  - intros a variable x1 [<-|[<-|[<-|[]]]] [Hi|[Hi|[]]];
      injection Hi as <- <-; eexists; vm_compute; reflexivity.
Defined.

(** Finite samples are enough for a NaN extremum: with [dt = 1e-300] the
    samples 0, 1e10 and 2e10 give the velocity [inf] twice and the
    acceleration [inf - inf]. *)
Example nan_extremum_from_finite_samples :
  let calls := [Observe [("x"%string, 0)] 0x1.56e1fc2f8f359p-997;
                Observe [("x"%string, 0x1.2a05f2p+33)] 0x1.56e1fc2f8f359p-997;
                Observe [("x"%string, 0x1.2a05f2p+34)] 0x1.56e1fc2f8f359p-997] in
  _current_v (run (__init__ CartModel) calls) !! "x"%string = Some infinity /\
  _max_a_neg (run (__init__ CartModel) calls) !! "x"%string = Some nan.
Proof. cbv zeta. split; vm_compute; reflexivity. Qed.

End Binary64Facts.
